(** * The columnar [List] store of src/data/List.ts, embedded in Rocq

    The store keeps, per dimension, a sequence of chunks of numbers, an
    optional index array mapping logical to raw positions, cached extents
    and per-row names and ids.  The definitions below follow the methods of
    the TypeScript class one by one, with these conventions:

    - a number is a binary64 float ([spec_float] with precision 53 and
      maximal exponent 1024); indices, counts and offsets are integers;
    - a chunk holds numbers, the values the code stores after its casts to
      [ParsedValueNumeric]; reading a slot that does not exist yields
      [Undefined], which comparisons, [isNaN] and [+] coerce to NaN;
    - a result of type [option] is [None] when the JavaScript run throws a
      [TypeError] (a property read on [undefined] or [null], a call of what
      is no function), and also when [getRawIndex] reads a slot the index
      array does not have;
    - callbacks are functions without side effects; a result is taken for
      its truthiness ([filterSelf_throwing] is [filterSelf] with a callback
      that may throw);
    - an object used as a map is the finite map of its own properties, read
      through [property], which goes on to the members every object
      inherits; the extent pairs, which are arrays handed out to callers,
      live in a heap. *)

From Stdlib Require Import ZArith Ascii String Lia SpecFloat DecimalString.
From stdpp Require Import base option list gmap strings pretty numbers sorting.

Local Open Scope Z_scope.

(** ** JavaScript numbers and values *)

Module JS.

(** A JavaScript number is an IEEE-754 binary64 float. *)
Definition number : Type := spec_float.

Definition NaN : number := S754_nan.
Definition Infinity : number := S754_infinity false.
Definition NegInfinity : number := S754_infinity true.
Definition zero : number := S754_zero false.

Definition isNaN (x : number) : bool :=
  match x with S754_nan => true | _ => false end.

(** [x < y], [x > y], [x >= y], [x <= y] on numbers. *)
Definition lt (x y : number) : bool := SFltb x y.
Definition gt (x y : number) : bool := SFltb y x.
Definition le (x y : number) : bool := SFleb x y.
Definition ge (x y : number) : bool := SFleb y x.

Definition add (x y : number) : number := SFadd 53 1024 x y.

(** What an element read of an array yields: a number, or [undefined]
    when the slot does not exist. *)
Inductive value : Type :=
| Num (x : number)
| Undefined.

(** The coercion JavaScript applies before comparing or adding. *)
Definition ToNumber (v : value) : number :=
  match v with Num x => x | Undefined => NaN end.

(** [a[i]] on an array, [i] any integer. *)
Definition at_index {A : Type} (a : list A) (i : Z) : option A :=
  if i <? 0 then None else a !! Z.to_nat i.

End JS.

Import JS.

#[global] Instance number_eq_dec : EqDecision number.
Proof. unfold number. solve_decision. Defined.

#[global] Instance value_eq_dec : EqDecision value.
Proof. solve_decision. Defined.

(** ** Plain objects

    [_storage], [_dimensionInfos], [_rawExtent], [_extent], the inverted
    indices, the repeat counter of names and the visual fields are objects
    created by [{}] and used as maps from strings.  A read [obj[key]] finds
    the own property [key] or, when the object has none, the member of that
    name of [Object.prototype], taken as the language defines it: one of
    the functions named below, or the prototype itself under [__proto__].
    Such a member is truthy, is not a number, and has none of the
    properties the store reads of its values: no element at any index, no
    [slice], no [ordinalMeta], no [otherDims]. *)
Definition Object_prototype : list string :=
  ["constructor"; "hasOwnProperty"; "isPrototypeOf"; "propertyIsEnumerable";
   "toLocaleString"; "toString"; "valueOf";
   "__defineGetter__"; "__defineSetter__"; "__lookupGetter__"; "__lookupSetter__";
   "__proto__"]%string.

(** What a read [obj[key]] finds. *)
Inductive Property (A : Type) : Type :=
| Own (a : A)
| Inherited
| Absent.

Arguments Own {A} a.
Arguments Inherited {A}.
Arguments Absent {A}.

Definition property {A : Type} (obj : gmap string A) (key : string) : Property A :=
  match obj !! key with
  | Some a => Own a
  | None => if bool_decide (key ∈ Object_prototype) then Inherited else Absent
  end.

(** ** The data model *)

(** The part of [DataDimensionInfo] the store reads: the categories of the
    ordinal meta, when the dimension has one, and the [itemName] entry of
    [otherDims]. *)
Record DataDimensionInfo : Type := mkDimInfo {
  dim_name : string;
  ordinalMeta : option (list string);
  otherDims_itemName : option Z
}.

(** Names and ids are strings, or numbers when they are taken from a
    dimension that has no categories. *)
Inductive NameValue : Type :=
| Str (s : string)
| NumV (x : number).

#[global] Instance NameValue_eq_dec : EqDecision NameValue.
Proof. solve_decision. Defined.

(** Which function the [getRawIndex] property currently holds. *)
Inductive RawIndexGetter : Type :=
| WithoutIndices
| WithIndices.

#[global] Instance RawIndexGetter_eq_dec : EqDecision RawIndexGetter.
Proof. solve_decision. Defined.

(** An entry of the repeat counter of names: a count, or the NaN that [++]
    leaves of an entry that was not a number. *)
Inductive RepeatCount : Type :=
| Count (n : nat)
| CountNaN.

#[global] Instance RepeatCount_eq_dec : EqDecision RepeatCount.
Proof. solve_decision. Defined.

(** Extent pairs [[min, max]] are JavaScript arrays, hence heap objects:
    [_rawExtent] and [_extent] map a dimension to the address of its pair. *)
Abbreviation Heap := (gmap nat (number * number)) (only parsing).

Record List : Type := mkList {
  dimensions : list string;
  _dimensionInfos : gmap string DataDimensionInfo;
  _indices : option (list nat);
  _count : nat;
  _rawCount : nat;
  _storage : gmap string (list (list number));
  _nameList : gmap nat NameValue;
  _idList : gmap nat NameValue;
  _chunkSize : nat;
  _chunkCount : nat;
  _rawExtent : gmap string nat;
  _extent : gmap string nat;
  _nameRepeatCount : gmap string RepeatCount;
  _nameDimIdx : option nat;
  _idDimIdx : option nat;
  rawIndexGetter : RawIndexGetter
}.

Definition count (l : List) : nat := _count l.

(** ** Raw index translation *)

Definition getRawIndexWithoutIndices (l : List) (idx : Z) : option Z :=
  Some idx.

(** [this._indices[idx]] inside the bounds, [-1] outside.  [None] when
    [_indices] is null or has no slot [idx]. *)
Definition getRawIndexWithIndices (l : List) (idx : Z) : option Z :=
  if (idx <? Z.of_nat (_count l)) && (0 <=? idx) then
    indices ← _indices l;
    Z.of_nat <$> indices !! Z.to_nat idx
  else Some (-1).

Definition getRawIndex (l : List) (idx : Z) : option Z :=
  match rawIndexGetter l with
  | WithoutIndices => getRawIndexWithoutIndices l idx
  | WithIndices => getRawIndexWithIndices l idx
  end.

(** ** Reading values *)

(** [dimStore[Math.floor(rawIdx / chunkSize)][rawIdx % chunkSize]].  With a
    chunk size of 0 the chunk index is infinite or NaN, the chunk is
    undefined and the element read throws. *)
Definition readChunked (chunkSize : nat) (dimStore : list (list number))
    (rawIdx : Z) : option value :=
  if Nat.eqb chunkSize 0 then None
  else
    let chunkIndex := rawIdx `div` Z.of_nat chunkSize in
    let chunkOffset := rawIdx `rem` Z.of_nat chunkSize in
    chunkStore ← at_index dimStore chunkIndex;
    Some (from_option Num Undefined (at_index chunkStore chunkOffset)).

(** [this._storage[dim]], as the array of chunks the code takes it for:
    [None] is [undefined]; an inherited member is truthy and has no chunk
    at any index, as an array without elements. *)
Definition storageOf (l : List) (dim : string) : option (list (list number)) :=
  match property (_storage l) dim with
  | Own dimStore => Some dimStore
  | Inherited => Some []
  | Absent => None
  end.

Definition _getFast (l : List) (dim : string) (rawIdx : Z) : option value :=
  dimStore ← storageOf l dim;
  readChunked (_chunkSize l) dimStore rawIdx.

Definition get (l : List) (dim : string) (idx : Z) : option value :=
  if negb ((0 <=? idx) && (idx <? Z.of_nat (_count l))) then Some (Num NaN)
  else
    match storageOf l dim with
    | None => Some (Num NaN)
    | Some dimStore =>
        rawIdx ← getRawIndex l idx;
        readChunked (_chunkSize l) dimStore rawIdx
    end.

Definition getByRawIndex (l : List) (dim : string) (rawIdx : Z) : option value :=
  if negb ((0 <=? rawIdx) && (rawIdx <? Z.of_nat (_rawCount l))) then Some (Num NaN)
  else
    match storageOf l dim with
    | None => Some (Num NaN)
    | Some dimStore => readChunked (_chunkSize l) dimStore rawIdx
    end.

(** ** Dimension names *)

(** A [DimensionLoose] is a dimension name or a dimension index. *)
Inductive DimensionLoose : Type :=
| DimName (name : string)
| DimIndex (i : Z).

(** The array index a property key denotes, if it is the canonical decimal
    spelling of one. *)
Definition arrayIndexOfKey (key : string) : option nat :=
  u ← NilEmpty.uint_of_string key;
  let n := Nat.of_uint u in
  if decide (pretty n = key) then Some n else None.

(** An undefined value used as a property key reads the key "undefined". *)
Definition propertyKey (name : option string) : string :=
  default "undefined"%string name.

Section Conversions.

(** The coercion of a string to a number is left to the host language. *)
Variable StringToNumber : string → number.

(** [getDimension]: an index, or a number-like string that is not a
    declared dimension name, is looked up in [dimensions]; the result is
    given as the property key it is then used as.  The test
    [_dimensionInfos.hasOwnProperty(dim)] asks for an own property, and
    calls the method every object inherits: no dimension is taken to be
    named [hasOwnProperty] itself. *)
Definition getDimension (l : List) (dim : DimensionLoose) : string :=
  match dim with
  | DimIndex i => propertyKey (at_index (dimensions l) i)
  | DimName name =>
      if negb (isNaN (StringToNumber name))
         && negb (bool_decide (is_Some (_dimensionInfos l !! name)))
      then propertyKey (i ← arrayIndexOfKey name; dimensions l !! i)
      else name
  end.

End Conversions.

(** ** Index arrays *)

(** The typed array an index view is stored in. *)
Inductive IndicesCtor : Type :=
| CtorUint16Array
| CtorUint32Array.

Definition getIndicesCtor (l : List) : IndicesCtor :=
  if (65535 <? Z.of_nat (_rawCount l)) then CtorUint32Array else CtorUint16Array.

(** What a typed array keeps of an integer written to it. *)
Definition storedIndex (Ctor : IndicesCtor) (v : Z) : nat :=
  match Ctor with
  | CtorUint16Array => Z.to_nat (v `mod` 2 ^ 16)
  | CtorUint32Array => Z.to_nat (v `mod` 2 ^ 32)
  end.

(** [new Ctor(n)]: [n] zeros. *)
Definition newIndicesArray (n : nat) : list nat := replicate n 0%nat.

(** The state of a filtering loop: the array being filled and [offset]. *)
Definition IndexWriter : Type := list nat * nat.

(** [newIndices[offset++] = rawIdx]. *)
Definition pushIndex (Ctor : IndicesCtor) (w : IndexWriter) (rawIdx : Z) : IndexWriter :=
  (<[w.2 := storedIndex Ctor rawIdx]> (w.1), S (w.2)).

(** [for (let i = from; i < from + n; i++) body], threading a state and
    stopping at the first exception. *)
Fixpoint for_loop {S : Type} (from n : nat) (body : nat → S → option S) (s : S)
    : option S :=
  match n with
  | O => Some s
  | Datatypes.S n' => s' ← body from s; for_loop (Datatypes.S from) n' body s'
  end.

(** The common tail of [filterSelf] and [selectRange]: install the new
    index array when rows were dropped, set the count, reset the view
    extent cache and rebind [getRawIndex]. *)
Definition installView (l : List) (originalCount : nat) (w : IndexWriter) : List :=
  let indices := if (w.2 <? originalCount)%nat then Some (w.1) else _indices l in
  {| dimensions := dimensions l;
     _dimensionInfos := _dimensionInfos l;
     _indices := indices;
     _count := w.2;
     _rawCount := _rawCount l;
     _storage := _storage l;
     _nameList := _nameList l;
     _idList := _idList l;
     _chunkSize := _chunkSize l;
     _chunkCount := _chunkCount l;
     _rawExtent := _rawExtent l;
     _extent := ∅;
     _nameRepeatCount := _nameRepeatCount l;
     _nameDimIdx := _nameDimIdx l;
     _idDimIdx := _idDimIdx l;
     rawIndexGetter :=
       match indices with Some _ => WithIndices | None => WithoutIndices end |}.

(** ** filterSelf *)

(** A filter callback receives the values read for the named dimensions and
    the logical index; its result is taken for its truthiness. *)
Definition FilterCb : Type := list value → nat → bool.

(** The values handed to the callback at raw position [rawIdx]. *)
Definition filterValues (l : List) (dimNames : list string) (rawIdx : Z)
    : option (list value) :=
  match dimNames with
  | [] => Some []
  | [dim0] => val ← _getFast l dim0 rawIdx; Some [val]
  | dim0 :: _ => mapM (λ _ : string, _getFast l dim0 rawIdx) dimNames
  end.

Definition filterSelf_body (l : List) (dimNames : list string) (cb : FilterCb)
    (Ctor : IndicesCtor) (i : nat) (w : IndexWriter) : option IndexWriter :=
  rawIdx ← getRawIndex l (Z.of_nat i);
  value ← filterValues l dimNames rawIdx;
  Some (if cb value i then pushIndex Ctor w rawIdx else w).

Definition filterSelf (StringToNumber : string → number)
    (dims : list DimensionLoose) (cb : FilterCb) (l : List) : option List :=
  if Nat.eqb (_count l) 0 then Some l
  else
    let dimNames := getDimension StringToNumber l <$> dims in
    let count := count l in
    let Ctor := getIndicesCtor l in
    w ← for_loop 0 count (filterSelf_body l dimNames cb Ctor) (newIndicesArray count, 0%nat);
    Some (installView l count w).

(** [filterSelf] calls [cb] outside any [try]: an exception the callback
    raises ends the loop and the call, with the store as it was.  A
    callback that may throw yields [None] where it does; [filterSelf]
    above is the case of a callback that returns at every row. *)
Definition FilterCbThrowing : Type := list value → nat → option bool.

Definition filterSelf_body_throwing (l : List) (dimNames : list string)
    (cb : FilterCbThrowing) (Ctor : IndicesCtor) (i : nat) (w : IndexWriter)
    : option IndexWriter :=
  rawIdx ← getRawIndex l (Z.of_nat i);
  value ← filterValues l dimNames rawIdx;
  keep ← cb value i;
  Some (if keep : bool then pushIndex Ctor w rawIdx else w).

Definition filterSelf_throwing (StringToNumber : string → number)
    (dims : list DimensionLoose) (cb : FilterCbThrowing) (l : List) : option List :=
  if Nat.eqb (_count l) 0 then Some l
  else
    let dimNames := getDimension StringToNumber l <$> dims in
    let count := count l in
    let Ctor := getIndicesCtor l in
    w ← for_loop 0 count (filterSelf_body_throwing l dimNames cb Ctor)
          (newIndicesArray count, 0%nat);
    Some (installView l count w).

(** ** selectRange *)

(** [(val >= min && val <= max) || isNaN(val)]. *)
Definition inRangeOrNaN (min max : number) (val : value) : bool :=
  (ge (ToNumber val) min && le (ToNumber val) max) || isNaN (ToNumber val).

(** [val < min || val > max]. *)
Definition outOfRange (min max : number) (val : value) : bool :=
  lt (ToNumber val) min || gt (ToNumber val) max.

(** A range object, as the list of its own keys in enumeration order, each
    with its [[min, max]] pair. *)
Definition Range : Type := list (string * (number * number)).

(** The state of the chunk-wise loops: the writer and the running [idx]. *)
Definition ChunkWriter : Type := IndexWriter * nat.

(** [Math.min(this._count - k * this._chunkSize, this._chunkSize)]. *)
Definition chunkLen (l : List) (k : nat) : Z :=
  Z.min (Z.of_nat (_count l) - Z.of_nat k * Z.of_nat (_chunkSize l))
        (Z.of_nat (_chunkSize l)).

(** Fast path for one dimension, when no index array is active. *)
Definition selectRange_fast1_row (Ctor : IndicesCtor) (min max : number)
    (chunkStorage : option (list number)) (i : nat) (s : ChunkWriter)
    : option ChunkWriter :=
  chunk ← chunkStorage;
  let val := from_option Num Undefined (chunk !! i) in
  let w := if inRangeOrNaN min max val then pushIndex Ctor s.1 (Z.of_nat s.2) else s.1 in
  Some (w, S s.2).

Definition selectRange_fast1_chunk (l : List) (Ctor : IndicesCtor) (dim0 : string)
    (min max : number) (k : nat) (s : ChunkWriter) : option ChunkWriter :=
  dimStorage ← storageOf l dim0;
  let chunkStorage := dimStorage !! k in
  let len := chunkLen l k in
  for_loop 0 (Z.to_nat len) (selectRange_fast1_row Ctor min max chunkStorage) s.

Definition selectRange_fast1 (l : List) (dim0 : string) (min max : number)
    : option IndexWriter :=
  let originalCount := count l in
  let Ctor := getIndicesCtor l in
  s ← for_loop 0 (_chunkCount l) (selectRange_fast1_chunk l Ctor dim0 min max)
        ((newIndicesArray originalCount, 0%nat), 0%nat);
  Some s.1.

(** Fast path for two dimensions. *)
Definition selectRange_fast2_row (Ctor : IndicesCtor) (min max min2 max2 : number)
    (chunkStorage chunkStorage2 : option (list number)) (i : nat) (s : ChunkWriter)
    : option ChunkWriter :=
  chunk ← chunkStorage;
  let val := from_option Num Undefined (chunk !! i) in
  chunk2 ← chunkStorage2;
  let val2 := from_option Num Undefined (chunk2 !! i) in
  let w := if inRangeOrNaN min max val && inRangeOrNaN min2 max2 val2
           then pushIndex Ctor s.1 (Z.of_nat s.2) else s.1 in
  Some (w, S s.2).

Definition selectRange_fast2_chunk (l : List) (Ctor : IndicesCtor)
    (dim0 dim1 : string) (min max min2 max2 : number) (k : nat) (s : ChunkWriter)
    : option ChunkWriter :=
  dimStorage ← storageOf l dim0;
  let chunkStorage := dimStorage !! k in
  dimStorage2 ← storageOf l dim1;
  let chunkStorage2 := dimStorage2 !! k in
  let len := chunkLen l k in
  for_loop 0 (Z.to_nat len)
    (selectRange_fast2_row Ctor min max min2 max2 chunkStorage chunkStorage2) s.

Definition selectRange_fast2 (l : List) (dim0 dim1 : string)
    (min max min2 max2 : number) : option IndexWriter :=
  let originalCount := count l in
  let Ctor := getIndicesCtor l in
  s ← for_loop 0 (_chunkCount l)
        (selectRange_fast2_chunk l Ctor dim0 dim1 min max min2 max2)
        ((newIndicesArray originalCount, 0%nat), 0%nat);
  Some s.1.

(** The per-row loop for one dimension, reading through [getRawIndex]. *)
Definition selectRange_generic1_body (l : List) (Ctor : IndicesCtor) (dim0 : string)
    (min max : number) (i : nat) (w : IndexWriter) : option IndexWriter :=
  rawIndex ← getRawIndex l (Z.of_nat i);
  val ← _getFast l dim0 rawIndex;
  Some (if inRangeOrNaN min max val then pushIndex Ctor w rawIndex else w).

Definition selectRange_generic1 (l : List) (dim0 : string) (min max : number)
    : option IndexWriter :=
  let originalCount := count l in
  for_loop 0 originalCount
    (selectRange_generic1_body l (getIndicesCtor l) dim0 min max)
    (newIndicesArray originalCount, 0%nat).

(** The per-row loop for any number of dimensions: the inner loop clears
    [keep] for every dimension whose value is out of its range. *)
Fixpoint selectRange_keep (l : List) (range : Range) (rawIndex : Z) (keep : bool)
    : option bool :=
  match range with
  | [] => Some keep
  | (dimk, (mink, maxk)) :: range' =>
      val ← _getFast l dimk rawIndex;
      selectRange_keep l range' rawIndex
        (if outOfRange mink maxk val then false else keep)
  end.

Definition selectRange_genericN_body (l : List) (Ctor : IndicesCtor) (range : Range)
    (i : nat) (w : IndexWriter) : option IndexWriter :=
  rawIndex ← getRawIndex l (Z.of_nat i);
  keep ← selectRange_keep l range rawIndex true;
  if keep : bool
  then (rawIndex' ← getRawIndex l (Z.of_nat i); Some (pushIndex Ctor w rawIndex'))
  else Some w.

Definition selectRange_genericN (l : List) (range : Range) : option IndexWriter :=
  let originalCount := count l in
  for_loop 0 originalCount
    (selectRange_genericN_body l (getIndicesCtor l) range)
    (newIndicesArray originalCount, 0%nat).

Definition selectRange (range : Range) (l : List) : option List :=
  if Nat.eqb (_count l) 0 then Some l
  else
    match range with
    | [] => Some l
    | (dim0, (min, max)) :: rest =>
        let originalCount := count l in
        w ← match _indices l, rest with
            | None, [] => selectRange_fast1 l dim0 min max
            | None, [(dim1, (min2, max2))] =>
                selectRange_fast2 l dim0 dim1 min max min2 max2
            | _, [] => selectRange_generic1 l dim0 min max
            | _, _ => selectRange_genericN l range
            end;
        Some (installView l originalCount w)
    end.

(** ** Extents *)

(** Allocation of a fresh pair object. *)
Definition alloc (h : Heap) (p : number * number) : nat * Heap :=
  let r := fresh (dom h) in (r, <[r := p]> h).

Definition getInitialExtent (h : Heap) : nat * Heap :=
  alloc h (Infinity, NegInfinity).

(** [extent.slice()]: a new pair object with the same two numbers. *)
Definition slice (h : Heap) (r : nat) : option (nat * Heap) :=
  p ← h !! r; Some (alloc h p).

(** One round of the scan: [value < min && (min = value)], then
    [value > max && (max = value)]. *)
Definition getDataExtent_body (l : List) (dim : string) (i : nat)
    (mm : number * number) : option (number * number) :=
  rawIdx ← getRawIndex l (Z.of_nat i);
  value ← _getFast l dim rawIdx;
  let min := if lt (ToNumber value) mm.1 then ToNumber value else mm.1 in
  let max := if gt (ToNumber value) mm.2 then ToNumber value else mm.2 in
  Some (min, max).

Definition setExtent (l : List) (extent : gmap string nat) : List :=
  {| dimensions := dimensions l;
     _dimensionInfos := _dimensionInfos l;
     _indices := _indices l;
     _count := _count l;
     _rawCount := _rawCount l;
     _storage := _storage l;
     _nameList := _nameList l;
     _idList := _idList l;
     _chunkSize := _chunkSize l;
     _chunkCount := _chunkCount l;
     _rawExtent := _rawExtent l;
     _extent := extent;
     _nameRepeatCount := _nameRepeatCount l;
     _nameDimIdx := _nameDimIdx l;
     _idDimIdx := _idDimIdx l;
     rawIndexGetter := rawIndexGetter l |}.

(** [getDataExtent]: the result is the address of the returned pair, with
    the heap and the store after the call.  [slice] is called on what the
    read of [_rawExtent] or [_extent] finds: the call throws when that is
    undefined or an inherited member, which has no [slice]; the scan runs
    when [_extent[dim]] is undefined. *)
Definition getDataExtent (StringToNumber : string → number) (h : Heap)
    (l : List) (dim : DimensionLoose) : option (nat * Heap * List) :=
  let dim := getDimension StringToNumber l dim in
  let '(initialExtent, h) := getInitialExtent h in
  match storageOf l dim with
  | None => Some (initialExtent, h, l)
  | Some dimData =>
      let currEnd := count l in
      match _indices l with
      | None =>
          match property (_rawExtent l) dim with
          | Own rawExtent =>
              '(r, h) ← slice h rawExtent;
              Some (r, h, l)
          | _ => None
          end
      | Some _ =>
          match property (_extent l) dim with
          | Own dimExtent =>
              '(r, h) ← slice h dimExtent;
              Some (r, h, l)
          | Inherited => None
          | Absent =>
              init ← h !! initialExtent;
              mm ← for_loop 0 currEnd (getDataExtent_body l dim) init;
              let '(dimExtent, h) := alloc h mm in
              Some (dimExtent, h, setExtent l (<[dim := dimExtent]> (_extent l)))
          end
      end
  end.

(** ** getSum *)

Definition getSum_body (l : List) (dim : string) (i : nat) (sum : number)
    : option number :=
  value ← get l dim (Z.of_nat i);
  Some (if negb (isNaN (ToNumber value)) then add sum (ToNumber value) else sum).

Definition getSum (l : List) (dim : string) : option number :=
  match storageOf l dim with
  | None => Some zero
  | Some dimData => for_loop 0 (count l) (getSum_body l dim) zero
  end.

(** ** indexOfRawIndex *)

(** [x | 0] on an integer-valued number. *)
Definition toInt32 (z : Z) : Z := (z + 2 ^ 31) `mod` 2 ^ 32 - 2 ^ 31.

(** The [while (left <= right)] loop.  [fuel] bounds the number of rounds;
    [None] when it does not suffice. *)
Fixpoint indexOfRawIndex_search (fuel : nat) (indices : list nat) (rawIndex : Z)
    (left right : Z) : option Z :=
  if negb (left <=? right) then Some (-1)
  else
    match fuel with
    | O => None
    | S fuel' =>
        let mid := toInt32 ((left + right) `quot` 2) in
        match at_index indices mid with
        | Some v =>
            if Z.of_nat v <? rawIndex then
              indexOfRawIndex_search fuel' indices rawIndex (mid + 1) right
            else if rawIndex <? Z.of_nat v then
              indexOfRawIndex_search fuel' indices rawIndex left (mid - 1)
            else Some mid
        | None => Some mid
        end
    end.

Definition indexOfRawIndex (l : List) (rawIndex : Z) : option Z :=
  if (Z.of_nat (_rawCount l) <=? rawIndex) || (rawIndex <? 0) then Some (-1)
  else
    match _indices l with
    | None => Some rawIndex
    | Some indices =>
        let shortcut :=
          match at_index indices rawIndex with
          | Some rawDataIndex =>
              (Z.of_nat rawDataIndex <? Z.of_nat (_count l))
              && (Z.of_nat rawDataIndex =? rawIndex)
          | None => false
          end in
        if shortcut then Some rawIndex
        else indexOfRawIndex_search (S (_count l)) indices rawIndex
               0 (Z.of_nat (_count l) - 1)
    end.

(** ** Identity *)

Definition ID_PREFIX : string :=
  String "e"%char (String "000"%char (String "000"%char EmptyString)).

(** The array index a number denotes when used as a property key. *)
Definition arrayIndexOfNumber (x : number) : option nat :=
  match x with
  | S754_zero _ => Some 0%nat
  | S754_finite false m e =>
      if 0 <=? e then Some (Z.to_nat (Z.pos m * 2 ^ e))
      else if Z.pos m `mod` 2 ^ (- e) =? 0 then Some (Z.to_nat (Z.pos m `div` 2 ^ (- e)))
      else None
  | _ => None
  end.

(** [getRawValueFromStore]: the value of dimension number [dimIndex] at
    [rawIndex], decoded through the categories when the dimension has some;
    the inner [None] is [undefined]. *)
Definition getRawValueFromStore (l : List) (dimIndex : option nat) (rawIndex : Z)
    : option (option NameValue) :=
  match dimIndex with
  | None => Some None
  | Some dimIndex =>
      let chunkSize := _chunkSize l in
      let dim := propertyKey (dimensions l !! dimIndex) in
      dimStore ← storageOf l dim;
      let chunk :=
        if Nat.eqb chunkSize 0 then None
        else at_index dimStore (rawIndex `div` Z.of_nat chunkSize) in
      match chunk with
      | None => Some None
      | Some chunk =>
          let val := at_index chunk (rawIndex `rem` Z.of_nat chunkSize) in
          match property (_dimensionInfos l) dim with
          | Own dimInfo =>
              match ordinalMeta dimInfo with
              | Some categories =>
                  if Nat.eqb (length categories) 0 then Some (NumV <$> val)
                  else Some (Str <$> (v ← val; i ← arrayIndexOfNumber v; categories !! i))
              | None => Some (NumV <$> val)
              end
          | Inherited => Some (NumV <$> val)
          | Absent => None
          end
      end
  end.

(** The module-level [getId(list, rawIndex)]. *)
Definition getId_static (l : List) (rawIndex : Z) : option NameValue :=
  match (if rawIndex <? 0 then None else _idList l !! Z.to_nat rawIndex) with
  | Some id => Some id
  | None =>
      id ← getRawValueFromStore l (_idDimIdx l) rawIndex;
      Some (default (Str (ID_PREFIX +:+ pretty rawIndex)) id)
  end.

(** The method [getId(idx)]. *)
Definition getId (l : List) (idx : Z) : option NameValue :=
  rawIndex ← getRawIndex l idx;
  getId_static l rawIndex.

(** ** Identity of ingested rows *)

(** What the identity part of ingestion reads of a data item. *)
Record DataItem : Type := mkDataItem {
  item_name : option NameValue;
  item_id : option NameValue
}.

Section Ingestion.

(** The coercion of a number to a string is left to the host language. *)
Variable NumberToString : number → string.

(** The property key a name is used as, and the string it concatenates as. *)
Definition nameKey (name : NameValue) : string :=
  match name with Str s => s | NumV x => NumberToString x end.

(** The three lists the identity part works on. *)
Record Identity : Type := mkIdentity {
  nameList : gmap nat NameValue;
  idList : gmap nat NameValue;
  nameRepeatCount : gmap string RepeatCount
}.

(** [count || 0] on an entry of the counter: NaN gives 0, as 0 does. *)
Definition countOf (count : RepeatCount) : nat :=
  match count with Count n => n | CountNaN => 0%nat end.

(** The identity part of the body of the row loop of
    [_initDataFromProvider], for row [idx] with data item [dataItem].  The
    store [l] holds the values the first part of the body has written for
    the row; the name dimension is read there, by the steps
    [getRawValueFromStore] takes (chunk, value, categories).

    The counter is a plain object.  Where [nameRepeatCount[name]] is a
    number or undefined, [|| 0] makes it a count, [n], the id gets the
    suffix when [n > 0], and [++] stores [n + 1].  Where it is an
    inherited member, [|| 0] keeps the member, which is not above 0 (it
    compares as NaN): the id is the plain name, and [++] stores NaN; under
    [__proto__] the two assignments go to the accessor, which stores
    neither the prototype it is handed back nor NaN. *)
Definition initIdentity_row (l : List) (nameDimIdx : option nat)
    (getItem : nat → option DataItem) (idx : nat) (st : Identity)
    : option Identity :=
  let dataItem := getItem idx in
  '(name, nameList) ←
    match dataItem, nameList st !! idx with
    | Some item, None =>
        match item_name item with
        | Some name => Some (Some name, <[idx := name]> (nameList st))
        | None =>
            name ← getRawValueFromStore l nameDimIdx (Z.of_nat idx);
            Some (name, nameList st)
        end
    | _, name => Some (name, nameList st)
    end;
  match dataItem ≫= item_id, name with
  | None, Some name =>
      let counted (n : nat) :=
        let id :=
          if (0 <? n)%nat then Str (nameKey name +:+ "__ec__" +:+ pretty n)
          else name in
        Some {| nameList := nameList;
                idList := <[idx := id]> (idList st);
                nameRepeatCount := <[nameKey name := Count (S n)]> (nameRepeatCount st) |} in
      match property (nameRepeatCount st) (nameKey name) with
      | Own count => counted (countOf count)
      | Absent => counted 0%nat
      | Inherited =>
          Some {| nameList := nameList;
                  idList := <[idx := name]> (idList st);
                  nameRepeatCount :=
                    if decide (nameKey name = "__proto__"%string) then nameRepeatCount st
                    else <[nameKey name := CountNaN]> (nameRepeatCount st) |}
      end
  | Some id, _ =>
      Some {| nameList := nameList;
              idList := <[idx := id]> (idList st);
              nameRepeatCount := nameRepeatCount st |}
  | None, None =>
      Some {| nameList := nameList;
              idList := idList st;
              nameRepeatCount := nameRepeatCount st |}
  end.

(** The dimension loop of [_initDataFromProvider], as far as it sets the
    local [nameDimIdx]: the last dimension whose [otherDims.itemName] is 0.
    Reading [otherDims.itemName] throws when [dimensionInfoMap[dim]] is
    undefined, and when it is an inherited member, which has no
    [otherDims]. *)
Fixpoint findNameDimIdx (infos : gmap string DataDimensionInfo)
    (dims : list string) (i : nat) (nameDimIdx : option nat)
    : option (option nat) :=
  match dims with
  | [] => Some nameDimIdx
  | dim :: dims' =>
      match property infos dim with
      | Own dimInfo =>
          findNameDimIdx infos dims' (S i)
            (if decide (otherDims_itemName dimInfo = Some 0) then Some i
             else nameDimIdx)
      | _ => None
      end
  end.

(** [_initDataFromProvider start end_] restricted to the identity lists:
    nothing happens when [start >= end_]; otherwise the repeat counter
    starts empty, and a [pure] provider skips the identity part. *)
Definition initIdentity (l : List) (pure : bool)
    (getItem : nat → option DataItem) (start end_ : nat) : option Identity :=
  let st := {| nameList := _nameList l; idList := _idList l;
               nameRepeatCount := _nameRepeatCount l |} in
  if (end_ <=? start)%nat then Some st
  else
    let st := {| nameList := _nameList l; idList := _idList l;
                 nameRepeatCount := ∅ |} in
    nameDimIdx ← findNameDimIdx (_dimensionInfos l) (dimensions l) 0 None;
    if pure then Some st
    else for_loop start (end_ - start) (initIdentity_row l nameDimIdx getItem) st.

End Ingestion.

(** ** Notions used to state the properties *)

(** The raw positions of the logical rows, in logical order. *)
Definition rawPositions (l : List) : list nat :=
  match _indices l with
  | Some indices => take (_count l) indices
  | None => seq 0 (_count l)
  end.

(** What a filtering loop decides for row [i]: the raw position it would
    write and whether it keeps it.  [keptRows] collects the raw positions
    of the rows kept among [from, from + n). *)
Fixpoint keptRows (row : nat → option (Z * bool)) (from n : nat) : option (list Z) :=
  match n with
  | O => Some []
  | S n' =>
      '(r, keep) ← row from;
      rest ← keptRows row (S from) n';
      Some (if keep : bool then r :: rest else rest)
  end.

(** The rows a filter keeps: [keep i r] decides the row at logical position
    [i] and raw position [r]; the kept raw positions stay in order. *)
Fixpoint retainedFrom (keep : nat → nat → bool) (i : nat) (rs : list nat) : list nat :=
  match rs with
  | [] => []
  | r :: rs' =>
      if keep i r then r :: retainedFrom keep (S i) rs'
      else retainedFrom keep (S i) rs'
  end.

Definition retainedRows (keep : nat → nat → bool) (l : List) : list nat :=
  retainedFrom keep 0 (rawPositions l).

(** The index array, when there is one, covers the logical rows, and the
    [getRawIndex] property holds the function that goes with it. *)
Definition wf_view (l : List) : Prop :=
  match _indices l with
  | Some indices => rawIndexGetter l = WithIndices ∧ (_count l ≤ length indices)%nat
  | None => rawIndexGetter l = WithoutIndices
  end.

(** Every visible raw position is below [_rawCount], which a 32-bit index
    can hold. *)
Definition raw_in_range (l : List) : Prop :=
  Forall (λ r, (r < _rawCount l)%nat) (rawPositions l) ∧ Z.of_nat (_rawCount l) ≤ 2 ^ 32.

(** The decision of the [filterSelf] callback on the row at logical
    position [i] and raw position [r]. *)
Definition filterKeep (l : List) (dimNames : list string) (cb : FilterCb)
    (i r : nat) : bool :=
  match filterValues l dimNames (Z.of_nat r) with
  | Some value => cb value i
  | None => false
  end.

(** The decision of [selectRange] on one dimension for the row at raw
    position [r]. *)
Definition rangeKeep (l : List) (dim : string) (min max : number) (r : nat) : bool :=
  match _getFast l dim (Z.of_nat r) with
  | Some val => inRangeOrNaN min max val
  | None => false
  end.

(** The decision of the per-row loop over all the dimensions of [range]. *)
Definition rangeKeepN (l : List) (range : Range) (r : nat) : bool :=
  default false (selectRange_keep l range (Z.of_nat r) true).

(** The rows the chunk-wise loops reach: those below
    [_chunkCount * _chunkSize]. *)
Definition inChunks (l : List) (i : nat) : bool :=
  (i <? _chunkCount l * _chunkSize l)%nat.

(** The numbers of a list that are not NaN. *)
Definition dropNaN (xs : list number) : list number :=
  filter (λ x : number, isNaN x = false) xs.

(** The values [get] yields over the logical rows, in order. *)
Definition viewValues (l : List) (dim : string) : option (list value) :=
  mapM (λ i : nat, get l dim (Z.of_nat i)) (seq 0 (count l)).

(** Widening a [[min, max]] pair by one number. *)
Definition widen (mm : number * number) (x : number) : number * number :=
  (if lt x mm.1 then x else mm.1, if gt x mm.2 then x else mm.2).

(** The extent of a list of values: the scan from [[Infinity, -Infinity]]. *)
Definition scanExtent (vs : list value) : number * number :=
  foldl widen (Infinity, NegInfinity) (ToNumber <$> vs).

(** The stored values of the logical rows, read at their raw positions. *)
Definition viewRawValues (l : List) (dim : string) : option (list value) :=
  mapM (λ r : nat, _getFast l dim (Z.of_nat r)) (rawPositions l).

Section IdentityNotions.

Variable NumberToString : number → string.
Variables (l : List) (nameDimIdx : option nat) (getItem : nat → option DataItem).

(** The name ingestion derives for row [idx]: the entry of the name list,
    else the name of the data item, else the value of the name dimension. *)
Definition derivedName (idx : nat) : option (option NameValue) :=
  match getItem idx, _nameList l !! idx with
  | Some item, None =>
      match item_name item with
      | Some name => Some (Some name)
      | None => getRawValueFromStore l nameDimIdx (Z.of_nat idx)
      end
  | _, name => Some name
  end.

(** The key of the name of row [idx], when the row has no explicit id but
    a derived name. *)
Definition unnamedKey (idx : nat) : option string :=
  match getItem idx ≫= item_id, derivedName idx with
  | None, Some (Some name) => Some (nameKey NumberToString name)
  | _, _ => None
  end.

(** How many of the rows [start, start + n) have no explicit id and a
    derived name of key [key]. *)
Definition occurrences (key : string) (start n : nat) : nat :=
  length (filter (λ j, unnamedKey j = Some key) (seq start n)).

End IdentityNotions.

(** ** each *)

(** The values [each] hands to its callback at logical position [i]:
    [this.get(dimNames[k], i)] for every named dimension. *)
Definition eachValues (l : List) (dimNames : list string) (i : nat)
    : option (list value) :=
  mapM (λ dim : string, get l dim (Z.of_nat i)) dimNames.

(** ** An example store *)

(** The number an integer denotes. *)
Definition num (z : Z) : number := binary_normalize 53 1024 z 0 false.

(** Dimensions [x] and [y], rows [[1, 10]], [[2, NaN]], [[3, 30]], in chunks
    of two rows; the raw extent pairs are at addresses 0 and 1. *)
Definition exampleHeap : Heap :=
  {[ 0%nat := (num 1, num 3); 1%nat := (num 10, num 30) ]}.

Definition exampleList : List :=
  {| dimensions := ["x"; "y"]%string;
     _dimensionInfos :=
       {[ "x"%string := mkDimInfo "x" None None;
          "y"%string := mkDimInfo "y" None None ]};
     _indices := None;
     _count := 3;
     _rawCount := 3;
     _storage :=
       {[ "x"%string := [[num 1; num 2]; [num 3]];
          "y"%string := [[num 10; NaN]; [num 30]] ]};
     _nameList := ∅;
     _idList := ∅;
     _chunkSize := 2;
     _chunkCount := 2;
     _rawExtent := {[ "x"%string := 0%nat; "y"%string := 1%nat ]};
     _extent := ∅;
     _nameRepeatCount := ∅;
     _nameDimIdx := None;
     _idDimIdx := None;
     rawIndexGetter := WithoutIndices |}.

(** No string of the examples is number-like. *)
Definition exampleStringToNumber (s : string) : number := NaN.

(** A number-to-string coercion for the examples, which name rows by
    strings only. *)
Definition exampleNumberToString (x : number) : string := "NaN"%string.

(** A callback on one dimension that drops the rows whose value is 2. *)
Definition exampleCb : FilterCb :=
  λ value _, match value with
             | [v] => negb (SFeqb (ToNumber v) (num 2))
             | _ => false
             end.

(** A callback on two dimensions that keeps the rows whose second value
    is 10. *)
Definition exampleCb2 : FilterCb :=
  λ value _, match value with
             | [_; v] => SFeqb (ToNumber v) (num 10)
             | _ => false
             end.

(** [exampleList] after [exampleCb] on [x]: rows 0 and 2 remain. *)
Definition exampleFiltered : List :=
  installView exampleList 3 ([0; 2; 0]%nat, 2%nat).

(** Data items all named [a]; item 1 has the id [x], the others none. *)
Definition exampleItems (idx : nat) : option DataItem :=
  Some {| item_name := Some (Str "a");
          item_id := match idx with 1%nat => Some (Str "x") | _ => None end |}.

(** Data items all named [toString], none with an id. *)
Definition exampleInheritedName (idx : nat) : option DataItem :=
  Some {| item_name := Some (Str "toString"); item_id := None |}.

(** The store with the three identity lists put back. *)
Definition withIdentity (l : List) (st : Identity) : List :=
  {| dimensions := dimensions l;
     _dimensionInfos := _dimensionInfos l;
     _indices := _indices l;
     _count := _count l;
     _rawCount := _rawCount l;
     _storage := _storage l;
     _nameList := nameList st;
     _idList := idList st;
     _chunkSize := _chunkSize l;
     _chunkCount := _chunkCount l;
     _rawExtent := _rawExtent l;
     _extent := _extent l;
     _nameRepeatCount := nameRepeatCount st;
     _nameDimIdx := _nameDimIdx l;
     _idDimIdx := _idDimIdx l;
     rawIndexGetter := rawIndexGetter l |}.

(** ** getIndices *)

(** [getIndices]: with an index array, a typed array over the first
    [_count] slots of its buffer (a [RangeError], here [None], when the
    buffer is shorter); without one, a new typed array holding [0, 1, ...].
    The result is given by its contents. *)
Definition getIndices (l : List) : option (list nat) :=
  match _indices l with
  | Some indices =>
      let thisCount := _count l in
      if (thisCount <=? length indices)%nat then Some (take thisCount indices)
      else None
  | None =>
      let Ctor := getIndicesCtor l in
      Some ((λ i : nat, storedIndex Ctor (Z.of_nat i)) <$> seq 0 (count l))
  end.

(** ** Sequences of filtering calls *)

(** A call of one of the two filtering methods, with its arguments. *)
Inductive FilterCall : Type :=
| CallFilterSelf (dims : list DimensionLoose) (cb : FilterCb)
| CallSelectRange (range : Range).

Definition runFilterCall (StringToNumber : string → number) (c : FilterCall)
    (l : List) : option List :=
  match c with
  | CallFilterSelf dims cb => filterSelf StringToNumber dims cb l
  | CallSelectRange range => selectRange range l
  end.

(** The calls made one after the other on the same store. *)
Fixpoint runFilterCalls (StringToNumber : string → number) (cs : list FilterCall)
    (l : List) : option List :=
  match cs with
  | [] => Some l
  | c :: cs' => l' ← runFilterCall StringToNumber c l; runFilterCalls StringToNumber cs' l'
  end.

(** A callback on one dimension that keeps the rows whose value is below
    20. *)
Definition exampleCbSmall : FilterCb :=
  λ value _, match value with
             | [v] => lt (ToNumber v) (num 20)
             | _ => false
             end.

(** The decision of [selectRange] on the row at raw position [r] when each
    dimension of [range] is tested for a value within its bounds or NaN. *)
Definition rangeKeepAll (l : List) (range : Range) (r : nat) : bool :=
  forallb (λ e : string * (number * number), rangeKeep l e.1 e.2.1 e.2.2 r) range.

(** ** Names *)

(** Whether a name is truthy: a string that is not empty, a number that is
    neither zero nor NaN. *)
Definition truthy (v : NameValue) : bool :=
  match v with
  | Str s => negb (bool_decide (s = ""%string))
  | NumV (S754_zero _) => false
  | NumV S754_nan => false
  | NumV _ => true
  end.

(** The tail [getRawValueFromStore(...) || ''] of [getName]. *)
Definition getName_stored (l : List) (rawIndex : Z) : option NameValue :=
  stored ← getRawValueFromStore l (_nameDimIdx l) rawIndex;
  Some (match stored with
        | Some name => if truthy name then name else Str ""
        | None => Str ""
        end).

(** [getName]: the entry of the name list, else the value of the name
    dimension, else the empty string; the store is read only when the
    name list has no truthy entry. *)
Definition getName (l : List) (idx : Z) : option NameValue :=
  rawIndex ← getRawIndex l idx;
  match (if rawIndex <? 0 then None else _nameList l !! Z.to_nat rawIndex) with
  | Some name => if truthy name then Some name else getName_stored l rawIndex
  | None => getName_stored l rawIndex
  end.

(** The loop of [indexOfName] from logical position [i], [n] rounds left:
    it returns at the first position whose name is strictly equal to
    [name]. *)
Fixpoint indexOfName_loop (l : List) (name : string) (i n : nat) : option Z :=
  match n with
  | O => Some (-1)
  | S n' =>
      nm ← getName l (Z.of_nat i);
      if decide (nm = Str name) then Some (Z.of_nat i)
      else indexOfName_loop l name (S i) n'
  end.

Definition indexOfName (l : List) (name : string) : option Z :=
  indexOfName_loop l name 0 (count l).

(** ** Inverted indices *)

Definition INDEX_NOT_FOUND : Z := -1.

(** The inverted indices map a dimension to an array of integers (an
    [Int32Array] once prepared), which the store keeps next to its other
    fields. *)
Abbreviation InvertedIndicesMap := (gmap string (list Z)) (only parsing).

(** [invertedIndices[list.get(dim, i)] = i]: a write to a typed array at a
    key that is not one of its indices does nothing. *)
Definition prepareInvertedIndex_body (l : List) (dim : string) (i : nat)
    (invertedIndices : list Z) : option (list Z) :=
  v ← get l dim (Z.of_nat i);
  Some (match v with
        | Num x =>
            match arrayIndexOfNumber x with
            | Some p => <[p := toInt32 (Z.of_nat i)]> invertedIndices
            | None => invertedIndices
            end
        | Undefined => invertedIndices
        end).

(** What [prepareInvertedIndex] does for one entry of the map. *)
Definition prepareInvertedIndex_dim (l : List) (dim : string)
    (invertedIndices : list Z) : option (list Z) :=
  match property (_dimensionInfos l) dim with
  | Own dimInfo =>
      match ordinalMeta dimInfo with
      | Some categories =>
          for_loop 0 (_count l) (prepareInvertedIndex_body l dim)
            (replicate (length categories) INDEX_NOT_FOUND)
      | None => Some invertedIndices
      end
  | Inherited => Some invertedIndices
  | Absent => None
  end.

(** [prepareInvertedIndex]: every entry of the map is visited; the call
    throws when the visit of some entry does. *)
Definition prepareInvertedIndex (l : List) (m : InvertedIndicesMap)
    : option InvertedIndicesMap :=
  if decide (map_Forall (λ dim inv, is_Some (prepareInvertedIndex_dim l dim inv)) m)
  then Some (map_imap (prepareInvertedIndex_dim l) m)
  else None.

(** [rawIndexOf].  An empty [dim] is falsy: the development build throws,
    the production build goes on to read an index of the empty string.  An
    inherited member is truthy and has no element at [value]. *)
Definition rawIndexOf (dev : bool) (m : InvertedIndicesMap) (dim : string)
    (value : number) : option Z :=
  if decide (dim = ""%string) then (if dev then None else Some INDEX_NOT_FOUND)
  else
    match property m dim with
    | Own invertedIndices =>
        Some (default INDEX_NOT_FOUND (arrayIndexOfNumber value ≫= (invertedIndices !!.)))
    | Inherited => Some INDEX_NOT_FOUND
    | Absent => None
    end.

(** The category index the value of the logical row [i] denotes, when it
    denotes one. *)
Definition ordinalOf (l : List) (dim : string) (i : nat) : option nat :=
  match get l dim (Z.of_nat i) with
  | Some (Num x) => arrayIndexOfNumber x
  | _ => None
  end.

(** A store with one ordinal dimension [c] of three categories, rows of
    category 2 and 0, and the inverted index its constructor sets up. *)
Definition exampleOrdinal : List :=
  {| dimensions := ["c"]%string;
     _dimensionInfos :=
       {[ "c"%string := mkDimInfo "c" (Some ["p"; "q"; "r"]%string) None ]};
     _indices := None;
     _count := 2;
     _rawCount := 2;
     _storage := {[ "c"%string := [[num 2; num 0]] ]};
     _nameList := ∅;
     _idList := ∅;
     _chunkSize := 2;
     _chunkCount := 1;
     _rawExtent := ∅;
     _extent := ∅;
     _nameRepeatCount := ∅;
     _nameDimIdx := None;
     _idDimIdx := None;
     rawIndexGetter := WithoutIndices |}.

Definition exampleInvertedIndices : InvertedIndicesMap := {[ "c"%string := [] ]}.

(** ** Approximate extents *)

(** [getDimension] before its result is used as a property key: [None] is
    [undefined], which a lookup past the end of [dimensions] yields. *)
Definition getDimensionName (StringToNumber : string → number) (l : List)
    (dim : DimensionLoose) : option string :=
  match dim with
  | DimIndex i => at_index (dimensions l) i
  | DimName name =>
      if negb (isNaN (StringToNumber name))
         && negb (bool_decide (is_Some (_dimensionInfos l !! name)))
      then i ← arrayIndexOfKey name; dimensions l !! i
      else Some name
  end.

(** [getDataExtent] called with [undefined]: [getDimension] hands it back,
    and the rest of the method runs on the key it is then used as. *)
Definition getDataExtent_undefined (h : Heap) (l : List) : option (nat * Heap * List) :=
  let dim := propertyKey None in
  let '(initialExtent, h) := getInitialExtent h in
  match storageOf l dim with
  | None => Some (initialExtent, h, l)
  | Some dimData =>
      let currEnd := count l in
      match _indices l with
      | None =>
          match property (_rawExtent l) dim with
          | Own rawExtent =>
              '(r, h) ← slice h rawExtent;
              Some (r, h, l)
          | _ => None
          end
      | Some _ =>
          match property (_extent l) dim with
          | Own dimExtent =>
              '(r, h) ← slice h dimExtent;
              Some (r, h, l)
          | Inherited => None
          | Absent =>
              init ← h !! initialExtent;
              mm ← for_loop 0 currEnd (getDataExtent_body l dim) init;
              let '(dimExtent, h) := alloc h mm in
              Some (dimExtent, h, setExtent l (<[dim := dimExtent]> (_extent l)))
          end
      end
  end.

(** What [getApproximateExtent] returns: a pair, or the member of
    [Object.prototype] the read of [_approximateExtent] finds. *)
Inductive ApproximateExtent : Type :=
| ExtentPair (r : nat)
| ExtentMember (key : string).

(** The approximate extents map a dimension to the address of its pair;
    the store keeps them, in a plain object, next to its other fields.
    [getApproximateExtent] returns what the read
    [this._approximateExtent[dim]] finds when that is truthy, as a pair
    and an inherited member are, else what [getDataExtent] returns for the
    concrete dimension. *)
Definition getApproximateExtent (StringToNumber : string → number) (h : Heap)
    (_approximateExtent : gmap string nat) (l : List) (dim : DimensionLoose)
    : option (ApproximateExtent * Heap * List) :=
  let dim := getDimensionName StringToNumber l dim in
  match property _approximateExtent (propertyKey dim) with
  | Own extent => Some (ExtentPair extent, h, l)
  | Inherited => Some (ExtentMember (propertyKey dim), h, l)
  | Absent =>
      '(r, h, l) ←
        match dim with
        | Some name => getDataExtent StringToNumber h l (DimName name)
        | None => getDataExtent_undefined h l
        end;
      Some (ExtentPair r, h, l)
  end.

(** An assignment [obj[key] = val] stores the own property [key] of a
    plain object, for every key but [__proto__], under which it reaches
    the accessor of [Object.prototype] instead.  The assignments below are
    modelled for the keys that are stored. *)
Definition stored_key (key : string) : Prop := key ≠ "__proto__"%string.

(** [setApproximateExtent]: the heap and the map after the call, for a
    dimension whose name is a [stored_key]. *)
Definition setApproximateExtent (StringToNumber : string → number) (h : Heap)
    (_approximateExtent : gmap string nat) (l : List) (extent : nat)
    (dim : DimensionLoose) : option (Heap * gmap string nat) :=
  let dim := getDimension StringToNumber l dim in
  '(r, h) ← slice h extent;
  Some (h, <[dim := r]> _approximateExtent).

(** ** Visual properties *)

(** A visual value is anything; the store only asks whether it is [null]
    or [undefined].  [VMember key] is the member [key] of
    [Object.prototype], which a read finds where a visual object has no
    own property [key]. *)
Inductive Visual (V : Type) : Type :=
| VUndefined
| VNull
| VVal (v : V)
| VMember (key : string).

Arguments VUndefined {V}.
Arguments VNull {V}.
Arguments VVal {V} v.
Arguments VMember {V} key.

(** [val == null]. *)
Definition nullish {V : Type} (val : Visual V) : bool :=
  match val with VUndefined | VNull => true | _ => false end.

(** [obj[key]] on a visual object. *)
Definition readVisual {V : Type} (obj : gmap string (Visual V)) (key : string)
    : Visual V :=
  match property obj key with
  | Own val => val
  | Inherited => VMember key
  | Absent => VUndefined
  end.

(** The visual fields of the store: the visual of the whole list, the
    visuals of the items (an array of objects, indexed by any integer) and
    the keys some item has a visual for. *)
Record Visuals (V : Type) : Type := mkVisuals {
  _visual : gmap string (Visual V);
  _itemVisuals : gmap Z (gmap string (Visual V));
  hasItemVisual : gmap string bool
}.

Arguments mkVisuals {V}.
Arguments _visual {V}.
Arguments _itemVisuals {V}.
Arguments hasItemVisual {V}.

Definition getVisual {V : Type} (s : Visuals V) (key : string) : Visual V :=
  readVisual (_visual s) key.

(** [setVisual(key, val)] with a string key that is a [stored_key]. *)
Definition setVisual {V : Type} (s : Visuals V) (key : string) (val : Visual V)
    : Visuals V :=
  {| _visual := <[key := val]> (_visual s);
     _itemVisuals := _itemVisuals s;
     hasItemVisual := hasItemVisual s |}.

(** The object forms of the setters visit the own keys of the object they
    are given and test each with [key.hasOwnProperty(name)], the method
    every object inherits unless the object has an own property of that
    name.  They are modelled for objects whose keys are stored keys other
    than [hasOwnProperty]. *)
Definition visited_key (key : string) : Prop :=
  stored_key key ∧ key ≠ "hasOwnProperty"%string.

(** [setVisual(kvObj)]: one call per own key of the object, in order. *)
Definition setVisual_object {V : Type} (s : Visuals V)
    (kvObj : list (string * Visual V)) : Visuals V :=
  foldl (λ s kv, setVisual s kv.1 kv.2) s kvObj.

Definition getItemVisual {V : Type} (s : Visuals V) (idx : Z) (key : string)
    (ignoreParent : bool) : Visual V :=
  let val :=
    match _itemVisuals s !! idx with
    | Some itemVisual => readVisual itemVisual key
    | None => VUndefined
    end in
  if nullish val && negb ignoreParent then getVisual s key else val.

(** [setItemVisual(idx, key, value)] with a string key that is a
    [stored_key]. *)
Definition setItemVisual {V : Type} (s : Visuals V) (idx : Z) (key : string)
    (value : Visual V) : Visuals V :=
  let itemVisual := default ∅ (_itemVisuals s !! idx) in
  {| _visual := _visual s;
     _itemVisuals := <[idx := <[key := value]> itemVisual]> (_itemVisuals s);
     hasItemVisual := <[key := true]> (hasItemVisual s) |}.

(** [setItemVisual(idx, kvObject)], the keys of the object being
    [visited_key]s. *)
Definition setItemVisual_object {V : Type} (s : Visuals V) (idx : Z)
    (kvObject : list (string * Visual V)) : Visuals V :=
  let itemVisual := default ∅ (_itemVisuals s !! idx) in
  {| _visual := _visual s;
     _itemVisuals :=
       <[idx := foldl (λ iv kv, <[kv.1 := kv.2]> iv) itemVisual kvObject]>
         (_itemVisuals s);
     hasItemVisual :=
       foldl (λ hv kv, <[kv.1 := true]> hv) (hasItemVisual s) kvObject |}.

Definition clearAllVisual {V : Type} (s : Visuals V) : Visuals V :=
  {| _visual := ∅; _itemVisuals := ∅; hasItemVisual := ∅ |}.

(** ** The order of numbers *)

(** A key for the order [SFcompare] puts on the numbers other than NaN:
    sign class first, then exponent, then mantissa. *)
Definition floatKey (x : number) : Z * Z * Z :=
  match x with
  | S754_nan => (0, 0, 0)
  | S754_zero _ => (0, 0, 0)
  | S754_infinity true => (-2, 0, 0)
  | S754_infinity false => (2, 0, 0)
  | S754_finite true m e => (-1, - e, - Z.pos m)
  | S754_finite false m e => (1, e, Z.pos m)
  end.

Definition keyCompare (k1 k2 : Z * Z * Z) : comparison :=
  match k1.1.1 ?= k2.1.1 with
  | Eq => match k1.1.2 ?= k2.1.2 with
          | Eq => k1.2 ?= k2.2
          | c => c
          end
  | c => c
  end.

(** ** indicesOfNearest *)

(** [x - y] and [Math.abs(x)]. *)
Definition sub (x y : number) : number := SFsub 53 1024 x y.
Definition abs (x : number) : number := SFabs x.

(** [x === y] on numbers. *)
Definition strictEq (x y : number) : bool := SFeqb x y.

(** The state of the loop of [indicesOfNearest]. *)
Record NearestState : Type := mkNearestState {
  minDist : number;
  minDiff : number;
  nearestIndices : list nat;
  nearestIndicesLen : nat
}.

(** [a[n] = x] on an array written at most one slot past its end. *)
Definition arraySet (a : list nat) (n : nat) (x : nat) : list nat :=
  take n a ++ x :: drop (S n) a.

Definition indicesOfNearest_body (l : List) (dim : string) (value : number)
    (maxDistance : number) (i : nat) (s : NearestState) : option NearestState :=
  v ← get l dim (Z.of_nat i);
  let diff := sub value (ToNumber v) in
  let dist := abs diff in
  if le dist maxDistance then
    let s1 :=
      if lt dist (minDist s)
         || (strictEq dist (minDist s) && ge diff zero && lt (minDiff s) zero)
      then {| minDist := dist; minDiff := diff;
              nearestIndices := nearestIndices s; nearestIndicesLen := 0 |}
      else s in
    Some (if strictEq diff (minDiff s1)
          then {| minDist := minDist s1; minDiff := minDiff s1;
                  nearestIndices := arraySet (nearestIndices s1) (nearestIndicesLen s1) i;
                  nearestIndicesLen := S (nearestIndicesLen s1) |}
          else s1)
  else Some s.

(** [indicesOfNearest(dim, value, maxDistance)]; a [maxDistance] that is
    not given is [Infinity]. *)
Definition indicesOfNearest (l : List) (dim : string) (value : number)
    (maxDistance : option number) : option (list nat) :=
  match storageOf l dim with
  | None => Some []
  | Some dimData =>
      let maxDistance := default Infinity maxDistance in
      s ← for_loop 0 (count l) (indicesOfNearest_body l dim value maxDistance)
            {| minDist := Infinity; minDiff := num (-1);
               nearestIndices := []; nearestIndicesLen := 0 |};
      Some (take (nearestIndicesLen s) (nearestIndices s))
  end.

(** The signed difference [indicesOfNearest] computes at the logical row
    [i]. *)
Definition diffOf (l : List) (dim : string) (value : number) (i : nat)
    : option number :=
  v ← get l dim (Z.of_nat i); Some (sub value (ToNumber v)).

(** What the loop of [indicesOfNearest] keeps true after the rows below
    [i]. *)
Record NearestInv (l : List) (dim : string) (value maxDistance : number)
    (i : nat) (s : NearestState) : Prop := mkNearestInv {
  inv_minDist : isNaN (minDist s) = false;
  inv_least : ∀ j d, (j < i)%nat → diffOf l dim value j = Some d →
    le (abs d) maxDistance = true → le (minDist s) (abs d) = true;
  inv_minDiff : ∀ d, strictEq d (minDiff s) = true →
    strictEq (abs d) (minDist s) = true ∨ lt (abs d) (minDist s) = true;
  inv_len : (nearestIndicesLen s ≤ length (nearestIndices s))%nat;
  inv_sorted : StronglySorted Nat.lt (take (nearestIndicesLen s) (nearestIndices s));
  inv_found : ∀ k, k ∈ take (nearestIndicesLen s) (nearestIndices s) →
    (k < i)%nat
    ∧ ∃ d, diffOf l dim value k = Some d
        ∧ le (abs d) maxDistance = true
        ∧ strictEq d (minDiff s) = true
        ∧ strictEq (abs d) (minDist s) = true;
  inv_none : nearestIndicesLen s = 0%nat → minDist s = Infinity
}.

(** Two stores hold the same rows: they agree on everything but the view
    (the index array, the count, the view extent cache and the function
    [getRawIndex] holds). *)
Definition same_rows (l l' : List) : Prop :=
  dimensions l' = dimensions l
  ∧ _dimensionInfos l' = _dimensionInfos l
  ∧ _rawCount l' = _rawCount l
  ∧ _storage l' = _storage l
  ∧ _nameList l' = _nameList l
  ∧ _idList l' = _idList l
  ∧ _chunkSize l' = _chunkSize l
  ∧ _chunkCount l' = _chunkCount l
  ∧ _rawExtent l' = _rawExtent l
  ∧ _nameDimIdx l' = _nameDimIdx l
  ∧ _idDimIdx l' = _idDimIdx l.

(** ** Sequences of calls on a view *)

(** A filtering call, or a [getDataExtent] call whose result the caller
    only reads. *)
Inductive StoreCall : Type :=
| CallFilter (c : FilterCall)
| CallGetDataExtent (dim : DimensionLoose).

Fixpoint runStoreCalls (StringToNumber : string → number) (cs : list StoreCall)
    (h : Heap) (l : List) : option (Heap * List) :=
  match cs with
  | [] => Some (h, l)
  | CallFilter c :: cs' =>
      l' ← runFilterCall StringToNumber c l;
      runStoreCalls StringToNumber cs' h l'
  | CallGetDataExtent dim :: cs' =>
      '(_, h', l') ← getDataExtent StringToNumber h l dim;
      runStoreCalls StringToNumber cs' h' l'
  end.

(** Every cached view extent is the extent of the rows now in view. *)
Definition cache_coherent (h : Heap) (l : List) : Prop :=
  ∀ dim r, _extent l !! dim = Some r →
    ∃ vs, viewRawValues l dim = Some vs ∧ h !! r = Some (scanExtent vs).

(* ================================================================== *)
(** * Properties *)

(** ** Reads of plain objects *)

Lemma property_Own {A : Type} (obj : gmap string A) (key : string) (a : A) :
  property obj key = Own a ↔ obj !! key = Some a.
Proof.
  unfold property. destruct (obj !! key); [|by case_bool_decide].
  split; congruence.
Qed.

Lemma property_Inherited {A : Type} (obj : gmap string A) (key : string) :
  property obj key = Inherited ↔ obj !! key = None ∧ key ∈ Object_prototype.
Proof.
  unfold property. destruct (obj !! key); [by split; [|intros []]|].
  case_bool_decide; by split; [|intros []].
Qed.

Lemma property_Absent {A : Type} (obj : gmap string A) (key : string) :
  property obj key = Absent ↔ obj !! key = None ∧ key ∉ Object_prototype.
Proof.
  unfold property. destruct (obj !! key); [by split; [|intros []]|].
  case_bool_decide; by split; [|intros []].
Qed.

Lemma not_inherited (key : string) :
  bool_decide (key ∈ Object_prototype) = false → key ∉ Object_prototype.
Proof. apply bool_decide_eq_false_1. Qed.

Lemma is_inherited (key : string) :
  bool_decide (key ∈ Object_prototype) = true → key ∈ Object_prototype.
Proof. apply bool_decide_eq_true_1. Qed.

Lemma property_empty {A : Type} (key : string) :
  key ∉ Object_prototype → property (∅ : gmap string A) key = Absent.
Proof. intros Hk. by apply property_Absent. Qed.

Lemma storageOf_stored (l : List) (dim : string) dimStore :
  _storage l !! dim = Some dimStore → storageOf l dim = Some dimStore.
Proof. intros H. unfold storageOf. by apply property_Own in H as ->. Qed.

Lemma storageOf_is_Some (l : List) (dim : string) :
  is_Some (_storage l !! dim) → is_Some (storageOf l dim).
Proof. intros [d Hd]. exists d. by apply storageOf_stored. Qed.

Lemma storageOf_None (l : List) (dim : string) :
  storageOf l dim = None ↔ _storage l !! dim = None ∧ dim ∉ Object_prototype.
Proof.
  rewrite <- property_Absent. unfold storageOf.
  by destruct (property (_storage l) dim).
Qed.

Lemma storageOf_inherited (l : List) (dim : string) :
  _storage l !! dim = None → dim ∈ Object_prototype → storageOf l dim = Some [].
Proof.
  intros H1 H2. unfold storageOf.
  by rewrite (proj2 (property_Inherited (_storage l) dim) (conj H1 H2)).
Qed.

Lemma storageOf_same (l l' : List) (dim : string) :
  _storage l' = _storage l → storageOf l' dim = storageOf l dim.
Proof. intros H. unfold storageOf. by rewrite H. Qed.

Lemma readChunked_nil (chunkSize : nat) (rawIdx : Z) :
  readChunked chunkSize [] rawIdx = None.
Proof.
  unfold readChunked, at_index. destruct (Nat.eqb chunkSize 0); [done|].
  cbv zeta. by destruct (_ `div` _ <? 0).
Qed.

(** A chunk read throws alike when [storage[dim]] is undefined and when it
    is an inherited member: [_getFast] depends on the own property only. *)
Lemma _getFast_stored (l : List) (dim : string) (rawIdx : Z) :
  _getFast l dim rawIdx =
  (dimStore ← _storage l !! dim; readChunked (_chunkSize l) dimStore rawIdx).
Proof.
  unfold _getFast, storageOf, property.
  destruct (_storage l !! dim); [done|].
  case_bool_decide; [|done]. simpl. apply readChunked_nil.
Qed.

Lemma _getFast_ext (l l' : List) (dim : string) (rawIdx : Z) :
  _storage l' = _storage l → _chunkSize l' = _chunkSize l →
  _getFast l' dim rawIdx = _getFast l dim rawIdx.
Proof. intros Hs Hc. unfold _getFast, storageOf. by rewrite Hs, Hc. Qed.

(** With an index inside the view, [get] on an inherited member throws. *)
Lemma get_inherited (l : List) (dim : string) (idx : Z) :
  _storage l !! dim = None → dim ∈ Object_prototype →
  0 ≤ idx < Z.of_nat (_count l) → get l dim idx = None.
Proof.
  intros Hs Hp Hidx. unfold get. rewrite (storageOf_inherited l dim Hs Hp).
  destruct (negb _) eqn:E.
  { apply negb_true_iff, andb_false_iff in E. lia. }
  destruct (getRawIndex l idx); [|done]. apply readChunked_nil.
Qed.

(** ** Out-of-range access *)

(** C5: [get] and [getByRawIndex] return NaN when the index is outside the
    valid range, and when the read [storage[dim]] finds nothing.  For a
    dimension the store does not hold but whose name every object inherits
    a member for, as [toString], the guard [!storage[dim]] lets the call
    through: with an index inside the range it throws, on the chunk read,
    where the specification has it return NaN. *)
Theorem get_absent_dimension (l : List) (dim : string) (idx rawIdx : Z) :
  (idx < 0 ∨ Z.of_nat (count l) ≤ idx → get l dim idx = Some (Num NaN))
  ∧ (rawIdx < 0 ∨ Z.of_nat (_rawCount l) ≤ rawIdx →
     getByRawIndex l dim rawIdx = Some (Num NaN))
  ∧ (_storage l !! dim = None → dim ∉ Object_prototype →
     get l dim idx = Some (Num NaN) ∧ getByRawIndex l dim rawIdx = Some (Num NaN))
  ∧ (_storage l !! dim = None → dim ∈ Object_prototype →
     (0 ≤ idx < Z.of_nat (count l) → get l dim idx = None)
     ∧ (0 ≤ rawIdx < Z.of_nat (_rawCount l) → getByRawIndex l dim rawIdx = None)).
Proof.
  unfold getByRawIndex, count. split_and!.
  - intros Hidx. unfold get. destruct (negb _) eqn:E; [done|].
    apply negb_false_iff, andb_true_iff in E as [E1 E2]. lia.
  - intros Hraw. destruct (negb _) eqn:E; [done|].
    apply negb_false_iff, andb_true_iff in E as [E1 E2]. lia.
  - intros Hs Hp. unfold get. rewrite (proj2 (storageOf_None l dim) (conj Hs Hp)).
    split; by destruct (negb _).
  - intros Hs Hp. split.
    + intros Hidx. by apply get_inherited.
    + intros Hraw. rewrite (storageOf_inherited l dim Hs Hp).
      destruct (negb _) eqn:E.
      { apply negb_true_iff, andb_false_iff in E. lia. }
      apply readChunked_nil.
Qed.

(** ** Loops *)

Section ForLoop.
Context {S : Type}.
Implicit Types (body : nat → S → option S) (s : S).

Lemma for_loop_ext body1 body2 from n s :
  (∀ i s', (from ≤ i < from + n)%nat → body1 i s' = body2 i s') →
  for_loop from n body1 s = for_loop from n body2 s.
Proof.
  revert from s. induction n as [|n IH]; intros from s Hext; [done|].
  simpl. rewrite Hext by lia. destruct (body2 from s) as [s'|]; [|done].
  simpl. apply IH. intros i s'' Hi. apply Hext. lia.
Qed.

Lemma for_loop_add body from n m s :
  for_loop from (n + m) body s =
  for_loop from n body s ≫= for_loop (from + n) m body.
Proof.
  revert from s. induction n as [|n IH]; intros from s; simpl.
  - by rewrite Nat.add_0_r.
  - destruct (body from s) as [s'|]; [|done]. simpl.
    rewrite IH. by replace (Datatypes.S from + n)%nat with (from + Datatypes.S n)%nat by lia.
Qed.

Lemma for_loop_snoc body from n s :
  for_loop from (Datatypes.S n) body s =
  for_loop from n body s ≫= body (from + n)%nat.
Proof.
  replace (Datatypes.S n) with (n + 1)%nat by lia. rewrite for_loop_add.
  destruct (for_loop from n body s) as [s'|]; [|done]. simpl.
  by destruct (body (from + n)%nat s').
Qed.

End ForLoop.

(** ** Filtering loops *)

Lemma filter_loop_spec (Ctor : IndicesCtor) (row : nat → option (Z * bool))
    (body : nat → IndexWriter → option IndexWriter) (from n : nat) (w : IndexWriter) :
  (∀ i w', (from ≤ i < from + n)%nat →
     body i w' = '(r, keep) ← row i;
                 Some (if keep : bool then pushIndex Ctor w' r else w')) →
  for_loop from n body w =
  kept ← keptRows row from n; Some (foldl (pushIndex Ctor) w kept).
Proof.
  revert from w. induction n as [|n IH]; intros from w Hbody; [done|].
  simpl. rewrite Hbody by lia.
  destruct (row from) as [[r k]|]; [|done]. simpl.
  rewrite IH by (intros; apply Hbody; lia).
  destruct (keptRows row (S from) n) as [rest|]; [|done]. simpl.
  by destruct k.
Qed.

Lemma keptRows_length row from n kept :
  keptRows row from n = Some kept → (length kept ≤ n)%nat.
Proof.
  revert from kept. induction n as [|n IH]; intros from kept; simpl.
  - intros [= <-]. simpl. lia.
  - destruct (row from) as [[r k]|]; [|done]. simpl.
    destruct (keptRows row (S from) n) as [rest|] eqn:E; [|done]. simpl.
    intros [= <-]. apply IH in E. destruct k; simpl; lia.
Qed.

Lemma keptRows_is_Some row from n :
  (∀ i, (from ≤ i < from + n)%nat → is_Some (row i)) →
  is_Some (keptRows row from n).
Proof.
  revert from. induction n as [|n IH]; intros from Hrow; simpl; [by eexists|].
  destruct (Hrow from) as [[r k] ->]; [lia|]. simpl.
  destruct (IH (S from)) as [rest ->]; [intros; apply Hrow; lia|]. by eexists.
Qed.

Lemma keptRows_retained row keep rs from kept :
  (∀ i r p, rs !! i = Some r → row (from + i)%nat = Some p →
     p = (Z.of_nat r, keep (from + i)%nat r)) →
  keptRows row from (length rs) = Some kept →
  kept = Z.of_nat <$> retainedFrom keep from rs.
Proof.
  revert from kept. induction rs as [|r rs IH]; intros from kept Hrow; simpl.
  - by intros [= <-].
  - destruct (row from) as [[r' k]|] eqn:E; [|done]. simpl.
    destruct (keptRows row (S from) (length rs)) as [rest|] eqn:E'; [|done]. simpl.
    intros [= <-].
    pose proof (Hrow 0%nat r (r', k) eq_refl) as H0. rewrite Nat.add_0_r in H0.
    specialize (H0 E) as [= -> ->].
    apply IH in E'.
    + subst rest. by destruct (keep from r).
    + intros i r0 p Hi Hp. replace (S from + i)%nat with (from + S i)%nat in * by lia.
      by apply (Hrow (S i)).
Qed.

Lemma retainedFrom_sublist keep i rs : sublist (retainedFrom keep i rs) rs.
Proof.
  revert i. induction rs as [|r rs IH]; intros i; simpl; [constructor|].
  destruct (keep i r); [apply sublist_skip | apply sublist_cons]; apply IH.
Qed.

Lemma retainedFrom_length keep i rs :
  (length (retainedFrom keep i rs) ≤ length rs)%nat.
Proof. apply sublist_length, retainedFrom_sublist. Qed.

Lemma retainedFrom_all keep i rs :
  length (retainedFrom keep i rs) = length rs → retainedFrom keep i rs = rs.
Proof.
  revert i. induction rs as [|r rs IH]; intros i; simpl; [done|].
  destruct (keep i r); simpl.
  - intros [= H]. f_equal. by apply IH.
  - pose proof (retainedFrom_length keep (S i) rs). lia.
Qed.

Lemma retainedFrom_Forall (P : nat → Prop) keep i rs :
  Forall P rs → Forall P (retainedFrom keep i rs).
Proof.
  intros H. revert i. induction H as [|r rs Hr Hrs IH]; intros i; simpl; [constructor|].
  destruct (keep i r); [constructor|]; auto.
Qed.

Lemma retainedFrom_sorted keep i rs :
  StronglySorted Nat.lt rs → StronglySorted Nat.lt (retainedFrom keep i rs).
Proof.
  intros H. revert i. induction H as [|r rs Hrs IH Hr]; intros i; simpl; [constructor|].
  destruct (keep i r); [|apply IH].
  constructor; [apply IH|]. by apply retainedFrom_Forall.
Qed.

Lemma seq_sorted from n : StronglySorted Nat.lt (seq from n).
Proof.
  revert from. induction n as [|n IH]; intros from; simpl; constructor; [apply IH|].
  apply Forall_forall. intros x Hx%list_elem_of_In%in_seq. lia.
Qed.

(** *** Writing the kept rows into the index array *)

Lemma foldl_pushIndex Ctor kept arr off :
  (off + length kept ≤ length arr)%nat →
  ∃ arr', foldl (pushIndex Ctor) (arr, off) kept = (arr', (off + length kept)%nat)
    ∧ length arr' = length arr
    ∧ take (off + length kept) arr' = take off arr ++ (storedIndex Ctor <$> kept).
Proof.
  revert arr off. induction kept as [|r kept IH]; intros arr off Hlen; simpl in *.
  - exists arr. rewrite Nat.add_0_r, app_nil_r. done.
  - unfold pushIndex at 2. simpl.
    destruct (IH (<[off := storedIndex Ctor r]> arr) (S off)) as (arr' & -> & Hl & Ht).
    { rewrite length_insert. lia. }
    exists arr'. rewrite length_insert in Hl.
    replace (off + S (length kept))%nat with (S off + length kept)%nat by lia.
    split_and!; [done|done|].
    rewrite Ht. rewrite (take_S_r _ _ (storedIndex Ctor r)).
    + rewrite take_insert_ge by lia. by rewrite <- app_assoc.
    + apply list_lookup_insert_eq. lia.
Qed.

Lemma storedIndex_in_range (l : List) (r : nat) :
  (r < _rawCount l)%nat → Z.of_nat (_rawCount l) ≤ 2 ^ 32 →
  storedIndex (getIndicesCtor l) (Z.of_nat r) = r.
Proof.
  intros Hr Hmax. unfold getIndicesCtor, storedIndex.
  destruct (65535 <? Z.of_nat (_rawCount l)) eqn:E.
  - rewrite Z.mod_small by lia. lia.
  - apply Z.ltb_ge in E. rewrite Z.mod_small by lia. lia.
Qed.

Lemma storedIndex_fmap_in_range (l : List) (kept : list nat) :
  Forall (λ r, (r < _rawCount l)%nat) kept → Z.of_nat (_rawCount l) ≤ 2 ^ 32 →
  storedIndex (getIndicesCtor l) <$> (Z.of_nat <$> kept) = kept.
Proof.
  intros H Hmax. induction H as [|r kept Hr _ IH]; [done|].
  rewrite !fmap_cons, IH. f_equal. by apply storedIndex_in_range.
Qed.

(** *** Raw positions and [getRawIndex] *)

Lemma rawPositions_length (l : List) :
  wf_view l → length (rawPositions l) = _count l.
Proof.
  unfold wf_view, rawPositions. destruct (_indices l) as [indices|].
  - intros [_ H]. rewrite length_take. lia.
  - intros _. apply length_seq.
Qed.

Lemma getRawIndex_rawPositions (l : List) (i : nat) :
  wf_view l → (i < _count l)%nat →
  getRawIndex l (Z.of_nat i) = Z.of_nat <$> rawPositions l !! i.
Proof.
  unfold wf_view, rawPositions, getRawIndex. intros Hwf Hi.
  destruct (_indices l) as [indices|] eqn:E.
  - destruct Hwf as [-> Hlen]. unfold getRawIndexWithIndices. rewrite E.
    replace (Z.of_nat i <? Z.of_nat (_count l)) with true by (symmetry; apply Z.ltb_lt; lia).
    replace (0 <=? Z.of_nat i) with true by (symmetry; apply Z.leb_le; lia).
    simpl. rewrite Nat2Z.id. by rewrite lookup_take_lt.
  - rewrite Hwf. unfold getRawIndexWithoutIndices.
    rewrite lookup_seq_lt by done. done.
Qed.

(** *** Installing the filtered view *)

Lemma installView_kept (l : List) (kept : list nat) :
  Forall (λ r, (r < _rawCount l)%nat) kept → Z.of_nat (_rawCount l) ≤ 2 ^ 32 →
  (length kept ≤ _count l)%nat →
  let w := foldl (pushIndex (getIndicesCtor l)) (newIndicesArray (_count l), 0%nat)
             (Z.of_nat <$> kept) in
  let l' := installView l (_count l) w in
  _count l' = length kept
  ∧ (length kept = _count l →
       _indices l' = _indices l
       ∧ rawIndexGetter l' =
           match _indices l with Some _ => WithIndices | None => WithoutIndices end)
  ∧ ((length kept < _count l)%nat →
       ∃ indices, _indices l' = Some indices ∧ length indices = _count l
         ∧ take (length kept) indices = kept ∧ rawIndexGetter l' = WithIndices).
Proof.
  intros Hin Hmax Hlen w l'.
  destruct (foldl_pushIndex (getIndicesCtor l) (Z.of_nat <$> kept)
              (newIndicesArray (_count l)) 0%nat) as (arr' & Hw & Hl & Ht).
  { unfold newIndicesArray. rewrite length_fmap, length_replicate. lia. }
  rewrite length_fmap in Hw, Ht. simpl in Hw, Ht.
  unfold newIndicesArray in Hl. rewrite length_replicate in Hl.
  rewrite storedIndex_fmap_in_range in Ht by done.
  subst l'. fold w. unfold w. rewrite Hw. unfold installView. simpl.
  split_and!; [done| |].
  - intros Heq. replace (length kept <? _count l)%nat with false
      by (symmetry; apply Nat.ltb_ge; lia). done.
  - intros Hlt. replace (length kept <? _count l)%nat with true
      by (symmetry; apply Nat.ltb_lt; lia).
    exists arr'. done.
Qed.

Lemma installView_rawPositions (l : List) (kept : list nat) :
  Forall (λ r, (r < _rawCount l)%nat) kept → Z.of_nat (_rawCount l) ≤ 2 ^ 32 →
  (length kept ≤ _count l)%nat →
  (length kept = _count l → kept = rawPositions l) →
  rawPositions
    (installView l (_count l)
       (foldl (pushIndex (getIndicesCtor l)) (newIndicesArray (_count l), 0%nat)
          (Z.of_nat <$> kept))) = kept.
Proof.
  intros Hin Hmax Hlen Hall.
  destruct (installView_kept l kept Hin Hmax Hlen) as (Hc & Hsame & Hnew).
  destruct (decide (length kept = _count l)) as [Heq|Hne].
  - destruct (Hsame Heq) as [Hi _]. unfold rawPositions at 1.
    rewrite Hi, Hc, Heq. symmetry. exact (Hall Heq).
  - destruct Hnew as (indices & Hi & _ & Ht & _); [lia|].
    unfold rawPositions. by rewrite Hi, Hc.
Qed.

Lemma installView_wf (l : List) (kept : list nat) :
  wf_view l →
  Forall (λ r, (r < _rawCount l)%nat) kept → Z.of_nat (_rawCount l) ≤ 2 ^ 32 →
  (length kept ≤ _count l)%nat →
  wf_view
    (installView l (_count l)
       (foldl (pushIndex (getIndicesCtor l)) (newIndicesArray (_count l), 0%nat)
          (Z.of_nat <$> kept))).
Proof.
  intros Hwf Hin Hmax Hlen.
  destruct (installView_kept l kept Hin Hmax Hlen) as (Hc & Hsame & Hnew).
  destruct (decide (length kept = _count l)) as [Heq|Hne].
  - destruct (Hsame Heq) as [Hi Hg]. unfold wf_view in *. rewrite Hi, Hg, Hc.
    destruct (_indices l); [split; [done|]; lia | done].
  - destruct Hnew as (indices & Hi & Hl & _ & Hg); [lia|].
    unfold wf_view. rewrite Hi, Hg, Hc. split; [done|lia].
Qed.

(** *** The loop of [filterSelf] *)

Lemma filterSelf_loop_kept (l : List) dimNames cb (w0 w : IndexWriter) :
  wf_view l →
  for_loop 0 (_count l) (filterSelf_body l dimNames cb (getIndicesCtor l)) w0 = Some w →
  w = foldl (pushIndex (getIndicesCtor l)) w0
        (Z.of_nat <$> retainedRows (filterKeep l dimNames cb) l).
Proof.
  intros Hwf.
  rewrite (filter_loop_spec (getIndicesCtor l)
    (λ i, rawIdx ← getRawIndex l (Z.of_nat i);
          value ← filterValues l dimNames rawIdx;
          Some (rawIdx, cb value i))).
  2:{ intros i w' _. unfold filterSelf_body.
      destruct (getRawIndex l (Z.of_nat i)) as [r|]; [|done]. simpl.
      by destruct (filterValues l dimNames r). }
  destruct (keptRows _ 0 (_count l)) as [kept|] eqn:E; [|done]. simpl.
  intros [= <-]. f_equal.
  rewrite <- (rawPositions_length l Hwf) in E.
  apply (keptRows_retained _ (filterKeep l dimNames cb)) in E; [done|].
  intros i r p Hi. simpl.
  rewrite getRawIndex_rawPositions, Hi; [|done|].
  2:{ apply lookup_lt_Some in Hi. by rewrite rawPositions_length in Hi. }
  simpl. unfold filterKeep.
  destruct (filterValues l dimNames (Z.of_nat r)); [|done]. simpl. by intros [= <-].
Qed.

Lemma filterSelf_Some StringToNumber dims cb (l l' : List) :
  wf_view l →
  filterSelf StringToNumber dims cb l = Some l' →
  (_count l = 0%nat ∧ l' = l)
  ∨ (_count l ≠ 0%nat
     ∧ l' = installView l (_count l)
              (foldl (pushIndex (getIndicesCtor l)) (newIndicesArray (_count l), 0%nat)
                 (Z.of_nat <$>
                    retainedRows (filterKeep l (getDimension StringToNumber l <$> dims) cb) l))).
Proof.
  intros Hwf. unfold filterSelf, count.
  destruct (Nat.eqb_spec (_count l) 0) as [H0|H0].
  - intros [= <-]. by left.
  - destruct (for_loop _ _ _ _) as [w|] eqn:E; [|done]. simpl. intros [= <-].
    right. split; [done|]. f_equal. by apply filterSelf_loop_kept.
Qed.

Lemma rawPositions_empty (l : List) :
  wf_view l → _count l = 0%nat → rawPositions l = [].
Proof.
  intros Hwf H0. apply nil_length_inv. by rewrite rawPositions_length.
Qed.

(** ** The view installed by [filterSelf] *)

(** C3: after [filterSelf], the count is the number of retained rows; when
    every row was retained the index array and the translation function are
    the previous ones; otherwise the new index array lists exactly the
    retained raw positions, an order-preserving subsequence of the previous
    view (hence ascending when the previous view was, and always when there
    was none), and translation goes through the index array. *)
Theorem filterSelf_view StringToNumber dims cb (l l' : List) :
  wf_view l → raw_in_range l →
  filterSelf StringToNumber dims cb l = Some l' →
  let kept := retainedRows (filterKeep l (getDimension StringToNumber l <$> dims) cb) l in
  count l' = length kept
  ∧ (length kept = count l →
       _indices l' = _indices l ∧ rawIndexGetter l' = rawIndexGetter l)
  ∧ ((length kept < count l)%nat →
       ∃ indices, _indices l' = Some indices
         ∧ take (count l') indices = kept
         ∧ rawIndexGetter l' = WithIndices)
  ∧ rawPositions l' = kept
  ∧ sublist kept (rawPositions l)
  ∧ (StronglySorted Nat.lt (rawPositions l) → StronglySorted Nat.lt kept)
  ∧ (_indices l = None → StronglySorted Nat.lt kept).
Proof.
  intros Hwf [Hin Hmax] Hf kept. unfold count.
  assert (Hsub : sublist kept (rawPositions l)) by apply retainedFrom_sublist.
  assert (Hlen : (length kept ≤ _count l)%nat).
  { rewrite <- (rawPositions_length l Hwf). by apply sublist_length. }
  assert (Hkin : Forall (λ r, (r < _rawCount l)%nat) kept)
    by by apply retainedFrom_Forall.
  assert (Hsorted : StronglySorted Nat.lt (rawPositions l) → StronglySorted Nat.lt kept)
    by apply retainedFrom_sorted.
  assert (Hnone : _indices l = None → StronglySorted Nat.lt kept).
  { intros Hi. apply Hsorted. unfold rawPositions. rewrite Hi. apply seq_sorted. }
  assert (Hall : length kept = _count l → kept = rawPositions l).
  { intros Heq. apply retainedFrom_all. by rewrite rawPositions_length. }
  destruct (filterSelf_Some _ _ _ _ _ Hwf Hf) as [[H0 ->]|[Hn ->]].
  - assert (kept = []) as Hk.
    { apply nil_length_inv. lia. }
    rewrite Hk in *. simpl. rewrite (rawPositions_empty l Hwf H0) in *.
    split_and!; try done. lia.
  - fold kept.
    destruct (installView_kept l kept Hkin Hmax Hlen) as (Hc & Hsame & Hnew).
    split_and!; try done.
    + intros Heq. destruct (Hsame Heq) as [Hi Hg]. split; [done|]. rewrite Hg.
      unfold wf_view in Hwf. destruct (_indices l); [by destruct Hwf | done].
    + intros Hlt. destruct (Hnew Hlt) as (indices & Hi & _ & Ht & Hg).
      exists indices. by rewrite Hc.
    + by apply installView_rawPositions.
Qed.

(** ** The loops of [selectRange] *)

Lemma retainedFrom_ext keep1 keep2 i rs :
  (∀ j r, rs !! j = Some r → keep1 (i + j)%nat r = keep2 (i + j)%nat r) →
  retainedFrom keep1 i rs = retainedFrom keep2 i rs.
Proof.
  revert i. induction rs as [|r rs IH]; intros i Hext; simpl; [done|].
  pose proof (Hext 0%nat r eq_refl) as H0. rewrite Nat.add_0_r in H0. rewrite H0.
  rewrite IH; [done|]. intros j r' Hj.
  replace (S i + j)%nat with (i + S j)%nat by lia. by apply Hext.
Qed.

Lemma retainedFrom_app keep i rs1 rs2 :
  retainedFrom keep i (rs1 ++ rs2) =
  retainedFrom keep i rs1 ++ retainedFrom keep (i + length rs1) rs2.
Proof.
  revert i. induction rs1 as [|r rs1 IH]; intros i; simpl.
  - by rewrite Nat.add_0_r.
  - rewrite IH. replace (S i + length rs1)%nat with (i + S (length rs1))%nat by lia.
    by destruct (keep i r).
Qed.

Lemma retainedFrom_none keep i rs :
  (∀ j r, rs !! j = Some r → keep (i + j)%nat r = false) →
  retainedFrom keep i rs = [].
Proof.
  revert i. induction rs as [|r rs IH]; intros i Hext; simpl; [done|].
  pose proof (Hext 0%nat r eq_refl) as H0. rewrite Nat.add_0_r in H0. rewrite H0.
  apply IH. intros j r' Hj.
  replace (S i + j)%nat with (i + S j)%nat by lia. by apply Hext.
Qed.

Lemma retainedFrom_elem keep i rs j r :
  rs !! j = Some r → keep (i + j)%nat r = true → r ∈ retainedFrom keep i rs.
Proof.
  revert i j. induction rs as [|r' rs IH]; intros i j; [done|].
  destruct j as [|j]; simpl.
  - intros [= ->]. rewrite Nat.add_0_r. intros ->. left.
  - intros Hj Hk. replace (i + S j)%nat with (S i + j)%nat in Hk by lia.
    pose proof (IH (S i) j Hj Hk). destruct (keep i r'); [by right|done].
Qed.

Lemma selectRange_generic1_kept (l : List) dim0 min max (w : IndexWriter) :
  wf_view l →
  selectRange_generic1 l dim0 min max = Some w →
  w = foldl (pushIndex (getIndicesCtor l)) (newIndicesArray (_count l), 0%nat)
        (Z.of_nat <$> retainedRows (λ _, rangeKeep l dim0 min max) l).
Proof.
  intros Hwf. unfold selectRange_generic1, count.
  rewrite (filter_loop_spec (getIndicesCtor l)
    (λ i, rawIndex ← getRawIndex l (Z.of_nat i);
          val ← _getFast l dim0 rawIndex;
          Some (rawIndex, inRangeOrNaN min max val))).
  2:{ intros i w' _. unfold selectRange_generic1_body.
      destruct (getRawIndex l (Z.of_nat i)) as [r|]; [|done]. simpl.
      by destruct (_getFast l dim0 r). }
  destruct (keptRows _ 0 (_count l)) as [kept|] eqn:E; [|done]. simpl.
  intros [= <-]. f_equal.
  rewrite <- (rawPositions_length l Hwf) in E.
  apply (keptRows_retained _ (λ _, rangeKeep l dim0 min max)) in E; [done|].
  intros i r p Hi. simpl.
  rewrite getRawIndex_rawPositions, Hi; [|done|].
  2:{ apply lookup_lt_Some in Hi. by rewrite rawPositions_length in Hi. }
  simpl. unfold rangeKeep.
  destruct (_getFast l dim0 (Z.of_nat r)); [|done]. simpl. by intros [= <-].
Qed.

Lemma selectRange_genericN_kept (l : List) range (w : IndexWriter) :
  wf_view l →
  selectRange_genericN l range = Some w →
  w = foldl (pushIndex (getIndicesCtor l)) (newIndicesArray (_count l), 0%nat)
        (Z.of_nat <$> retainedRows (λ _, rangeKeepN l range) l).
Proof.
  intros Hwf. unfold selectRange_genericN, count.
  rewrite (filter_loop_spec (getIndicesCtor l)
    (λ i, rawIndex ← getRawIndex l (Z.of_nat i);
          keep ← selectRange_keep l range rawIndex true;
          Some (rawIndex, keep))).
  2:{ intros i w' _. unfold selectRange_genericN_body.
      destruct (getRawIndex l (Z.of_nat i)) as [r|]; [|done]. simpl.
      destruct (selectRange_keep l range r true) as [[]|]; done. }
  destruct (keptRows _ 0 (_count l)) as [kept|] eqn:E; [|done]. simpl.
  intros [= <-]. f_equal.
  rewrite <- (rawPositions_length l Hwf) in E.
  apply (keptRows_retained _ (λ _, rangeKeepN l range)) in E; [done|].
  intros i r p Hi. simpl.
  rewrite getRawIndex_rawPositions, Hi; [|done|].
  2:{ apply lookup_lt_Some in Hi. by rewrite rawPositions_length in Hi. }
  simpl. unfold rangeKeepN.
  destruct (selectRange_keep l range (Z.of_nat r) true); [|done]. simpl. by intros [= <-].
Qed.

Lemma keptRows_add row from n m :
  keptRows row from (n + m) =
  k1 ← keptRows row from n; k2 ← keptRows row (from + n) m; Some (k1 ++ k2).
Proof.
  revert from. induction n as [|n IH]; intros from; simpl.
  - rewrite Nat.add_0_r. by destruct (keptRows row from m).
  - destruct (row from) as [[r k]|]; [|done]. simpl. rewrite IH.
    replace (S from + n)%nat with (from + S n)%nat by lia.
    destruct (keptRows row (S from) n) as [k1|]; [|done]. simpl.
    destruct (keptRows row (from + S n) m) as [k2|]; [|done]. simpl.
    by destruct k.
Qed.

Lemma counted_loop_spec (Ctor : IndicesCtor) (row : nat → option (Z * bool))
    (inner : nat → ChunkWriter → option ChunkWriter) (base i0 n : nat) (w : IndexWriter) :
  (∀ i w', (i0 ≤ i < i0 + n)%nat →
     inner i (w', (base + i)%nat) =
       '(r, keep) ← row (base + i)%nat;
       Some (if keep : bool then pushIndex Ctor w' r else w', S (base + i))) →
  for_loop i0 n inner (w, (base + i0)%nat) =
  kept ← keptRows row (base + i0) n;
  Some (foldl (pushIndex Ctor) w kept, (base + i0 + n)%nat).
Proof.
  revert i0 w. induction n as [|n IH]; intros i0 w Hinner; simpl.
  - by rewrite Nat.add_0_r.
  - rewrite Hinner by lia.
    destruct (row (base + i0)%nat) as [[r k]|]; [|done]. simpl.
    replace (S (base + i0)) with (base + S i0)%nat by lia.
    rewrite IH by (intros; apply Hinner; lia).
    destruct (keptRows row (base + S i0) n) as [rest|]; [|done]. simpl.
    replace (base + S i0 + n)%nat with (base + i0 + S n)%nat by lia.
    by destruct k.
Qed.

(** The rows covered by the first [K] chunks. *)
Lemma chunkLen_covered (l : List) (K : nat) :
  (Nat.min (_count l) (S K * _chunkSize l) =
   Nat.min (_count l) (K * _chunkSize l) + Z.to_nat (chunkLen l K))%nat.
Proof. unfold chunkLen. nia. Qed.

Lemma chunkLen_pos (l : List) (K : nat) :
  (0 < Z.to_nat (chunkLen l K))%nat →
  (K * _chunkSize l < _count l)%nat ∧ (Z.to_nat (chunkLen l K) ≤ _chunkSize l)%nat.
Proof. unfold chunkLen. nia. Qed.

Lemma chunked_loop_spec (l : List) (Ctor : IndicesCtor) (row : nat → option (Z * bool))
    (chunkBody : nat → ChunkWriter → option ChunkWriter)
    (inner : nat → nat → ChunkWriter → option ChunkWriter) (K : nat) (w0 : IndexWriter) :
  (∀ k s, chunkBody k s = for_loop 0 (Z.to_nat (chunkLen l k)) (inner k) s) →
  (∀ k i w', (i < Z.to_nat (chunkLen l k))%nat →
     inner k i (w', (k * _chunkSize l + i)%nat) =
       '(r, keep) ← row (k * _chunkSize l + i)%nat;
       Some (if keep : bool then pushIndex Ctor w' r else w', S (k * _chunkSize l + i))) →
  for_loop 0 K chunkBody (w0, 0%nat) =
  kept ← keptRows row 0 (Nat.min (_count l) (K * _chunkSize l));
  Some (foldl (pushIndex Ctor) w0 kept, Nat.min (_count l) (K * _chunkSize l)).
Proof.
  intros Hchunk Hinner. induction K as [|K IH].
  - simpl. by rewrite Nat.min_0_r.
  - rewrite for_loop_snoc, IH, chunkLen_covered, keptRows_add. simpl.
    set (mK := Nat.min (_count l) (K * _chunkSize l)).
    destruct (keptRows row 0 mK) as [k1|]; [|done]. simpl.
    rewrite Hchunk.
    destruct (Nat.eq_dec (Z.to_nat (chunkLen l K)) 0%nat) as [Hz|Hnz].
    + rewrite Hz. simpl. by rewrite app_nil_r, Nat.add_0_r.
    + destruct (chunkLen_pos l K) as [Hlt Hle]; [lia|].
      assert (mK = K * _chunkSize l)%nat as HmK by lia.
      pose proof (counted_loop_spec Ctor row (inner K) mK 0%nat (Z.to_nat (chunkLen l K))
                    (foldl (pushIndex Ctor) w0 k1)) as Hc.
      rewrite !Nat.add_0_r in Hc. rewrite Hc.
      * destruct (keptRows row mK _) as [k2|]; [|done]. simpl. by rewrite foldl_app.
      * intros i w' Hi. rewrite HmK. apply Hinner. lia.
Qed.

Lemma readChunked_nat (chunkSize : nat) (dimStore : list (list number)) (i : nat) :
  chunkSize ≠ 0%nat →
  readChunked chunkSize dimStore (Z.of_nat i) =
  chunk ← dimStore !! (i / chunkSize)%nat;
  Some (from_option Num Undefined (chunk !! (i mod chunkSize)%nat)).
Proof.
  intros Hcs. unfold readChunked, at_index.
  destruct (Nat.eqb_spec chunkSize 0) as [?|_]; [done|].
  rewrite Z.rem_mod_nonneg by lia.
  rewrite <- Nat2Z.inj_div, <- Nat2Z.inj_mod.
  replace (Z.of_nat (i / chunkSize) <? 0) with false by (symmetry; apply Z.ltb_ge; lia).
  replace (Z.of_nat (i mod chunkSize) <? 0) with false by (symmetry; apply Z.ltb_ge; lia).
  by rewrite !Nat2Z.id.
Qed.

Lemma getFast_in_chunk (l : List) dim dimStorage (k i : nat) :
  storageOf l dim = Some dimStorage → (i < _chunkSize l)%nat →
  _getFast l dim (Z.of_nat (k * _chunkSize l + i)) =
  chunk ← dimStorage !! k; Some (from_option Num Undefined (chunk !! i)).
Proof.
  intros Hs Hi. unfold _getFast. rewrite Hs. simpl.
  rewrite readChunked_nat by lia.
  rewrite Nat.div_add_l, Nat.div_small, Nat.add_0_r by lia.
  rewrite Nat.add_comm, Nat.Div0.mod_add, Nat.mod_small by lia. done.
Qed.

Lemma retainedFrom_inChunks (l : List) (keep : nat → bool) :
  retainedFrom (λ i r, inChunks l i && keep r) 0 (seq 0 (_count l)) =
  retainedFrom (λ _ r, keep r) 0
    (seq 0 (Nat.min (_count l) (_chunkCount l * _chunkSize l))).
Proof.
  set (m := Nat.min (_count l) (_chunkCount l * _chunkSize l)).
  replace (_count l) with (m + (_count l - m))%nat by lia.
  rewrite seq_app, retainedFrom_app, length_seq. simpl.
  rewrite (retainedFrom_none _ m).
  - rewrite app_nil_r. apply retainedFrom_ext. intros j r Hj%lookup_seq.
    unfold inChunks. replace (_ <? _)%nat with true; [done|].
    symmetry. apply Nat.ltb_lt. lia.
  - intros j r Hj%lookup_seq. unfold inChunks.
    replace (_ <? _)%nat with false; [done|]. symmetry. apply Nat.ltb_ge. lia.
Qed.

Lemma keptRows_seq (row : nat → option (Z * bool)) (keep : nat → bool) (m : nat) kept :
  (∀ i p, (i < m)%nat → row i = Some p → p = (Z.of_nat i, keep i)) →
  keptRows row 0 m = Some kept →
  kept = Z.of_nat <$> retainedFrom (λ _ r, keep r) 0 (seq 0 m).
Proof.
  intros Hrow E. rewrite <- (length_seq m 0) in E.
  apply (keptRows_retained _ (λ _ r, keep r)) in E; [done|].
  intros i r p [-> Hi]%lookup_seq. simpl. by apply Hrow.
Qed.

Lemma selectRange_fast1_kept (l : List) dim0 min max (w : IndexWriter) :
  _indices l = None →
  selectRange_fast1 l dim0 min max = Some w →
  w = foldl (pushIndex (getIndicesCtor l)) (newIndicesArray (_count l), 0%nat)
        (Z.of_nat <$>
           retainedRows (λ i r, inChunks l i && rangeKeep l dim0 min max r) l).
Proof.
  intros Hnone. unfold selectRange_fast1, count, retainedRows, rawPositions.
  rewrite Hnone, retainedFrom_inChunks.
  destruct (storageOf l dim0) as [dimStorage|] eqn:Hs.
  - rewrite (chunked_loop_spec l (getIndicesCtor l)
      (λ i, val ← _getFast l dim0 (Z.of_nat i);
            Some (Z.of_nat i, inRangeOrNaN min max val))
      _ (λ k, selectRange_fast1_row (getIndicesCtor l) min max (dimStorage !! k))).
    + destruct (keptRows _ 0 _) as [kept|] eqn:E; [|done]. simpl. intros [= <-].
      f_equal. apply (keptRows_seq _ (rangeKeep l dim0 min max)) in E; [done|].
      intros i p _. unfold rangeKeep.
      destruct (_getFast l dim0 (Z.of_nat i)); [|done]. simpl. by intros [= <-].
    + intros k s. unfold selectRange_fast1_chunk. by rewrite Hs.
    + intros k i w' Hi. destruct (chunkLen_pos l k) as [_ Hle]; [lia|].
      rewrite (getFast_in_chunk l dim0 dimStorage) by (done || lia).
      unfold selectRange_fast1_row. simpl.
      by destruct (dimStorage !! k).
  - destruct (_chunkCount l) as [|C] eqn:HC.
    + simpl. intros [= <-]. by rewrite Nat.min_0_r.
    + cbn [for_loop].
      replace (selectRange_fast1_chunk l _ dim0 min max 0 _) with (@None ChunkWriter);
        [done|]. unfold selectRange_fast1_chunk. by rewrite Hs.
Qed.

Lemma selectRange_fast2_kept (l : List) dim0 dim1 min max min2 max2 (w : IndexWriter) :
  _indices l = None →
  selectRange_fast2 l dim0 dim1 min max min2 max2 = Some w →
  w = foldl (pushIndex (getIndicesCtor l)) (newIndicesArray (_count l), 0%nat)
        (Z.of_nat <$>
           retainedRows (λ i r, inChunks l i
                                && (rangeKeep l dim0 min max r
                                    && rangeKeep l dim1 min2 max2 r)) l).
Proof.
  intros Hnone. unfold selectRange_fast2, count, retainedRows, rawPositions.
  rewrite Hnone, (retainedFrom_inChunks l
    (λ r, rangeKeep l dim0 min max r && rangeKeep l dim1 min2 max2 r)).
  destruct (storageOf l dim0) as [dimStorage|] eqn:Hs;
    [destruct (storageOf l dim1) as [dimStorage2|] eqn:Hs2|].
  - rewrite (chunked_loop_spec l (getIndicesCtor l)
      (λ i, val ← _getFast l dim0 (Z.of_nat i);
            val2 ← _getFast l dim1 (Z.of_nat i);
            Some (Z.of_nat i, inRangeOrNaN min max val && inRangeOrNaN min2 max2 val2))
      _ (λ k, selectRange_fast2_row (getIndicesCtor l) min max min2 max2
                (dimStorage !! k) (dimStorage2 !! k))).
    + destruct (keptRows _ 0 _) as [kept|] eqn:E; [|done]. simpl. intros [= <-].
      f_equal.
      apply (keptRows_seq _
        (λ r, rangeKeep l dim0 min max r && rangeKeep l dim1 min2 max2 r)) in E; [done|].
      intros i p _. unfold rangeKeep.
      destruct (_getFast l dim0 (Z.of_nat i)); [|done]. simpl.
      destruct (_getFast l dim1 (Z.of_nat i)); [|done]. simpl. by intros [= <-].
    + intros k s. unfold selectRange_fast2_chunk. by rewrite Hs, Hs2.
    + intros k i w' Hi. destruct (chunkLen_pos l k) as [_ Hle]; [lia|].
      rewrite (getFast_in_chunk l dim0 dimStorage) by (done || lia).
      rewrite (getFast_in_chunk l dim1 dimStorage2) by (done || lia).
      unfold selectRange_fast2_row. simpl.
      destruct (dimStorage !! k); [|done]. simpl.
      by destruct (dimStorage2 !! k).
  - destruct (_chunkCount l) as [|C] eqn:HC.
    + simpl. intros [= <-]. by rewrite Nat.min_0_r.
    + cbn [for_loop].
      replace (selectRange_fast2_chunk l _ dim0 dim1 min max min2 max2 0 _)
        with (@None ChunkWriter); [done|].
      unfold selectRange_fast2_chunk. by rewrite Hs, Hs2.
  - destruct (_chunkCount l) as [|C] eqn:HC.
    + simpl. intros [= <-]. by rewrite Nat.min_0_r.
    + cbn [for_loop].
      replace (selectRange_fast2_chunk l _ dim0 dim1 min max min2 max2 0 _)
        with (@None ChunkWriter); [done|].
      unfold selectRange_fast2_chunk. by rewrite Hs.
Qed.

(** *** What [selectRange] and [filterSelf] return *)

Lemma selectRange_Some range (l l' : List) :
  wf_view l →
  selectRange range l = Some l' →
  ((_count l = 0%nat ∨ range = []) ∧ l' = l)
  ∨ (_count l ≠ 0%nat ∧ range ≠ []
     ∧ ∃ keep, l' = installView l (_count l)
                 (foldl (pushIndex (getIndicesCtor l)) (newIndicesArray (_count l), 0%nat)
                    (Z.of_nat <$> retainedRows keep l))).
Proof.
  intros Hwf. unfold selectRange, count.
  destruct (Nat.eqb_spec (_count l) 0) as [H0|H0].
  { intros [= <-]. left. split; [by left|done]. }
  destruct range as [|[dim0 [min max]] rest].
  { intros [= <-]. left. split; [by right|done]. }
  intros H. right. split_and!; [done|done|].
  destruct (_indices l) as [indices|] eqn:Hi.
  - destruct rest as [|e rest].
    + destruct (selectRange_generic1 l dim0 min max) as [w|] eqn:E; [|done].
      simpl in H. injection H as <-.
      eexists. f_equal. by apply selectRange_generic1_kept.
    + destruct (selectRange_genericN l _) as [w|] eqn:E; [|done].
      simpl in H. injection H as <-.
      eexists. f_equal. by apply selectRange_genericN_kept.
  - destruct rest as [|[dim1 [min2 max2]] [|e rest]].
    + destruct (selectRange_fast1 l dim0 min max) as [w|] eqn:E; [|done].
      simpl in H. injection H as <-.
      eexists. f_equal. by apply selectRange_fast1_kept.
    + destruct (selectRange_fast2 l dim0 dim1 min max min2 max2) as [w|] eqn:E; [|done].
      simpl in H. injection H as <-.
      eexists. f_equal. by apply selectRange_fast2_kept.
    + destruct (selectRange_genericN l _) as [w|] eqn:E; [|done].
      simpl in H. injection H as <-.
      eexists. f_equal. by apply selectRange_genericN_kept.
Qed.

(** Installing the rows a decision keeps yields exactly those rows as the
    new view. *)
Lemma filtered_rawPositions (l : List) keep :
  wf_view l → raw_in_range l →
  let l' := installView l (_count l)
              (foldl (pushIndex (getIndicesCtor l)) (newIndicesArray (_count l), 0%nat)
                 (Z.of_nat <$> retainedRows keep l)) in
  rawPositions l' = retainedRows keep l ∧ wf_view l'.
Proof.
  intros Hwf [Hin Hmax] l'.
  assert (Hlen : (length (retainedRows keep l) ≤ _count l)%nat).
  { rewrite <- (rawPositions_length l Hwf). apply retainedFrom_length. }
  assert (Hkin : Forall (λ r, (r < _rawCount l)%nat) (retainedRows keep l))
    by by apply retainedFrom_Forall.
  split.
  - apply installView_rawPositions; [done..|].
    intros Heq. apply retainedFrom_all. by rewrite rawPositions_length.
  - by apply installView_wf.
Qed.

(** Whether the store is returned as it is or with a filtered view, the new
    view is a subsequence of the previous one. *)
Lemma filtering_visible_rows (l l' : List) :
  wf_view l → raw_in_range l →
  (l' = l ∨ ∃ keep, l' = installView l (_count l)
              (foldl (pushIndex (getIndicesCtor l)) (newIndicesArray (_count l), 0%nat)
                 (Z.of_nat <$> retainedRows keep l))) →
  wf_view l' ∧ sublist (rawPositions l') (rawPositions l).
Proof.
  intros Hwf Hin [->|[keep ->]]; [done|].
  destruct (filtered_rawPositions l keep Hwf Hin) as [-> Hwf'].
  split; [done|]. apply retainedFrom_sublist.
Qed.

Lemma getId_static_installView (l : List) n w rawIndex :
  getId_static (installView l n w) rawIndex = getId_static l rawIndex.
Proof. reflexivity. Qed.

(** *** The invariants of the view *)

(** A store that has just been ingested: no index array, identity
    translation, every row visible. *)
Lemma unfiltered_store_invariants (l : List) :
  _indices l = None → rawIndexGetter l = WithoutIndices →
  _count l = _rawCount l → Z.of_nat (_rawCount l) ≤ 2 ^ 32 →
  wf_view l ∧ raw_in_range l ∧ StronglySorted Nat.lt (rawPositions l).
Proof.
  intros Hi Hg Hc Hmax. unfold wf_view, raw_in_range, rawPositions. rewrite Hi.
  split_and!; [done| |done|apply seq_sorted].
  apply Forall_forall. intros r Hr%list_elem_of_In%in_seq. lia.
Qed.

(** [filterSelf] and [selectRange] keep them. *)
Lemma filtering_invariants StringToNumber dims cb range (l l' : List) :
  wf_view l → raw_in_range l →
  (filterSelf StringToNumber dims cb l = Some l' ∨ selectRange range l = Some l') →
  wf_view l' ∧ raw_in_range l'
  ∧ (StronglySorted Nat.lt (rawPositions l) → StronglySorted Nat.lt (rawPositions l')).
Proof.
  intros Hwf Hin Hop.
  assert (l' = l ∨ ∃ keep, l' = installView l (_count l)
              (foldl (pushIndex (getIndicesCtor l)) (newIndicesArray (_count l), 0%nat)
                 (Z.of_nat <$> retainedRows keep l))) as [->|[keep ->]].
  { destruct Hop as [Hf|Hs].
    - destruct (filterSelf_Some _ _ _ _ _ Hwf Hf) as [[_ ->]|[_ ->]]; eauto.
    - destruct (selectRange_Some _ _ _ Hwf Hs) as [[_ ->]|(_ & _ & keep & ->)]; eauto. }
  { done. }
  destruct (filtered_rawPositions l keep Hwf Hin) as [Hrp Hwf'].
  destruct Hin as [Hin Hmax].
  split_and!; [done| |].
  - split; [|done]. rewrite Hrp. by apply retainedFrom_Forall.
  - rewrite Hrp. apply retainedFrom_sorted.
Qed.

(** [filterSelf] returns whenever the values of every visible row can be
    read. *)
Lemma filterSelf_returns StringToNumber dims cb (l : List) :
  wf_view l →
  (∀ r, r ∈ rawPositions l →
     is_Some (filterValues l (getDimension StringToNumber l <$> dims) (Z.of_nat r))) →
  is_Some (filterSelf StringToNumber dims cb l).
Proof.
  intros Hwf Hread. unfold filterSelf, count.
  destruct (Nat.eqb (_count l) 0); [by eexists|].
  rewrite (filter_loop_spec (getIndicesCtor l)
    (λ i, rawIdx ← getRawIndex l (Z.of_nat i);
          value ← filterValues l (getDimension StringToNumber l <$> dims) rawIdx;
          Some (rawIdx, cb value i))).
  2:{ intros i w' _. unfold filterSelf_body.
      destruct (getRawIndex l (Z.of_nat i)) as [r|]; [|done]. simpl.
      by destruct (filterValues l _ r). }
  destruct (keptRows_is_Some
    (λ i, rawIdx ← getRawIndex l (Z.of_nat i);
          value ← filterValues l (getDimension StringToNumber l <$> dims) rawIdx;
          Some (rawIdx, cb value i)) 0 (_count l)) as [kept ->]; [|by eexists].
  intros i Hi.
  destruct (lookup_lt_is_Some_2 (rawPositions l) i) as [r Hr].
  { rewrite rawPositions_length by done. lia. }
  rewrite getRawIndex_rawPositions, Hr by (done || lia). simpl.
  destruct (Hread r) as [v ->]; [by eapply list_elem_of_lookup_2|]. by eexists.
Qed.

(** ** Frame of the filtering operations *)

(** C8, in the form that holds of the code: [filterSelf] and [selectRange]
    leave the chunks of raw storage and the raw extents as they are (the
    extent pairs live in a heap these operations do not touch); the view
    extent cache is emptied, except on the early returns (an empty view, or
    an empty range), where the store is returned as it is. *)
Theorem filtering_frame StringToNumber dims cb range (l l' : List) :
  (filterSelf StringToNumber dims cb l = Some l' →
     _storage l' = _storage l ∧ _rawExtent l' = _rawExtent l
     ∧ (_count l ≠ 0%nat → _extent l' = ∅)
     ∧ (_count l = 0%nat → l' = l))
  ∧ (selectRange range l = Some l' →
     _storage l' = _storage l ∧ _rawExtent l' = _rawExtent l
     ∧ (_count l ≠ 0%nat → range ≠ [] → _extent l' = ∅)
     ∧ (_count l = 0%nat ∨ range = [] → l' = l)).
Proof.
  unfold filterSelf, selectRange. split; intros H.
  - destruct (Nat.eqb_spec (_count l) 0) as [H0|H0].
    + injection H as <-. by split_and!.
    + destruct (for_loop _ _ _ _) as [w|]; [|done]. injection H as <-.
      by split_and!.
  - destruct (Nat.eqb_spec (_count l) 0) as [H0|H0].
    + injection H as <-. by split_and!.
    + destruct range as [|[dim0 [min max]] rest].
      * injection H as <-. by split_and!.
      * match type of H with ?m ≫= _ = _ => destruct m as [w2|] end; [|done].
        injection H as <-. split_and!; try done. by intros [?|?].
Qed.

(** ** Identity under filtering *)

(** C9: after [filterSelf] or [selectRange], every visible row was visible
    before, and [getId] at its new logical position is [getId] at its old
    one. *)
Theorem getId_stable_under_filtering StringToNumber dims cb range (l l' : List) :
  wf_view l → raw_in_range l →
  (filterSelf StringToNumber dims cb l = Some l' ∨ selectRange range l = Some l') →
  (∀ j, (j < count l')%nat →
     ∃ i r, (i < count l)%nat
       ∧ getRawIndex l (Z.of_nat i) = Some r
       ∧ getRawIndex l' (Z.of_nat j) = Some r)
  ∧ (∀ i j r, getRawIndex l i = Some r → getRawIndex l' j = Some r →
       getId l' j = getId l i).
Proof.
  intros Hwf Hin Hop.
  assert (l' = l ∨ ∃ keep, l' = installView l (_count l)
              (foldl (pushIndex (getIndicesCtor l)) (newIndicesArray (_count l), 0%nat)
                 (Z.of_nat <$> retainedRows keep l))) as Hl'.
  { destruct Hop as [Hf|Hs].
    - destruct (filterSelf_Some _ _ _ _ _ Hwf Hf) as [[_ ->]|[_ ->]]; eauto.
    - destruct (selectRange_Some _ _ _ Hwf Hs) as [[_ ->]|(_ & _ & keep & ->)]; eauto. }
  destruct (filtering_visible_rows l l' Hwf Hin Hl') as [Hwf' Hsub].
  split.
  - intros j Hj. unfold count in *.
    destruct (lookup_lt_is_Some_2 (rawPositions l') j) as [r Hr].
    { by rewrite rawPositions_length. }
    assert (r ∈ rawPositions l) as [i Hi]%list_elem_of_lookup_1.
    { eapply elem_of_sublist; [|done]. by eapply list_elem_of_lookup_2. }
    assert (i < _count l)%nat as Hlt.
    { apply lookup_lt_Some in Hi. by rewrite rawPositions_length in Hi. }
    exists i, (Z.of_nat r). split; [done|].
    rewrite !getRawIndex_rawPositions, Hi, Hr by done. done.
  - intros i j r Hi Hj. unfold getId. rewrite Hi, Hj. simpl.
    destruct Hl' as [->|[keep ->]]; done.
Qed.

(** ** The fast path of [selectRange] *)

Lemma selectRange_generic1_rows (l : List) dim0 min max :
  _indices l = None → wf_view l →
  selectRange_generic1 l dim0 min max =
  kept ← keptRows (λ i, val ← _getFast l dim0 (Z.of_nat i);
                        Some (Z.of_nat i, inRangeOrNaN min max val)) 0 (_count l);
  Some (foldl (pushIndex (getIndicesCtor l)) (newIndicesArray (_count l), 0%nat) kept).
Proof.
  intros Hnone Hwf. unfold selectRange_generic1, count.
  apply filter_loop_spec. intros i w' _. unfold selectRange_generic1_body, getRawIndex.
  unfold wf_view in Hwf. rewrite Hnone in Hwf. rewrite Hwf. simpl.
  by destruct (_getFast l dim0 (Z.of_nat i)).
Qed.

Lemma selectRange_fast1_rows (l : List) dim0 min max :
  is_Some (storageOf l dim0) →
  selectRange_fast1 l dim0 min max =
  kept ← keptRows (λ i, val ← _getFast l dim0 (Z.of_nat i);
                        Some (Z.of_nat i, inRangeOrNaN min max val)) 0
            (Nat.min (_count l) (_chunkCount l * _chunkSize l));
  Some (foldl (pushIndex (getIndicesCtor l)) (newIndicesArray (_count l), 0%nat) kept).
Proof.
  intros [dimStorage Hs]. unfold selectRange_fast1, count.
  rewrite (chunked_loop_spec l (getIndicesCtor l)
      (λ i, val ← _getFast l dim0 (Z.of_nat i);
            Some (Z.of_nat i, inRangeOrNaN min max val))
      _ (λ k, selectRange_fast1_row (getIndicesCtor l) min max (dimStorage !! k))).
  - by destruct (keptRows _ 0 _).
  - intros k s. unfold selectRange_fast1_chunk. by rewrite Hs.
  - intros k i w' Hi. destruct (chunkLen_pos l k) as [_ Hle]; [lia|].
    rewrite (getFast_in_chunk l dim0 dimStorage) by (done || lia).
    unfold selectRange_fast1_row. simpl.
    by destruct (dimStorage !! k).
Qed.

Lemma inRangeOrNaN_NaN min max val :
  isNaN (ToNumber val) = true → inRangeOrNaN min max val = true.
Proof. unfold inRangeOrNaN. intros ->. apply orb_true_r. Qed.

(** *** The two per-row loops on one dimension *)

Lemma SFcompare_swap (x y : number) :
  SFcompare y x = CompOpp <$> SFcompare x y.
Proof.
  destruct x as [sx|sx| |sx mx ex], y as [sy|sy| |sy my ey]; simpl;
    try destruct sx; try destruct sy; try reflexivity.
  all: assert (Pos.compare_cont Eq my mx = CompOpp (Pos.compare_cont Eq mx my)) as Hm
    by (by rewrite Pos.compare_cont_antisym).
  all: rewrite (Z.compare_antisym ey ex); destruct (ey ?= ex); simpl; try reflexivity.
  all: change PosDef.Pos.compare_cont with Pos.compare_cont; rewrite Hm.
  all: by destruct (Pos.compare_cont Eq mx my).
Qed.

(** With bounds that are numbers, keeping the values in range or NaN is
    dropping the values out of range. *)
Lemma inRangeOrNaN_outOfRange (min max : number) (val : value) :
  isNaN min = false → isNaN max = false →
  inRangeOrNaN min max val = negb (outOfRange min max val).
Proof.
  unfold inRangeOrNaN, outOfRange, JS.ge, JS.le, JS.lt, JS.gt, SFleb, SFltb.
  intros Hmin Hmax. generalize (ToNumber val). intros v.
  rewrite (SFcompare_swap v min), (SFcompare_swap v max).
  destruct v as [sv|sv| |sv mv ev]; [| |by destruct min, max|].
  all: destruct (SFcompare _ min) as [[]|] eqn:E1;
    try (by destruct min as [| | |[]]);
    destruct (SFcompare _ max) as [[]|] eqn:E2;
    try (by destruct max as [| | |[]]); reflexivity.
Qed.

Lemma selectRange_genericN_one_dimension (l : List) dim0 min max :
  isNaN min = false → isNaN max = false →
  selectRange_genericN l [(dim0, (min, max))] = selectRange_generic1 l dim0 min max.
Proof.
  intros Hmin Hmax. unfold selectRange_genericN, selectRange_generic1.
  apply for_loop_ext. intros i w _.
  unfold selectRange_genericN_body, selectRange_generic1_body.
  destruct (getRawIndex l (Z.of_nat i)) as [r|]; [|done]. simpl.
  destruct (_getFast l dim0 r) as [val|]; [|done]. simpl.
  rewrite inRangeOrNaN_outOfRange by done.
  by destruct (outOfRange min max val).
Qed.

(** C2: on a store with no index array, [selectRange] over one dimension
    takes the chunk-wise fast path, which yields the index array and count
    the per-row loop yields; it returns whenever every row can be read, and
    a row whose value is NaN is retained whatever the bounds. *)
Theorem selectRange_fast_path_agrees (l : List) dim0 min max :
  _indices l = None → wf_view l → raw_in_range l →
  _count l ≠ 0%nat →
  (_count l ≤ _chunkCount l * _chunkSize l)%nat →
  selectRange_fast1 l dim0 min max = selectRange_generic1 l dim0 min max
  ∧ selectRange [(dim0, (min, max))] l =
      installView l (count l) <$> selectRange_generic1 l dim0 min max
  ∧ ((∀ r, (r < _count l)%nat → is_Some (_getFast l dim0 (Z.of_nat r))) →
       is_Some (selectRange [(dim0, (min, max))] l))
  ∧ (∀ l' r val, selectRange [(dim0, (min, max))] l = Some l' →
       (r < _count l)%nat → _getFast l dim0 (Z.of_nat r) = Some val →
       isNaN (ToNumber val) = true → r ∈ rawPositions l').
Proof.
  intros Hnone Hwf Hin Hc Hcover.
  assert (Heq : selectRange_fast1 l dim0 min max = selectRange_generic1 l dim0 min max).
  { rewrite selectRange_generic1_rows by done.
    destruct (storageOf l dim0) as [dimStorage|] eqn:Hs.
    - rewrite selectRange_fast1_rows by (by eexists).
      by replace (Nat.min (_count l) (_chunkCount l * _chunkSize l)) with (_count l) by lia.
    - assert (Hg : ∀ z, _getFast l dim0 z = None)
        by (intros; unfold _getFast; by rewrite Hs).
      destruct (_count l) as [|c] eqn:Hcount; [done|].
      cbn [keptRows]. rewrite Hg. simpl.
      unfold selectRange_fast1.
      destruct (_chunkCount l) as [|C]; [simpl in Hcover; lia|].
      cbn [for_loop].
      replace (selectRange_fast1_chunk l _ dim0 min max 0 _) with (@None ChunkWriter);
        [done|]. unfold selectRange_fast1_chunk. by rewrite Hs. }
  assert (Hsel : selectRange [(dim0, (min, max))] l =
            installView l (count l) <$> selectRange_generic1 l dim0 min max).
  { unfold selectRange. destruct (Nat.eqb_spec (_count l) 0) as [?|_]; [done|].
    rewrite Hnone, Heq. by destruct (selectRange_generic1 l dim0 min max). }
  split_and!; [done|done| |].
  - intros Hread. rewrite Hsel, selectRange_generic1_rows by done.
    destruct (keptRows_is_Some
      (λ i, val ← _getFast l dim0 (Z.of_nat i);
            Some (Z.of_nat i, inRangeOrNaN min max val)) 0 (_count l)) as [kept ->].
    + intros i Hi. destruct (Hread i) as [v ->]; [lia|]. by eexists.
    + by eexists.
  - intros l' r val Hl' Hr Hval Hnan. rewrite Hsel in Hl'.
    destruct (selectRange_generic1 l dim0 min max) as [w|] eqn:E; [|done].
    injection Hl' as <-.
    apply selectRange_generic1_kept in E; [|done]. subst w. unfold count.
    destruct (filtered_rawPositions l (λ _, rangeKeep l dim0 min max) Hwf Hin) as [-> _].
    unfold retainedRows, rawPositions. rewrite Hnone.
    apply (retainedFrom_elem _ 0 _ r r).
    + by apply lookup_seq_lt.
    + unfold rangeKeep. rewrite Hval. by apply inRangeOrNaN_NaN.
Qed.

(** ** Reverse lookup *)

Lemma StronglySorted_lookup_le (rs : list nat) (i j x y : nat) :
  StronglySorted Nat.lt rs → rs !! i = Some x → rs !! j = Some y →
  (i ≤ j)%nat → (x ≤ y)%nat.
Proof.
  intros Hs. revert i j. induction Hs as [|r rs Hs IH Hr]; intros i j; [done|].
  destruct i as [|i], j as [|j]; simpl; intros Hi Hj Hij; simplify_eq; [lia| |lia|].
  - rewrite Forall_forall in Hr. apply list_elem_of_lookup_2 in Hj.
    specialize (Hr _ Hj). lia.
  - apply (IH i j); [done..|lia].
Qed.

Lemma StronglySorted_lookup_inj (rs : list nat) (i j x : nat) :
  StronglySorted Nat.lt rs → rs !! i = Some x → rs !! j = Some x → i = j.
Proof.
  intros Hs. revert i j. induction Hs as [|r rs Hs IH Hr]; intros i j; [done|].
  rewrite Forall_forall in Hr.
  destruct i as [|i], j as [|j]; simpl; intros Hi Hj; simplify_eq; [done| | |].
  - apply list_elem_of_lookup_2 in Hj. specialize (Hr _ Hj). lia.
  - apply list_elem_of_lookup_2 in Hi. specialize (Hr _ Hi). lia.
  - f_equal. by apply IH.
Qed.

Lemma toInt32_small (z : Z) : 0 ≤ z < 2 ^ 31 → toInt32 z = z.
Proof. intros Hz. unfold toInt32. rewrite Z.mod_small by lia. lia. Qed.

Lemma indexOfRawIndex_search_spec (fuel : nat) (indices : list nat) (n : nat)
    (rawIndex : nat) (left right : Z) :
  (n ≤ length indices)%nat → Z.of_nat n ≤ 2 ^ 31 →
  StronglySorted Nat.lt (take n indices) →
  0 ≤ left → right < Z.of_nat n → right - left + 1 ≤ Z.of_nat fuel →
  (∃ p : nat, indexOfRawIndex_search fuel indices (Z.of_nat rawIndex) left right
                = Some (Z.of_nat p)
      ∧ left ≤ Z.of_nat p ≤ right ∧ indices !! p = Some rawIndex)
  ∨ (indexOfRawIndex_search fuel indices (Z.of_nat rawIndex) left right = Some (-1)
     ∧ ∀ q : nat, left ≤ Z.of_nat q ≤ right → indices !! q ≠ Some rawIndex).
Proof.
  intros Hlen Hmax Hsorted. revert left right.
  induction fuel as [|fuel IH]; intros left right Hl Hr Hfuel.
  - right. simpl. replace (left <=? right) with false by (symmetry; apply Z.leb_gt; lia).
    split; [done|]. intros q Hq. lia.
  - simpl. destruct (Z.leb_spec left right) as [Hle|Hgt]; simpl.
    2:{ right. split; [done|]. intros q Hq. lia. }
    assert (Hmid : left ≤ (left + right) `quot` 2 ≤ right).
    { rewrite Z.quot_div_nonneg by lia. split.
      - apply Z.div_le_lower_bound; lia.
      - apply Z.div_le_upper_bound; lia. }
    rewrite toInt32_small by lia.
    set (mid := (left + right) `quot` 2) in *.
    unfold at_index. replace (mid <? 0) with false by (symmetry; apply Z.ltb_ge; lia).
    destruct (lookup_lt_is_Some_2 indices (Z.to_nat mid)) as [v Hv]; [lia|].
    rewrite Hv.
    assert (Hview : ∀ q x, Z.of_nat q < Z.of_nat n → indices !! q = Some x →
                      take n indices !! q = Some x).
    { intros q x Hq Hx. rewrite lookup_take_lt by lia. done. }
    destruct (Z.ltb_spec (Z.of_nat v) (Z.of_nat rawIndex)) as [Hlt|Hge].
    + destruct (IH (mid + 1) right) as [(p & Hp & Hpr & Hpi)|[Hm Hnone]]; [lia..| |].
      * left. exists p. split_and!; [done|lia|lia|done].
      * right. split; [done|]. intros q Hq Hqi.
        destruct (Z.le_gt_cases (mid + 1) (Z.of_nat q)) as [?|?].
        { apply (Hnone q); [lia|done]. }
        pose proof (StronglySorted_lookup_le _ q (Z.to_nat mid) rawIndex v Hsorted
                      (Hview q rawIndex ltac:(lia) Hqi)
                      (Hview (Z.to_nat mid) v ltac:(lia) Hv) ltac:(lia)). lia.
    + destruct (Z.ltb_spec (Z.of_nat rawIndex) (Z.of_nat v)) as [Hgt|Hle2].
      * destruct (IH left (mid - 1)) as [(p & Hp & Hpr & Hpi)|[Hm Hnone]]; [lia..| |].
        -- left. exists p. split_and!; [done|lia|lia|done].
        -- right. split; [done|]. intros q Hq Hqi.
           destruct (Z.le_gt_cases (Z.of_nat q) (mid - 1)) as [?|?].
           { apply (Hnone q); [lia|done]. }
           pose proof (StronglySorted_lookup_le _ (Z.to_nat mid) q v rawIndex Hsorted
                         (Hview (Z.to_nat mid) v ltac:(lia) Hv)
                         (Hview q rawIndex ltac:(lia) Hqi) ltac:(lia)). lia.
      * left. exists (Z.to_nat mid). rewrite Z2Nat.id by lia.
        split_and!; [done|lia|lia|]. rewrite Hv. f_equal. lia.
Qed.

(** C7: [indexOfRawIndex] is -1 outside [0, rawCount); without an index
    array it is the raw index itself; with an ascending index array it is
    the logical position holding the raw index when there is one, and -1
    otherwise. *)
Theorem indexOfRawIndex_spec (l : List) (rawIndex : Z) :
  wf_view l → Z.of_nat (_count l) ≤ 2 ^ 31 →
  StronglySorted Nat.lt (rawPositions l) →
  (rawIndex < 0 ∨ Z.of_nat (_rawCount l) ≤ rawIndex →
     indexOfRawIndex l rawIndex = Some (-1))
  ∧ (0 ≤ rawIndex < Z.of_nat (_rawCount l) →
     match _indices l with
     | None => indexOfRawIndex l rawIndex = Some rawIndex
     | Some indices =>
         (∀ p : nat, (p < _count l)%nat → indices !! p = Some (Z.to_nat rawIndex) →
            indexOfRawIndex l rawIndex = Some (Z.of_nat p))
         ∧ ((∀ p : nat, (p < _count l)%nat → indices !! p ≠ Some (Z.to_nat rawIndex)) →
            indexOfRawIndex l rawIndex = Some (-1))
     end).
Proof.
  intros Hwf Hmax Hsorted. unfold indexOfRawIndex. split.
  - intros Hout.
    destruct (Z.leb_spec (Z.of_nat (_rawCount l)) rawIndex),
             (Z.ltb_spec rawIndex 0); simpl; try done; lia.
  - intros Hin.
    replace (Z.of_nat (_rawCount l) <=? rawIndex) with false
      by (symmetry; apply Z.leb_gt; lia).
    replace (rawIndex <? 0) with false by (symmetry; apply Z.ltb_ge; lia).
    cbn [orb]. unfold wf_view, rawPositions in *.
    destruct (_indices l) as [indices|]; [|done].
    destruct Hwf as [_ Hlen]. cbv zeta.
    assert (Huniq : ∀ p q : nat, (p < _count l)%nat → (q < _count l)%nat →
              indices !! p = Some (Z.to_nat rawIndex) →
              indices !! q = Some (Z.to_nat rawIndex) → p = q).
    { intros p q Hp Hq Hpi Hqi.
      apply (StronglySorted_lookup_inj _ p q (Z.to_nat rawIndex) Hsorted);
        by rewrite lookup_take_lt. }
    destruct (indexOfRawIndex_search_spec (S (_count l)) indices (_count l)
                (Z.to_nat rawIndex) 0 (Z.of_nat (_count l) - 1))
      as [(p & Hp & Hpr & Hpi)|[Hm Hnone]]; [done|done|done|lia|lia|lia| |];
      rewrite Z2Nat.id in * by lia.
    + (* the search finds a position *)
      set (shortcut := match at_index indices rawIndex with
                       | Some v => _ | None => false end).
      assert (shortcut = true →
              indices !! Z.to_nat rawIndex = Some (Z.to_nat rawIndex)
              ∧ (Z.to_nat rawIndex < _count l)%nat) as Hshort.
      { unfold shortcut, at_index.
        replace (rawIndex <? 0) with false by (symmetry; apply Z.ltb_ge; lia).
        destruct (indices !! Z.to_nat rawIndex) as [v|]; [|done].
        intros [H1 H2%Z.eqb_eq]%andb_true_iff. apply Z.ltb_lt in H1.
        split; [f_equal|]; lia. }
      split.
      * intros q Hq Hqi. destruct shortcut.
        -- destruct Hshort as [Hs1 Hs2]; [done|].
           rewrite <- (Huniq (Z.to_nat rawIndex) q Hs2 Hq Hs1 Hqi). f_equal. lia.
        -- rewrite Hp. do 2 f_equal. apply Huniq; [lia|done..].
      * intros Hno. exfalso. apply (Hno p); [lia|done].
    + (* the search finds none *)
      set (shortcut := match at_index indices rawIndex with
                       | Some v => _ | None => false end).
      assert (shortcut = false) as ->.
      { unfold shortcut, at_index.
        replace (rawIndex <? 0) with false by (symmetry; apply Z.ltb_ge; lia).
        destruct (indices !! Z.to_nat rawIndex) as [v|] eqn:Ev; [|done].
        apply andb_false_iff.
        destruct (Z.ltb_spec (Z.of_nat v) (Z.of_nat (_count l))) as [Hv|Hv]; [|by left].
        right. apply Z.eqb_neq. intros Heq.
        assert (v = Z.to_nat rawIndex) as -> by lia.
        apply (Hnone (Z.to_nat rawIndex)); [lia|done]. }
      split; [|done].
      intros q Hq Hqi. exfalso. apply (Hnone q); [lia|done].
Qed.

(** ** Sum of a dimension *)

Lemma for_loop_mapM {St A : Type} (f : nat → option A) (g : St → A → St)
    (body : nat → St → option St) (from n : nat) (s : St) :
  (∀ i s', (from ≤ i < from + n)%nat → body i s' = v ← f i; Some (g s' v)) →
  for_loop from n body s = vs ← mapM f (seq from n); Some (foldl g s vs).
Proof.
  revert from s. induction n as [|n IH]; intros from s Hbody; [done|].
  cbn [for_loop seq mapM]. rewrite Hbody by lia.
  destruct (f from) as [v|]; [|done]. simpl.
  rewrite IH by (intros; apply Hbody; lia).
  by destruct (mapM f (seq (S from) n)).
Qed.

Lemma foldl_add_dropNaN (vs : list value) (sum : number) :
  foldl (λ s v, if negb (isNaN (ToNumber v)) then add s (ToNumber v) else s) sum vs =
  foldl add sum (dropNaN (ToNumber <$> vs)).
Proof.
  revert sum. induction vs as [|v vs IH]; intros sum; [done|].
  rewrite fmap_cons. unfold dropNaN. rewrite filter_cons. simpl. rewrite IH.
  case_decide as Hv.
  - by rewrite Hv.
  - apply not_false_is_true in Hv. by rewrite Hv.
Qed.

(** C10: for a dimension in storage, [getSum] is the sum, from 0 on in
    logical order, of the values [get] yields that are not NaN; it is 0
    when the read [storage[dim]] finds nothing.  For a dimension the store
    does not hold but whose name every object inherits a member for, as
    [toString], the guard [if (dimData)] lets the loop run: on a view with
    a row the first [get] throws, where the specification has the sum be
    0. *)
Theorem getSum_spec (l : List) (dim : string) :
  (is_Some (_storage l !! dim) →
     getSum l dim =
       vs ← viewValues l dim;
       Some (foldl add zero (dropNaN (ToNumber <$> vs))))
  ∧ (_storage l !! dim = None → dim ∉ Object_prototype → getSum l dim = Some zero)
  ∧ (_storage l !! dim = None → dim ∈ Object_prototype →
     (count l = 0%nat → getSum l dim = Some zero)
     ∧ (count l ≠ 0%nat → getSum l dim = None)).
Proof.
  unfold getSum. split_and!.
  - intros [dimData Hs]. rewrite (storageOf_stored l dim dimData Hs). unfold viewValues.
    rewrite (for_loop_mapM (λ i, get l dim (Z.of_nat i))
               (λ s v, if negb (isNaN (ToNumber v)) then add s (ToNumber v) else s)).
    + destruct (mapM _ _) as [vs|]; [|done]. simpl. by rewrite foldl_add_dropNaN.
    + intros i s' _. unfold getSum_body. by destruct (get l dim (Z.of_nat i)).
  - intros Hs Hp. by rewrite (proj2 (storageOf_None l dim) (conj Hs Hp)).
  - intros Hs Hp. rewrite (storageOf_inherited l dim Hs Hp). split.
    + by intros ->.
    + intros Hc. destruct (count l) as [|n] eqn:Ec; [done|]. cbn [for_loop].
      replace (getSum_body l dim 0 zero) with (@None number); [done|].
      unfold getSum_body. rewrite (get_inherited l dim (Z.of_nat 0) Hs Hp); [done|].
      unfold count in Ec. rewrite Ec. lia.
Qed.

(** ** Extent of a dimension *)

Lemma alloc_spec (h : Heap) (p : number * number) :
  ∃ r, alloc h p = (r, <[r := p]> h) ∧ (r ∉ dom h).
Proof. eexists. split; [reflexivity|apply is_fresh]. Qed.

Lemma slice_spec (h : Heap) (c : nat) (p : number * number) :
  h !! c = Some p → ∃ r, slice h c = Some (r, <[r := p]> h) ∧ (r ∉ dom h).
Proof.
  intros Hc. unfold slice. rewrite Hc. simpl.
  destruct (alloc_spec h p) as (r & -> & Hr). by exists r.
Qed.

Lemma mapM_seq_lookup {A B : Type} (f : nat → option B) (f' : A → option B)
    (rs : list A) (from : nat) :
  (∀ i r, rs !! i = Some r → f (from + i)%nat = f' r) →
  mapM f (seq from (length rs)) = mapM f' rs.
Proof.
  revert from. induction rs as [|r rs IH]; intros from Hf; [done|].
  cbn [length seq mapM].
  pose proof (Hf 0%nat r eq_refl) as H0. rewrite Nat.add_0_r in H0. rewrite H0.
  rewrite IH; [done|]. intros i r' Hi.
  replace (S from + i)%nat with (from + S i)%nat by lia. by apply Hf.
Qed.

Lemma getDataExtent_scan (l : List) (dim : string) (init : number * number) :
  wf_view l →
  for_loop 0 (_count l) (getDataExtent_body l dim) init =
  vs ← viewRawValues l dim; Some (foldl widen init (ToNumber <$> vs)).
Proof.
  intros Hwf.
  rewrite (for_loop_mapM
    (λ i, rawIdx ← getRawIndex l (Z.of_nat i); _getFast l dim rawIdx)
    (λ mm v, widen mm (ToNumber v))).
  - unfold viewRawValues. rewrite <- (rawPositions_length l Hwf).
    rewrite (mapM_seq_lookup _ (λ r : nat, _getFast l dim (Z.of_nat r))).
    + destruct (mapM _ _) as [vs|]; [|done]. simpl. f_equal.
      generalize init. induction vs as [|v vs IH]; intros mm; [done|].
      rewrite fmap_cons. simpl. apply IH.
    + intros i r Hi. simpl. rewrite getRawIndex_rawPositions, Hi; [done|done|].
      apply lookup_lt_Some in Hi. by rewrite rawPositions_length in Hi.
  - intros i s' _. unfold getDataExtent_body.
    destruct (getRawIndex l (Z.of_nat i)) as [r|]; [|done]. simpl.
    by destruct (_getFast l dim r).
Qed.

Lemma getDimension_setExtent StringToNumber (l : List) extent dim :
  getDimension StringToNumber (setExtent l extent) dim = getDimension StringToNumber l dim.
Proof. by destruct dim. Qed.

(** [getDataExtent] on a dimension the store holds. *)
Lemma getDataExtent_stored StringToNumber (h : Heap) (l : List) dim dimData :
  let name := getDimension StringToNumber l dim in
  _storage l !! name = Some dimData →
  getDataExtent StringToNumber h l dim =
    let '(initialExtent, h0) := getInitialExtent h in
    match _indices l with
    | None =>
        rawExtent ← _rawExtent l !! name;
        '(r, h1) ← slice h0 rawExtent;
        Some (r, h1, l)
    | Some _ =>
        match _extent l !! name with
        | Some dimExtent =>
            '(r, h1) ← slice h0 dimExtent;
            Some (r, h1, l)
        | None =>
            if bool_decide (name ∈ Object_prototype) then None
            else
              init ← h0 !! initialExtent;
              mm ← for_loop 0 (count l) (getDataExtent_body l name) init;
              let '(dimExtent, h1) := alloc h0 mm in
              Some (dimExtent, h1, setExtent l (<[name := dimExtent]> (_extent l)))
        end
    end.
Proof.
  intros name Hs. unfold getDataExtent. fold name.
  rewrite (storageOf_stored l name dimData Hs).
  destruct (getInitialExtent h) as [initialExtent h0].
  unfold property. destruct (_indices l).
  - destruct (_extent l !! name); [done|]. by case_bool_decide.
  - destruct (_rawExtent l !! name); [done|]. by case_bool_decide.
Qed.

Lemma getDataExtent_cached StringToNumber (h : Heap) (l : List) dim cached p :
  is_Some (_storage l !! getDimension StringToNumber l dim) →
  is_Some (_indices l) →
  _extent l !! getDimension StringToNumber l dim = Some cached →
  h !! cached = Some p →
  ∃ r h', getDataExtent StringToNumber h l dim = Some (r, h', l)
    ∧ h' !! r = Some p ∧ (r ∉ dom h) ∧ r ≠ cached
    ∧ (∀ a, a ∈ dom h → h' !! a = h !! a).
Proof.
  intros [dimData Hs] [indices Hi] Hc Hp.
  rewrite (getDataExtent_stored _ _ _ _ _ Hs). unfold getInitialExtent.
  destruct (alloc_spec h (Infinity, NegInfinity)) as (r0 & -> & Hf1).
  rewrite Hi, Hc.
  assert (cached ∈ dom h) as Hcd by (apply elem_of_dom; by eexists).
  destruct (slice_spec (<[r0 := (Infinity, NegInfinity)]> h) cached p)
    as (r & -> & Hf2).
  { rewrite lookup_insert_ne; [done|]. by intros ->. }
  simpl. exists r, (<[r := p]> (<[r0 := (Infinity, NegInfinity)]> h)).
  rewrite dom_insert in Hf2.
  split_and!; [done|by rewrite lookup_insert_eq|set_solver|set_solver|].
  intros a Ha. rewrite !lookup_insert_ne; [done|set_solver|set_solver].
Qed.

(** C6: for a dimension in storage, [getDataExtent] returns, without an
    index array, a pair holding the raw extent; with an index array and a
    cached view extent, a fresh copy of the cached pair, so that writing to
    the returned pair leaves later results as they were; otherwise (no
    view extent cached, the name of the dimension not being one every
    object inherits a member for) the pair found by one scan over the
    logical rows, which it returns after making it the cache entry of the
    dimension: only the cache changes, and a later call reports, in a
    copy, what the entry then holds. *)
Theorem getDataExtent_spec StringToNumber (h : Heap)
    (l : List) (dim : DimensionLoose) :
  let name := getDimension StringToNumber l dim in
  wf_view l → is_Some (_storage l !! name) →
  (_indices l = None →
     ∀ rawExtent p, _rawExtent l !! name = Some rawExtent → h !! rawExtent = Some p →
       ∃ r h', getDataExtent StringToNumber h l dim = Some (r, h', l)
         ∧ h' !! r = Some p ∧ (r ∉ dom h))
  ∧ (is_Some (_indices l) →
     ∀ cached p, _extent l !! name = Some cached → h !! cached = Some p →
       ∃ r h', getDataExtent StringToNumber h l dim = Some (r, h', l)
         ∧ h' !! r = Some p ∧ r ≠ cached
         ∧ ∀ q, ∃ r2 h2,
             getDataExtent StringToNumber (<[r := q]> h') l dim = Some (r2, h2, l)
             ∧ h2 !! r2 = Some p)
  ∧ (is_Some (_indices l) → _extent l !! name = None → name ∉ Object_prototype →
     ∀ vs, viewRawValues l name = Some vs →
       ∃ r h' l',
         getDataExtent StringToNumber h l dim = Some (r, h', l')
         ∧ h' !! r = Some (scanExtent vs)
         ∧ (r ∉ dom h)
         ∧ _extent l' !! name = Some r
         ∧ l' = setExtent l (<[name := r]> (_extent l))
         ∧ (∃ r2 h2,
              getDataExtent StringToNumber h' l' dim = Some (r2, h2, l')
              ∧ h2 !! r2 = Some (scanExtent vs) ∧ r2 ≠ r)
         ∧ ∀ q, ∃ r2 h2,
             getDataExtent StringToNumber (<[r := q]> h') l' dim = Some (r2, h2, l')
             ∧ h2 !! r2 = Some q ∧ r2 ≠ r).
Proof.
  intros name Hwf [dimData Hs].
  split_and!.
  - intros Hnone rawExtent p Hr Hp.
    rewrite (getDataExtent_stored _ _ _ _ _ Hs). unfold getInitialExtent. fold name.
    destruct (alloc_spec h (Infinity, NegInfinity)) as (r0 & -> & Hf1).
    rewrite Hnone, Hr. cbn [mbind option_bind].
    assert (rawExtent ∈ dom h) as Hcd by (apply elem_of_dom; by eexists).
    destruct (slice_spec (<[r0 := (Infinity, NegInfinity)]> h) rawExtent p)
      as (r & -> & Hf2).
    { rewrite lookup_insert_ne; [done|]. by intros ->. }
    cbn [mbind option_bind]. eexists r, _. rewrite dom_insert_L in Hf2.
    split_and!; [done|by rewrite lookup_insert_eq|set_solver].
  - intros Hi cached p Hc Hp.
    destruct (getDataExtent_cached StringToNumber h l dim cached p)
      as (r & h' & Hg & Hr & Hfresh & Hne & Hframe); [by eexists|done..|].
    exists r, h'. split_and!; [done..|].
    intros q.
    destruct (getDataExtent_cached StringToNumber (<[r := q]> h') l dim cached p)
      as (r2 & h2 & Hg2 & Hr2 & _); [by eexists|done|done| |by eauto].
    rewrite lookup_insert_ne by done. rewrite Hframe; [done|].
    apply elem_of_dom. by eexists.
  - intros Hi Hnone Hproto vs Hvs.
    pose proof (getDataExtent_scan l name (Infinity, NegInfinity) Hwf) as Hscan.
    rewrite Hvs in Hscan. cbn [mbind option_bind] in Hscan.
    fold (scanExtent vs) in Hscan.
    destruct Hi as [indices Hi].
    rewrite (getDataExtent_stored _ _ _ _ _ Hs). unfold getInitialExtent. fold name.
    destruct (alloc_spec h (Infinity, NegInfinity)) as (r0 & -> & Hf1).
    rewrite Hi, Hnone, bool_decide_false, lookup_insert_eq by done.
    cbn [mbind option_bind]. unfold count. rewrite Hscan. cbn [mbind option_bind].
    destruct (alloc_spec (<[r0 := (Infinity, NegInfinity)]> h) (scanExtent vs))
      as (r & -> & Hf2).
    set (l' := setExtent l (<[name := r]> (_extent l))).
    assert (getDimension StringToNumber l' dim = name) as Hname
      by apply getDimension_setExtent.
    assert (∀ q, ∃ r2 h2,
              getDataExtent StringToNumber
                (<[r := q]> (<[r := scanExtent vs]> (<[r0 := (Infinity, NegInfinity)]> h)))
                l' dim = Some (r2, h2, l')
              ∧ h2 !! r2 = Some q ∧ r2 ≠ r) as Hlater.
    { intros q.
      destruct (getDataExtent_cached StringToNumber
                  (<[r := q]> (<[r := scanExtent vs]> (<[r0 := (Infinity, NegInfinity)]> h)))
                  l' dim r q) as (r2 & h2 & Hg & Hr2 & _ & Hne & _).
      - rewrite Hname. simpl. by eexists.
      - simpl. by eexists.
      - rewrite Hname. simpl. by rewrite lookup_insert_eq.
      - by rewrite lookup_insert_eq.
      - by exists r2, h2. }
    eexists r, _, l'. rewrite dom_insert_L in Hf2.
    split_and!; [done|by rewrite lookup_insert_eq|set_solver
                |simpl; by rewrite lookup_insert_eq|done| |done].
    destruct (Hlater (scanExtent vs)) as (r2 & h2 & Hg & Hr2 & Hne).
    rewrite insert_insert_eq in Hg. by exists r2, h2.
Qed.

(** ** Ids of ingested rows *)

Section IdentityProps.

Variable NumberToString : number → string.
Variables (l : List) (nameDimIdx : option nat) (getItem : nat → option DataItem).
Variable start : nat.

Local Abbreviation row := (initIdentity_row NumberToString l nameDimIdx getItem).
Local Abbreviation key_of := (unnamedKey NumberToString l nameDimIdx getItem).
Local Abbreviation occ := (occurrences NumberToString l nameDimIdx getItem).
Local Abbreviation derived := (derivedName l nameDimIdx getItem).

Lemma occurrences_S key n :
  occ key start (S n) =
  (occ key start n + if decide (key_of (start + n)%nat = Some key) then 1 else 0)%nat.
Proof.
  unfold occurrences. rewrite seq_S, filter_app, length_app. f_equal.
  rewrite filter_cons, filter_nil. by case_decide.
Qed.

Lemma initIdentity_row_spec (st st' : Identity) (idx : nat) :
  nameList st !! idx = _nameList l !! idx →
  row idx st = Some st' →
  (∀ j, j ≠ idx → idList st' !! j = idList st !! j
                  ∧ nameList st' !! j = nameList st !! j)
  ∧ match key_of idx with
    | Some key =>
        (key ∉ Object_prototype →
           let n := from_option countOf 0%nat (nameRepeatCount st !! key) in
           nameRepeatCount st' = <[key := Count (S n)]> (nameRepeatCount st)
           ∧ ∀ name, derived idx = Some (Some name) →
               idList st' !! idx =
                 Some (if (0 <? n)%nat then Str (key +:+ "__ec__" +:+ pretty n)
                       else name))
        ∧ (key ∈ Object_prototype →
           ∀ k, k ∉ Object_prototype →
             nameRepeatCount st' !! k = nameRepeatCount st !! k)
    | None => nameRepeatCount st' = nameRepeatCount st
    end.
Proof.
  intros Hname. unfold initIdentity_row, unnamedKey, derivedName.
  rewrite Hname.
  assert (∀ (names : gmap nat NameValue) (name : NameValue) (st1 : Identity),
    match property (nameRepeatCount st) (nameKey NumberToString name) with
    | Own count =>
        Some {| nameList := names;
                idList := <[idx := if (0 <? countOf count)%nat
                                   then Str (nameKey NumberToString name +:+ "__ec__"
                                             +:+ pretty (countOf count))
                                   else name]> (idList st);
                nameRepeatCount := <[nameKey NumberToString name := Count (S (countOf count))]>
                                     (nameRepeatCount st) |}
    | Inherited =>
        Some {| nameList := names;
                idList := <[idx := name]> (idList st);
                nameRepeatCount :=
                  if decide (nameKey NumberToString name = "__proto__"%string)
                  then nameRepeatCount st
                  else <[nameKey NumberToString name := CountNaN]> (nameRepeatCount st) |}
    | Absent =>
        Some {| nameList := names;
                idList := <[idx := name]> (idList st);
                nameRepeatCount := <[nameKey NumberToString name := Count 1]>
                                     (nameRepeatCount st) |}
    end = Some st1 →
    (∀ j, j ≠ idx → idList st1 !! j = idList st !! j)
    ∧ nameList st1 = names
    ∧ (nameKey NumberToString name ∉ Object_prototype →
         let n := from_option countOf 0%nat
                    (nameRepeatCount st !! nameKey NumberToString name) in
         nameRepeatCount st1 = <[nameKey NumberToString name := Count (S n)]>
                                 (nameRepeatCount st)
         ∧ idList st1 !! idx =
             Some (if (0 <? n)%nat
                   then Str (nameKey NumberToString name +:+ "__ec__" +:+ pretty n)
                   else name))
    ∧ (nameKey NumberToString name ∈ Object_prototype →
         ∀ k, k ∉ Object_prototype →
           nameRepeatCount st1 !! k = nameRepeatCount st !! k)) as Hcount.
  { intros names name st1. unfold property.
    destruct (nameRepeatCount st !! nameKey NumberToString name) as [count|] eqn:El;
      [|case_bool_decide as Hp]; intros [= <-]; simpl;
      (split; [intros j Hj; by rewrite lookup_insert_ne by done|]);
      (split; [done|]).
    - split; [intros _; by rewrite lookup_insert_eq|].
      intros Hp k Hk. rewrite lookup_insert_ne; [done|]. by intros <-.
    - split; [done|]. intros _ k Hk. case_decide; [done|].
      rewrite lookup_insert_ne; [done|]. by intros <-.
    - split; [intros _; by rewrite lookup_insert_eq|done]. }
  destruct (getItem idx) as [[iname iid]|]; simpl;
    destruct (_nameList l !! idx) as [name0|]; simpl;
    try destruct iname as [iname|]; simpl;
    try destruct (getRawValueFromStore l nameDimIdx (Z.of_nat idx)) as [[sname|]|]; simpl;
    try destruct iid as [iid|]; simpl;
    try (intros [= <-]; simpl;
         (split; [intros j Hj; by rewrite ?lookup_insert_ne by done|]); done);
    intros Hrow; apply Hcount in Hrow as (Hids & Hnames & Hfresh & Hproto);
    (split; [intros j Hj; split; [by apply Hids|];
             rewrite Hnames; by rewrite ?lookup_insert_ne by done|]);
    (split; [|done]); intros Hp; destruct (Hfresh Hp) as [Hc Hid];
    (split; [done|]); by intros name [= <-].
Qed.

(** What holds once the rows [start, start + n) are processed. *)
Lemma initIdentity_loop_inv (n : nat) (st : Identity) :
  for_loop start n row
    {| nameList := _nameList l; idList := _idList l; nameRepeatCount := ∅ |} = Some st →
  (∀ key, key ∉ Object_prototype →
     from_option countOf 0%nat (nameRepeatCount st !! key) = occ key start n)
  ∧ (∀ j, (start + n ≤ j)%nat → nameList st !! j = _nameList l !! j)
  ∧ (∀ j name, (start ≤ j < start + n)%nat →
       getItem j ≫= item_id = None → derived j = Some (Some name) →
       nameKey NumberToString name ∉ Object_prototype →
       let k := occ (nameKey NumberToString name) start (j - start) in
       idList st !! j =
         Some (if (0 <? k)%nat
               then Str (nameKey NumberToString name +:+ "__ec__" +:+ pretty k)
               else name)).
Proof.
  revert st. induction n as [|n IH]; intros st.
  - simpl. intros [= <-]. simpl. split_and!; [done|done|]. intros j name Hj. lia.
  - rewrite for_loop_snoc.
    destruct (for_loop start n row _) as [st1|] eqn:E; [|done]. simpl.
    destruct (IH st1 eq_refl) as (Hcount & Hnames & Hids). intros Hrow.
    destruct (initIdentity_row_spec st1 st (start + n)%nat) as [Hother Hkey];
      [apply Hnames; lia|done|].
    split_and!.
    + intros key Hp. rewrite occurrences_S.
      destruct (key_of (start + n)%nat) as [key'|] eqn:Ek.
      * destruct (decide (key' = key)) as [->|Hne].
        -- destruct Hkey as [Hfresh _]. destruct (Hfresh Hp) as [-> _].
           rewrite lookup_insert_eq. simpl. rewrite Hcount by done.
           rewrite decide_True by done. lia.
        -- rewrite decide_False by congruence. rewrite Nat.add_0_r.
           destruct (decide (key' ∈ Object_prototype)) as [Hp'|Hp'].
           ++ destruct Hkey as [_ Hproto]. rewrite (Hproto Hp' key Hp). by apply Hcount.
           ++ destruct Hkey as [Hfresh _]. destruct (Hfresh Hp') as [-> _].
              rewrite lookup_insert_ne by done. by apply Hcount.
      * rewrite Hkey, Hcount by done. rewrite decide_False by congruence. lia.
    + intros j Hj. destruct (Hother j) as [_ ->]; [lia|]. apply Hnames. lia.
    + intros j name Hj Hid Hder Hp.
      destruct (decide (j = start + n)%nat) as [->|Hne].
      * unfold unnamedKey in Hkey. rewrite Hid, Hder in Hkey.
        destruct Hkey as [Hfresh _]. destruct (Hfresh Hp) as [_ Hk].
        rewrite (Hk name eq_refl). rewrite Hcount by done.
        by replace (start + n - start)%nat with n by lia.
      * destruct (Hother j) as [-> _]; [done|]. apply Hids; [lia|done..].
Qed.

End IdentityProps.


(** ** The values [filterSelf] hands to a callback on two dimensions *)

Lemma filterValues_repeats_first (l : List) dim0 dim1 dims rawIdx values :
  filterValues l (dim0 :: dim1 :: dims) rawIdx = Some values →
  ∃ val, _getFast l dim0 rawIdx = Some val
    ∧ values = replicate (2 + length dims) val.
Proof.
  unfold filterValues.
  destruct (_getFast l dim0 rawIdx) as [val|] eqn:E; [|done].
  intros H. exists val. split; [done|].
  assert (∀ ds : list string, mapM (λ _ : string, Some val) ds
                              = Some (replicate (length ds) val)) as Hrep.
  { induction ds as [|d ds IH]; [done|]. cbn [mapM]. rewrite IH. done. }
  rewrite Hrep in H. by injection H as <-.
Qed.

(** C1: on the example store, whose first row has [x = 1] and [y = 10],
    [filterSelf] over [x] and [y] hands the callback the value of [x]
    twice, where [each] hands it the values of [x] and [y]; a callback
    keeping the rows with [y = 10] therefore keeps none. *)
Theorem filterSelf_two_dimensions_reads_first_twice :
  filterValues exampleList ["x"; "y"]%string 0 = Some [Num (num 1); Num (num 1)]
  ∧ _getFast exampleList "y" 0 = Some (Num (num 10))
  ∧ eachValues exampleList ["x"; "y"]%string 0 = Some [Num (num 1); Num (num 10)]
  ∧ (count <$> filterSelf exampleStringToNumber [DimName "x"; DimName "y"]
                  exampleCb2 exampleList) = Some 0%nat.
Proof. split_and!; reflexivity. Qed.

(** ** The properties on the example store *)

Lemma exampleList_wf : wf_view exampleList.
Proof. reflexivity. Defined.

Lemma exampleList_in_range : raw_in_range exampleList.
Proof. split; [repeat constructor | done]. Defined.

Lemma exampleFiltered_wf : wf_view exampleFiltered.
Proof. split; [reflexivity | simpl; lia]. Defined.

Lemma exampleFiltered_is :
  filterSelf exampleStringToNumber [DimName "x"] exampleCb exampleList
  = Some exampleFiltered.
Proof. reflexivity. Defined.

Lemma get_absent_dimension_witness :
  get exampleList "x" 3 = Some (Num NaN)
  ∧ get exampleList "z" 0 = Some (Num NaN)
  ∧ get exampleList "toString" 0 = None
  ∧ getByRawIndex exampleList "toString" 0 = None.
Proof.
  split_and!.
  - apply (proj1 (get_absent_dimension exampleList "x" 3 0)). right. simpl. lia.
  - apply (proj1 (proj2 (proj2 (get_absent_dimension exampleList "z" 0 0))));
      [reflexivity|].
    by apply not_inherited.
  - apply (proj2 (proj2 (proj2 (get_absent_dimension exampleList "toString" 0 0))));
      [reflexivity| |simpl; lia].
    by apply is_inherited.
  - apply (proj2 (proj2 (proj2 (get_absent_dimension exampleList "toString" 0 0))));
      [reflexivity| |simpl; lia].
    by apply is_inherited.
Defined.

Lemma filterSelf_view_witness :
  count exampleFiltered = 2%nat
  ∧ rawPositions exampleFiltered = [0; 2]%nat
  ∧ rawIndexGetter exampleFiltered = WithIndices.
Proof.
  destruct (filterSelf_view exampleStringToNumber [DimName "x"] exampleCb
              exampleList exampleFiltered exampleList_wf exampleList_in_range
              exampleFiltered_is) as (Hc & _ & Hnew & Hrp & _).
  split_and!; [exact Hc | exact Hrp |].
  destruct Hnew as (indices & _ & _ & Hg); [vm_compute; lia | exact Hg].
Defined.

Lemma selectRange_fast_path_agrees_witness :
  selectRange_fast1 exampleList "y" (num 5) (num 15)
  = selectRange_generic1 exampleList "y" (num 5) (num 15).
Proof.
  apply (selectRange_fast_path_agrees exampleList "y" (num 5) (num 15)).
  - reflexivity.
  - exact exampleList_wf.
  - exact exampleList_in_range.
  - discriminate.
  - simpl. lia.
Defined.

Lemma filtering_frame_witness :
  _storage exampleFiltered = _storage exampleList
  ∧ _rawExtent exampleFiltered = _rawExtent exampleList
  ∧ _extent exampleFiltered = ∅.
Proof.
  destruct (proj1 (filtering_frame exampleStringToNumber [DimName "x"] exampleCb []
                     exampleList exampleFiltered) exampleFiltered_is)
    as (Hs & Hr & He & _).
  split_and!; [exact Hs | exact Hr | apply He; discriminate].
Defined.

Lemma getId_stable_under_filtering_witness :
  getId exampleFiltered 1 = getId exampleList 2.
Proof.
  apply (proj2 (getId_stable_under_filtering exampleStringToNumber [DimName "x"]
                  exampleCb [] exampleList exampleFiltered exampleList_wf
                  exampleList_in_range (or_introl exampleFiltered_is)) 2 1 2);
    reflexivity.
Defined.

Lemma indexOfRawIndex_spec_witness :
  indexOfRawIndex exampleFiltered 2 = Some 1.
Proof.
  assert (StronglySorted Nat.lt (rawPositions exampleFiltered)) as Hsorted.
  { repeat constructor. }
  assert (Z.of_nat (_count exampleFiltered) ≤ 2 ^ 31) as Hmax.
  { unfold exampleFiltered. simpl. lia. }
  destruct (indexOfRawIndex_spec exampleFiltered 2 exampleFiltered_wf
              Hmax Hsorted) as [_ Hin].
  destruct Hin as [Hfound _]; [unfold exampleFiltered; simpl; lia|].
  apply (Hfound 1%nat); [unfold exampleFiltered; simpl; lia | reflexivity].
Defined.

Lemma getDataExtent_spec_witness :
  ∃ r h' l', getDataExtent exampleStringToNumber exampleHeap exampleFiltered (DimName "x")
               = Some (r, h', l')
    ∧ h' !! r = Some (num 1, num 3)
    ∧ _extent l' !! "x"%string = Some r.
Proof.
  destruct (getDataExtent_spec exampleStringToNumber exampleHeap exampleFiltered
              (DimName "x") exampleFiltered_wf ltac:(by eexists))
    as (_ & _ & Hscan).
  destruct (Hscan ltac:(by eexists) eq_refl ltac:(by apply not_inherited)
              [Num (num 1); Num (num 3)] eq_refl)
    as (r & h' & l' & Hg & Hr & _ & He & _).
  exists r, h', l'. split_and!; [exact Hg | exact Hr | exact He].
Defined.

Lemma getSum_spec_witness :
  getSum exampleList "y" = Some (num 40)
  ∧ getSum exampleList "z" = Some zero
  ∧ getSum exampleList "toString" = None.
Proof.
  split_and!.
  - rewrite (proj1 (getSum_spec exampleList "y") ltac:(by eexists)). reflexivity.
  - apply (proj1 (proj2 (getSum_spec exampleList "z"))); [reflexivity|].
    by apply not_inherited.
  - apply (proj2 (proj2 (getSum_spec exampleList "toString"))); [reflexivity| |done].
    by apply is_inherited.
Defined.


(** ** Where the code departs from the specification *)


(** On a view emptied by a first [filterSelf], a view extent cached since
    then survives a second [filterSelf]: the call returns before the reset.
    Likewise a cached view extent survives [selectRange] with no range. *)
Lemma filterSelf_on_empty_view_keeps_extent_cache :
  (∃ l1 r h l2 l3,
     filterSelf exampleStringToNumber [] (λ _ _, false) exampleList = Some l1
     ∧ getDataExtent exampleStringToNumber exampleHeap l1 (DimName "x") = Some (r, h, l2)
     ∧ filterSelf exampleStringToNumber [] (λ _ _, true) l2 = Some l3
     ∧ _extent l3 ≠ ∅)
  ∧ (∃ r h l2 l3,
       getDataExtent exampleStringToNumber exampleHeap exampleFiltered (DimName "x")
         = Some (r, h, l2)
       ∧ selectRange [] l2 = Some l3
       ∧ _extent l3 ≠ ∅).
Proof.
  split.
  - eexists _, _, _, _, _. split_and!; [reflexivity | reflexivity | reflexivity |].
    vm_compute. discriminate.
  - eexists _, _, _, _. split_and!; [reflexivity | reflexivity |].
    vm_compute. discriminate.
Qed.

(* ================================================================== *)
(** * Further properties *)

(** ** Reading through the view *)

(** X1: at a logical position inside the view, [get] is [getByRawIndex] at
    the raw index [getRawIndex] translates it to. *)
Theorem get_is_getByRawIndex_of_getRawIndex (l : List) (dim : string) (i : nat) :
  wf_view l → raw_in_range l → (i < count l)%nat →
  ∃ r : nat, getRawIndex l (Z.of_nat i) = Some (Z.of_nat r)
    ∧ get l dim (Z.of_nat i) = getByRawIndex l dim (Z.of_nat r).
Proof.
  intros Hwf [Hin _] Hi. unfold count in Hi.
  destruct (lookup_lt_is_Some_2 (rawPositions l) i) as [r Hr].
  { by rewrite rawPositions_length. }
  exists r. rewrite getRawIndex_rawPositions, Hr by done. split; [done|].
  assert (r < _rawCount l)%nat as Hlt.
  { rewrite Forall_forall in Hin. apply Hin. by eapply list_elem_of_lookup_2. }
  unfold get, getByRawIndex.
  replace (0 <=? Z.of_nat i) with true by (symmetry; apply Z.leb_le; lia).
  replace (Z.of_nat i <? Z.of_nat (_count l)) with true by (symmetry; apply Z.ltb_lt; lia).
  replace (0 <=? Z.of_nat r) with true by (symmetry; apply Z.leb_le; lia).
  replace (Z.of_nat r <? Z.of_nat (_rawCount l)) with true
    by (symmetry; apply Z.ltb_lt; lia).
  simpl. destruct (storageOf l dim); [|done].
  by rewrite getRawIndex_rawPositions, Hr.
Qed.

(** X2: [getIndices] lists the raw index of every logical position, in
    order: it has [count] entries and entry [i] is [getRawIndex i]. *)
Theorem getIndices_lists_raw_indices (l : List) :
  wf_view l → raw_in_range l →
  ∃ indices, getIndices l = Some indices
    ∧ length indices = count l
    ∧ ∀ i : nat, (i < count l)%nat →
        getRawIndex l (Z.of_nat i) = Z.of_nat <$> indices !! i.
Proof.
  intros Hwf Hin. exists (rawPositions l).
  split_and!; [|by apply rawPositions_length|by intros; apply getRawIndex_rawPositions].
  destruct Hin as [Hin Hmax].
  unfold getIndices, rawPositions, wf_view, count in *.
  destruct (_indices l) as [indices|].
  - destruct Hwf as [_ Hlen].
    by replace (_count l <=? length indices)%nat with true
      by (symmetry; apply Nat.leb_le; lia).
  - f_equal. rewrite <- (storedIndex_fmap_in_range l (seq 0 (_count l))) at 2 by done.
    by rewrite <- list_fmap_compose.
Qed.

(** ** Reverse lookup and translation *)

Lemma indexOfRawIndex_with_indices (l : List) (indices : list nat) (r : nat) :
  wf_view l → Z.of_nat (_count l) ≤ 2 ^ 31 →
  StronglySorted Nat.lt (rawPositions l) →
  _indices l = Some indices → (r < _rawCount l)%nat →
  (∃ p : nat, indexOfRawIndex l (Z.of_nat r) = Some (Z.of_nat p)
      ∧ (p < _count l)%nat ∧ indices !! p = Some r)
  ∨ (indexOfRawIndex l (Z.of_nat r) = Some (-1)
     ∧ ∀ p : nat, (p < _count l)%nat → indices !! p ≠ Some r).
Proof.
  intros Hwf Hmax Hsorted Hi Hr. unfold indexOfRawIndex, wf_view, rawPositions in *.
  rewrite Hi in *. destruct Hwf as [_ Hlen].
  replace (Z.of_nat (_rawCount l) <=? Z.of_nat r) with false
    by (symmetry; apply Z.leb_gt; lia).
  replace (Z.of_nat r <? 0) with false by (symmetry; apply Z.ltb_ge; lia).
  cbn [orb]. cbv zeta.
  set (shortcut := match at_index indices (Z.of_nat r) with
                   | Some v => _ | None => false end).
  assert (shortcut = true → indices !! r = Some r ∧ (r < _count l)%nat) as Hshort.
  { unfold shortcut, at_index.
    replace (Z.of_nat r <? 0) with false by (symmetry; apply Z.ltb_ge; lia).
    rewrite Nat2Z.id. destruct (indices !! r) as [v|]; [|done].
    intros [H1%Z.ltb_lt H2%Z.eqb_eq]%andb_true_iff.
    split; [f_equal|]; lia. }
  destruct (indexOfRawIndex_search_spec (S (_count l)) indices (_count l) r 0
              (Z.of_nat (_count l) - 1))
    as [(p & Hp & Hpr & Hpi)|[Hm Hnone]]; [done|done|done|lia|lia|lia| |].
  - left. destruct shortcut.
    + destruct Hshort as [Hs1 Hs2]; [done|]. exists r. split_and!; [done|lia|done].
    + exists p. split_and!; [done|lia|done].
  - destruct shortcut.
    + destruct Hshort as [Hs1 Hs2]; [done|]. exfalso. apply (Hnone r); [lia|done].
    + right. split; [done|]. intros p Hp. apply Hnone. lia.
Qed.

(** X3: on an ascending view, [indexOfRawIndex] and [getRawIndex] are
    inverse to each other: the raw index of logical position [i] is found
    back at [i], and a position [indexOfRawIndex] returns, other than -1,
    translates to the raw index asked for. *)
Theorem indexOfRawIndex_inverts_getRawIndex (l : List) :
  wf_view l → raw_in_range l → Z.of_nat (_count l) ≤ 2 ^ 31 →
  StronglySorted Nat.lt (rawPositions l) →
  (∀ i : nat, (i < count l)%nat →
     ∃ r, getRawIndex l (Z.of_nat i) = Some r
       ∧ indexOfRawIndex l r = Some (Z.of_nat i))
  ∧ (∀ (r : nat) (p : Z), indexOfRawIndex l (Z.of_nat r) = Some p → p ≠ -1 →
       getRawIndex l p = Some (Z.of_nat r)).
Proof.
  intros Hwf [Hin Hrmax] Hmax Hsorted. rewrite Forall_forall in Hin. split.
  - intros i Hi. unfold count in Hi.
    destruct (lookup_lt_is_Some_2 (rawPositions l) i) as [r Hr].
    { by rewrite rawPositions_length. }
    exists (Z.of_nat r). rewrite getRawIndex_rawPositions, Hr by done.
    split; [done|].
    assert (r < _rawCount l)%nat as Hlt
      by (apply Hin; by eapply list_elem_of_lookup_2).
    destruct (_indices l) as [indices|] eqn:Ei.
    + destruct (indexOfRawIndex_with_indices l indices r Hwf Hmax Hsorted Ei Hlt)
        as [(p & -> & Hp & Hpi)|[_ Hnone]].
      * do 2 f_equal. unfold rawPositions in *. rewrite Ei in *.
        apply (StronglySorted_lookup_inj _ p i r Hsorted); [|done].
        by rewrite lookup_take_lt.
      * exfalso. apply (Hnone i Hi). unfold rawPositions in Hr. rewrite Ei in Hr.
        by rewrite lookup_take_lt in Hr.
    + unfold rawPositions in Hr. rewrite Ei in Hr. apply lookup_seq in Hr as [-> _].
      simpl in *. unfold indexOfRawIndex. rewrite Ei.
      replace (Z.of_nat (_rawCount l) <=? Z.of_nat i) with false
        by (symmetry; apply Z.leb_gt; lia).
      by replace (Z.of_nat i <? 0) with false by (symmetry; apply Z.ltb_ge; lia).
  - intros r p Hp Hne.
    destruct (decide (r < _rawCount l)%nat) as [Hlt|Hge].
    2:{ unfold indexOfRawIndex in Hp.
        replace (Z.of_nat (_rawCount l) <=? Z.of_nat r) with true in Hp
          by (symmetry; apply Z.leb_le; lia).
        simpl in Hp. congruence. }
    destruct (_indices l) as [indices|] eqn:Ei.
    + destruct (indexOfRawIndex_with_indices l indices r Hwf Hmax Hsorted Ei Hlt)
        as [(q & Hq & Hqc & Hqi)|[Hm _]]; [|congruence].
      assert (p = Z.of_nat q) as -> by congruence.
      rewrite getRawIndex_rawPositions by done.
      unfold rawPositions. rewrite Ei, lookup_take_lt, Hqi by done. done.
    + unfold indexOfRawIndex in Hp. rewrite Ei in Hp.
      replace (Z.of_nat (_rawCount l) <=? Z.of_nat r) with false in Hp
        by (symmetry; apply Z.leb_gt; lia).
      replace (Z.of_nat r <? 0) with false in Hp by (symmetry; apply Z.ltb_ge; lia).
      simpl in Hp. injection Hp as <-.
      unfold getRawIndex, wf_view in *. rewrite Ei in Hwf. by rewrite Hwf.
Qed.

(** ** The further properties on the example store *)

Lemma exampleFiltered_in_range : raw_in_range exampleFiltered.
Proof. split; [repeat constructor | done]. Defined.

Lemma exampleFiltered_sorted : StronglySorted Nat.lt (rawPositions exampleFiltered).
Proof. repeat constructor. Defined.

Lemma exampleFiltered_count_max : Z.of_nat (_count exampleFiltered) ≤ 2 ^ 31.
Proof. unfold exampleFiltered. simpl. lia. Defined.

Lemma get_is_getByRawIndex_of_getRawIndex_witness :
  ∃ r : nat, getRawIndex exampleFiltered 1 = Some (Z.of_nat r)
    ∧ get exampleFiltered "x" 1 = getByRawIndex exampleFiltered "x" (Z.of_nat r).
Proof.
  apply (get_is_getByRawIndex_of_getRawIndex exampleFiltered "x" 1
           exampleFiltered_wf exampleFiltered_in_range).
  unfold exampleFiltered. simpl. lia.
Defined.

Lemma getIndices_lists_raw_indices_witness :
  ∃ indices, getIndices exampleFiltered = Some indices
    ∧ length indices = count exampleFiltered
    ∧ ∀ i : nat, (i < count exampleFiltered)%nat →
        getRawIndex exampleFiltered (Z.of_nat i) = Z.of_nat <$> indices !! i.
Proof.
  exact (getIndices_lists_raw_indices exampleFiltered exampleFiltered_wf
           exampleFiltered_in_range).
Defined.

Lemma indexOfRawIndex_inverts_getRawIndex_witness :
  ∃ r, getRawIndex exampleFiltered 1 = Some r
    ∧ indexOfRawIndex exampleFiltered r = Some 1.
Proof.
  apply (proj1 (indexOfRawIndex_inverts_getRawIndex exampleFiltered
                  exampleFiltered_wf exampleFiltered_in_range
                  exampleFiltered_count_max exampleFiltered_sorted) 1%nat).
  unfold exampleFiltered. simpl. lia.
Defined.

(** ** Sequences of filtering calls *)

Lemma filtering_step StringToNumber c (l l' : List) :
  wf_view l → raw_in_range l →
  runFilterCall StringToNumber c l = Some l' →
  wf_view l' ∧ raw_in_range l'
  ∧ sublist (rawPositions l') (rawPositions l)
  ∧ _rawCount l' = _rawCount l.
Proof.
  intros Hwf Hin Hc.
  assert (l' = l ∨ ∃ keep, l' = installView l (_count l)
              (foldl (pushIndex (getIndicesCtor l)) (newIndicesArray (_count l), 0%nat)
                 (Z.of_nat <$> retainedRows keep l))) as Hl'.
  { destruct c as [dims cb|range]; simpl in Hc.
    - destruct (filterSelf_Some _ _ _ _ _ Hwf Hc) as [[_ ->]|[_ ->]]; eauto.
    - destruct (selectRange_Some _ _ _ Hwf Hc) as [[_ ->]|(_ & _ & keep & ->)]; eauto. }
  destruct (filtering_visible_rows l l' Hwf Hin Hl') as [Hwf' Hsub].
  assert (_rawCount l' = _rawCount l) as Hrc by (by destruct Hl' as [->|[keep ->]]).
  split_and!; [done| |done|done].
  destruct Hin as [Hin Hmax]. unfold raw_in_range. rewrite Hrc. split; [|done].
  rewrite Forall_forall in *. intros r Hr. apply Hin. by eapply elem_of_sublist.
Qed.

Lemma runFilterCalls_invariants StringToNumber cs (l l' : List) :
  wf_view l → raw_in_range l →
  runFilterCalls StringToNumber cs l = Some l' →
  wf_view l' ∧ raw_in_range l'
  ∧ sublist (rawPositions l') (rawPositions l)
  ∧ _rawCount l' = _rawCount l.
Proof.
  revert l. induction cs as [|c cs IH]; intros l Hwf Hin Hrun; simpl in Hrun.
  - injection Hrun as <-. by split_and!.
  - destruct (runFilterCall StringToNumber c l) as [l1|] eqn:Hc; [|done].
    simpl in Hrun.
    destruct (filtering_step _ _ _ _ Hwf Hin Hc) as (Hwf1 & Hin1 & Hsub1 & Hrc1).
    destruct (IH l1 Hwf1 Hin1 Hrun) as (Hwf' & Hin' & Hsub' & Hrc').
    split_and!; [done|done|by etrans|congruence].
Qed.

Lemma sublist_seq_sorted (rs : list nat) (n : nat) :
  sublist rs (seq 0 n) → StronglySorted Nat.lt rs.
Proof.
  intros Hsub. pose proof (seq_sorted 0 n) as Hs. revert Hs Hsub.
  generalize (seq 0 n). intros full Hs. revert rs.
  induction Hs as [|x full Hs IH Hx]; intros rs Hsub.
  - apply sublist_nil_r in Hsub as ->. constructor.
  - apply sublist_cons_r in Hsub as [Hsub|(rs' & -> & Hsub)]; [by apply IH|].
    constructor; [by apply IH|].
    rewrite Forall_forall in *. intros y Hy. apply Hx. by eapply elem_of_sublist.
Qed.

(** X4: whatever [filterSelf] and [selectRange] calls are made on a store
    that has just been ingested (no index array, every raw row visible),
    the view that results lists raw positions of the store in strictly
    ascending order, each at most once and none that was not there: it is
    a subsequence of [0, 1, ..., rawCount - 1], its index array covers
    [count], and [count] has not grown. *)
Theorem filter_calls_keep_view_ascending StringToNumber cs (l l' : List) :
  _indices l = None → rawIndexGetter l = WithoutIndices →
  _count l = _rawCount l → Z.of_nat (_rawCount l) ≤ 2 ^ 32 →
  runFilterCalls StringToNumber cs l = Some l' →
  wf_view l'
  ∧ sublist (rawPositions l') (seq 0 (_rawCount l))
  ∧ StronglySorted Nat.lt (rawPositions l')
  ∧ (count l' ≤ count l)%nat
  ∧ _rawCount l' = _rawCount l.
Proof.
  intros Hi Hg Hc Hmax Hrun.
  destruct (unfiltered_store_invariants l Hi Hg Hc Hmax) as (Hwf & Hin & _).
  destruct (runFilterCalls_invariants _ _ _ _ Hwf Hin Hrun) as (Hwf' & _ & Hsub & Hrc).
  assert (rawPositions l = seq 0 (_rawCount l)) as Hrp
    by (unfold rawPositions; by rewrite Hi, Hc).
  rewrite Hrp in Hsub. split_and!; [done|done| | |done].
  - by eapply sublist_seq_sorted.
  - unfold count. rewrite <- (rawPositions_length l' Hwf'), Hc.
    apply sublist_length in Hsub. by rewrite length_seq in Hsub.
Qed.

Lemma filter_calls_keep_view_ascending_witness :
  ∃ l', runFilterCalls exampleStringToNumber
          [CallFilterSelf [DimName "x"] exampleCb;
           CallSelectRange [("y"%string, (num 20, num 40))]] exampleList = Some l'
    ∧ StronglySorted Nat.lt (rawPositions l')
    ∧ (count l' ≤ count exampleList)%nat.
Proof.
  eexists. split; [reflexivity|].
  destruct (filter_calls_keep_view_ascending exampleStringToNumber
              [CallFilterSelf [DimName "x"] exampleCb;
               CallSelectRange [("y"%string, (num 20, num 40))]]
              exampleList _ eq_refl eq_refl eq_refl ltac:(simpl; lia) eq_refl)
    as (_ & _ & Hs & Hc & _).
  split; [exact Hs | exact Hc].
Defined.

(** ** Composition of filters *)

Lemma retainedFrom_filter (keep : nat → nat → bool) (i : nat) (rs : list nat) :
  (∀ i j r, keep i r = keep j r) →
  retainedFrom keep i rs = filter (λ r, keep 0%nat r = true) rs.
Proof.
  intros Hkeep. revert i. induction rs as [|r rs IH]; intros i; [done|].
  simpl. rewrite filter_cons, (Hkeep i 0%nat), IH.
  destruct (keep 0%nat r) eqn:E.
  - by rewrite decide_True.
  - by rewrite decide_False by congruence.
Qed.

Lemma filterValues_ext (l l' : List) dimNames r :
  _storage l' = _storage l → _chunkSize l' = _chunkSize l →
  filterValues l' dimNames r = filterValues l dimNames r.
Proof.
  intros Hs Hc. unfold filterValues, _getFast, storageOf. by rewrite Hs, Hc.
Qed.

Lemma getDimension_ext StringToNumber (l l' : List) dim :
  dimensions l' = dimensions l → _dimensionInfos l' = _dimensionInfos l →
  getDimension StringToNumber l' dim = getDimension StringToNumber l dim.
Proof. intros Hd Hi. unfold getDimension. by rewrite Hd, Hi. Qed.

(** What [filterSelf] leaves in view, and what it does not touch. *)
Lemma filterSelf_rows StringToNumber dims cb (l l' : List) :
  wf_view l → raw_in_range l →
  filterSelf StringToNumber dims cb l = Some l' →
  rawPositions l' =
    retainedRows (filterKeep l (getDimension StringToNumber l <$> dims) cb) l
  ∧ wf_view l' ∧ raw_in_range l'
  ∧ _storage l' = _storage l ∧ _chunkSize l' = _chunkSize l
  ∧ dimensions l' = dimensions l ∧ _dimensionInfos l' = _dimensionInfos l.
Proof.
  intros Hwf Hin Hf.
  destruct (filterSelf_Some _ _ _ _ _ Hwf Hf) as [[H0 ->]|[_ ->]].
  - unfold retainedRows. rewrite (rawPositions_empty l Hwf H0). by split_and!.
  - destruct (filtered_rawPositions l
                (filterKeep l (getDimension StringToNumber l <$> dims) cb) Hwf Hin)
      as [Hrp Hwf'].
    split_and!; try done.
    destruct Hin as [Hin Hmax]. unfold raw_in_range. rewrite Hrp.
    split; [by apply retainedFrom_Forall|done].
Qed.

(** [get] is determined by the visible raw positions and the chunks. *)
Lemma get_ext (a b : List) dim idx :
  wf_view a → wf_view b → rawPositions a = rawPositions b →
  _storage a = _storage b → _chunkSize a = _chunkSize b →
  get a dim idx = get b dim idx.
Proof.
  intros Hwa Hwb Hrp Hs Hc.
  assert (_count a = _count b) as Hcount.
  { by rewrite <- (rawPositions_length a Hwa), <- (rawPositions_length b Hwb), Hrp. }
  unfold get. rewrite Hcount, (storageOf_same b a dim Hs), Hc.
  destruct (0 <=? idx) eqn:E0; [|done].
  destruct (idx <? Z.of_nat (_count b)) eqn:E1; [|done].
  apply Z.leb_le in E0. apply Z.ltb_lt in E1. simpl.
  destruct (storageOf b dim); [|done].
  rewrite <- (Z2Nat.id idx) by done.
  by rewrite !getRawIndex_rawPositions, Hrp by (done || lia).
Qed.

(** X5: two [filterSelf] calls whose callbacks do not look at the logical
    index commute: made in either order (on any dimensions), they leave
    the same rows in view, in the same order, and [get] reads the same
    values afterwards. *)
Theorem filterSelf_commutes StringToNumber dims1 cb1 dims2 cb2
    (l l1 l12 l2 l21 : List) :
  wf_view l → raw_in_range l →
  (∀ v i j, cb1 v i = cb1 v j) → (∀ v i j, cb2 v i = cb2 v j) →
  filterSelf StringToNumber dims1 cb1 l = Some l1 →
  filterSelf StringToNumber dims2 cb2 l1 = Some l12 →
  filterSelf StringToNumber dims2 cb2 l = Some l2 →
  filterSelf StringToNumber dims1 cb1 l2 = Some l21 →
  rawPositions l12 = rawPositions l21
  ∧ count l12 = count l21
  ∧ ∀ dim idx, get l12 dim idx = get l21 dim idx.
Proof.
  intros Hwf Hin Hcb1 Hcb2 H1 H12 H2 H21.
  destruct (filterSelf_rows _ _ _ _ _ Hwf Hin H1)
    as (Hr1 & Hwf1 & Hin1 & Hs1 & Hc1 & Hd1 & Hi1).
  destruct (filterSelf_rows _ _ _ _ _ Hwf1 Hin1 H12)
    as (Hr12 & Hwf12 & _ & Hs12 & Hc12 & _).
  destruct (filterSelf_rows _ _ _ _ _ Hwf Hin H2)
    as (Hr2 & Hwf2 & Hin2 & Hs2 & Hc2 & Hd2 & Hi2).
  destruct (filterSelf_rows _ _ _ _ _ Hwf2 Hin2 H21)
    as (Hr21 & Hwf21 & _ & Hs21 & Hc21 & _).
  set (dn1 := getDimension StringToNumber l <$> dims1).
  set (dn2 := getDimension StringToNumber l <$> dims2).
  assert (getDimension StringToNumber l1 <$> dims2 = dn2) as Hdn2.
  { apply list_fmap_ext. intros _ d _. by apply getDimension_ext. }
  assert (getDimension StringToNumber l2 <$> dims1 = dn1) as Hdn1.
  { apply list_fmap_ext. intros _ d _. by apply getDimension_ext. }
  assert (∀ (a : List) dn cb, _storage a = _storage l → _chunkSize a = _chunkSize l →
            (∀ v i j, cb v i = cb v j) →
            ∀ rs, retainedFrom (filterKeep a dn cb) 0 rs =
                  filter (λ r, filterKeep l dn cb 0 r = true) rs) as Hfilter.
  { intros a dn cb Hsa Hca Hcb rs. rewrite retainedFrom_filter.
    - apply list_filter_iff. intros r. unfold filterKeep.
      by rewrite (filterValues_ext l a).
    - intros i j r. unfold filterKeep. destruct (filterValues a dn _); [apply Hcb|done]. }
  assert (rawPositions l12 = rawPositions l21) as Hrp.
  { rewrite Hr12, Hr21. unfold retainedRows.
    rewrite Hdn1, Hdn2, Hr1, Hr2. unfold retainedRows.
    rewrite !Hfilter by done. rewrite !list_filter_filter.
    apply list_filter_iff. intros r. tauto. }
  split_and!; [done| |].
  - unfold count.
    by rewrite <- (rawPositions_length l12 Hwf12), <- (rawPositions_length l21 Hwf21), Hrp.
  - intros dim idx. apply get_ext; [done|done|done|congruence|congruence].
Qed.

Lemma filterSelf_commutes_witness :
  ∃ l12 l21,
    filterSelf exampleStringToNumber [DimName "y"] exampleCbSmall exampleFiltered
      = Some l12
    ∧ (filterSelf exampleStringToNumber [DimName "y"] exampleCbSmall exampleList
         ≫= filterSelf exampleStringToNumber [DimName "x"] exampleCb) = Some l21
    ∧ rawPositions l12 = rawPositions l21.
Proof.
  eexists _, _. split; [reflexivity|]. split; [reflexivity|].
  refine (proj1 (filterSelf_commutes exampleStringToNumber
                   [DimName "x"] exampleCb [DimName "y"] exampleCbSmall
                   exampleList exampleFiltered _ _ _
                   exampleList_wf exampleList_in_range _ _
                   exampleFiltered_is eq_refl eq_refl eq_refl)).
  - intros v i j. reflexivity.
  - intros v i j. reflexivity.
Defined.

(** ** The rows [selectRange] leaves in view *)

Lemma inRangeOrNaN_not_outOfRange (min max : number) (val : value) :
  inRangeOrNaN min max val = true → outOfRange min max val = false.
Proof.
  unfold inRangeOrNaN, outOfRange, JS.ge, JS.le, JS.lt, JS.gt, SFleb, SFltb.
  generalize (ToNumber val). intros v.
  rewrite (SFcompare_swap v min), (SFcompare_swap v max).
  destruct v as [sv|sv| |sv mv ev]; [| |by destruct min, max|].
  all: destruct (SFcompare _ min) as [[]|] eqn:E1;
    destruct (SFcompare _ max) as [[]|] eqn:E2; simpl; try done.
Qed.

Lemma retainedRows_filter (l : List) (keep : nat → nat → bool) (k : nat → bool) :
  wf_view l → (∀ i r, (i < _count l)%nat → keep i r = k r) →
  retainedRows keep l = filter (λ r, k r = true) (rawPositions l).
Proof.
  intros Hwf Hk. unfold retainedRows.
  rewrite (retainedFrom_ext keep (λ _ r, k r)); [by apply retainedFrom_filter|].
  intros j r Hj%lookup_lt_Some. apply Hk. by rewrite rawPositions_length in Hj.
Qed.

Lemma rangeKeepAll_true (l : List) (range : Range) (r : nat) :
  rangeKeepAll l range r = true ↔
  ∀ dim min max, (dim, (min, max)) ∈ range →
    ∃ v, _getFast l dim (Z.of_nat r) = Some v ∧ inRangeOrNaN min max v = true.
Proof.
  unfold rangeKeepAll. rewrite forallb_forall. split.
  - intros H dim min max Hin%list_elem_of_In. specialize (H _ Hin).
    unfold rangeKeep in H. simpl in H.
    destruct (_getFast l dim (Z.of_nat r)) as [v|]; [by exists v|done].
  - intros H [dim [min max]] Hin%list_elem_of_In.
    destruct (H _ _ _ Hin) as (v & Hv & Hr). unfold rangeKeep. simpl. by rewrite Hv.
Qed.

Lemma selectRange_keep_true (l : List) (range : Range) (z : Z) (b : bool) :
  selectRange_keep l range z b = Some true ↔
  b = true
  ∧ ∀ dim min max, (dim, (min, max)) ∈ range →
      ∃ v, _getFast l dim z = Some v ∧ outOfRange min max v = false.
Proof.
  revert b. induction range as [|[dim [min max]] range IH]; intros b; simpl.
  - split.
    + intros [= ->]. split; [done|]. intros ??? H. by apply elem_of_nil in H.
    + by intros [-> _].
  - destruct (_getFast l dim z) as [v|] eqn:Ev; simpl.
    + rewrite IH. split.
      * intros [Hb Hrest]. destruct (outOfRange min max v) eqn:Eo; [done|].
        split; [done|]. intros d mn mx [[= -> -> ->]|Hin]%elem_of_cons; [by exists v|].
        by apply Hrest.
      * intros [-> Hall]. destruct (Hall dim min max) as (v' & Hv' & Ho); [left|].
        assert (v' = v) as -> by congruence. rewrite Ho. split; [done|].
        intros d mn mx Hin. apply Hall. by right.
    + split; [done|]. intros [_ Hall].
      destruct (Hall dim min max) as (v' & Hv' & _); [left|congruence].
Qed.

Lemma rangeKeepN_rangeKeepAll (l : List) (range : Range) (r : nat) :
  (∀ dim min max, (dim, (min, max)) ∈ range → isNaN min = false ∧ isNaN max = false) →
  rangeKeepN l range r = rangeKeepAll l range r.
Proof.
  intros Hb. unfold rangeKeepN, rangeKeepAll.
  assert (∀ b, default false (selectRange_keep l range (Z.of_nat r) b) =
               b && forallb (λ e : string * (number * number),
                               rangeKeep l e.1 e.2.1 e.2.2 r) range) as H.
  2:{ by rewrite H. }
  induction range as [|[dim [min max]] range IH]; intros b; simpl.
  - by rewrite andb_true_r.
  - destruct (Hb dim min max) as [Hmin Hmax]; [left|].
    unfold rangeKeep at 1. simpl.
    destruct (_getFast l dim (Z.of_nat r)) as [v|]; simpl; [|by rewrite andb_false_r].
    rewrite IH by (intros d mn mx Hin; apply (Hb d); by right).
    rewrite inRangeOrNaN_outOfRange by done.
    by destruct (outOfRange min max v), b.
Qed.

(** The decision each of the four loops of [selectRange] takes on a row:
    the loop for any number of dimensions runs on three dimensions or
    more, and on two when there is an index array. *)
Lemma selectRange_rows range (l l' : List) :
  wf_view l → raw_in_range l →
  (_indices l = None → (_count l ≤ _chunkCount l * _chunkSize l)%nat) →
  _count l ≠ 0%nat → range ≠ [] →
  selectRange range l = Some l' →
  ∃ (k : nat → bool) (w : IndexWriter),
    l' = installView l (_count l) w
    ∧ rawPositions l' = filter (λ r, k r = true) (rawPositions l)
    ∧ ((¬ ((is_Some (_indices l) ∧ 2 ≤ length range) ∨ 3 ≤ length range)%nat
        ∧ ∀ r, k r = rangeKeepAll l range r)
       ∨ (((is_Some (_indices l) ∧ 2 ≤ length range) ∨ 3 ≤ length range)%nat
          ∧ ∀ r, k r = rangeKeepN l range r)).
Proof.
  intros Hwf Hin Hcover H0 Hne. unfold selectRange, count.
  destruct (Nat.eqb_spec (_count l) 0) as [?|_]; [done|].
  destruct range as [|[dim0 [min max]] rest]; [done|]. intros H.
  assert (∀ keep k w,
            w = foldl (pushIndex (getIndicesCtor l)) (newIndicesArray (_count l), 0%nat)
                  (Z.of_nat <$> retainedRows keep l) →
            (∀ i r, (i < _count l)%nat → keep i r = k r) →
            rawPositions (installView l (_count l) w)
            = filter (λ r, k r = true) (rawPositions l)) as Hview.
  { intros keep k w -> Hk.
    destruct (filtered_rawPositions l keep Hwf Hin) as [-> _].
    by apply retainedRows_filter. }
  assert (∀ i, (i < _count l)%nat → _indices l = None → inChunks l i = true) as Hchunks.
  { intros i Hi Hnone. apply Nat.ltb_lt. specialize (Hcover Hnone). lia. }
  destruct (_indices l) as [indices|] eqn:Hi.
  - destruct rest as [|e rest].
    + destruct (selectRange_generic1 l dim0 min max) as [w|] eqn:E; [|done].
      simpl in H. injection H as <-.
      exists (rangeKeep l dim0 min max), w. split_and!; [done| |].
      * apply (Hview (λ _, rangeKeep l dim0 min max)); [|done].
        by apply selectRange_generic1_kept.
      * left. split; [simpl; lia|].
        intros r. unfold rangeKeepAll. simpl. by rewrite andb_true_r.
    + destruct (selectRange_genericN l _) as [w|] eqn:E; [|done].
      simpl in H. injection H as <-.
      exists (rangeKeepN l ((dim0, (min, max)) :: e :: rest)), w.
      split_and!; [done| |right; split; [left; split; [by eexists|simpl; lia]|done]].
      apply (Hview (λ _, rangeKeepN l ((dim0, (min, max)) :: e :: rest))); [|done].
      by apply selectRange_genericN_kept.
  - destruct rest as [|[dim1 [min2 max2]] [|e rest]].
    + destruct (selectRange_fast1 l dim0 min max) as [w|] eqn:E; [|done].
      simpl in H. injection H as <-.
      exists (rangeKeep l dim0 min max), w. split_and!; [done| |].
      * apply (Hview (λ i r, inChunks l i && rangeKeep l dim0 min max r)).
        -- by apply selectRange_fast1_kept.
        -- intros i r Hlt. by rewrite Hchunks.
      * left. split; [simpl; intros [[[? ?] _]|?]; [done|lia]|].
        intros r. unfold rangeKeepAll. simpl. by rewrite andb_true_r.
    + destruct (selectRange_fast2 l dim0 dim1 min max min2 max2) as [w|] eqn:E; [|done].
      simpl in H. injection H as <-.
      exists (λ r, rangeKeep l dim0 min max r && rangeKeep l dim1 min2 max2 r), w.
      split_and!; [done| |].
      * apply (Hview (λ i r, inChunks l i
                             && (rangeKeep l dim0 min max r
                                 && rangeKeep l dim1 min2 max2 r))).
        -- by apply selectRange_fast2_kept.
        -- intros i r Hlt. by rewrite Hchunks.
      * left. split; [simpl; intros [[[? ?] _]|?]; [done|lia]|].
        intros r. unfold rangeKeepAll. simpl. by rewrite andb_true_r.
    + destruct (selectRange_genericN l _) as [w|] eqn:E; [|done].
      simpl in H. injection H as <-.
      eexists (rangeKeepN l _), w.
      split_and!; [done| |right; split; [right; simpl; lia|done]].
      apply (Hview (λ _, rangeKeepN l
                           ((dim0, (min, max)) :: (dim1, (min2, max2)) :: e :: rest)));
        [|done].
      by apply selectRange_genericN_kept.
Qed.

(** X6: the view [selectRange] leaves, whichever of its four loops runs
    (the chunks covering the rows when there is no index array).  A
    visible row whose value is within the bounds, or NaN, on every
    dimension of the range stays visible; no row that stays is out of
    range on any of them; and when no bound is NaN the new view is exactly
    the old one restricted to the rows within bounds or NaN. *)
Theorem selectRange_view range (l l' : List) :
  wf_view l → raw_in_range l →
  (_indices l = None → (_count l ≤ _chunkCount l * _chunkSize l)%nat) →
  selectRange range l = Some l' →
  (∀ r, r ∈ rawPositions l →
     (∀ dim min max, (dim, (min, max)) ∈ range →
        ∃ v, _getFast l dim (Z.of_nat r) = Some v ∧ inRangeOrNaN min max v = true) →
     r ∈ rawPositions l')
  ∧ (∀ r dim min max, r ∈ rawPositions l' → (dim, (min, max)) ∈ range →
       ∃ v, _getFast l dim (Z.of_nat r) = Some v ∧ outOfRange min max v = false)
  ∧ ((∀ dim min max, (dim, (min, max)) ∈ range →
        isNaN min = false ∧ isNaN max = false) →
     rawPositions l' = filter (λ r, rangeKeepAll l range r = true) (rawPositions l)).
Proof.
  intros Hwf Hin Hcover Hsel.
  destruct (decide (_count l = 0%nat)) as [H0|H0].
  { destruct (selectRange_Some _ _ _ Hwf Hsel) as [[_ ->]|(? & _)]; [|done].
    rewrite (rawPositions_empty l Hwf H0). split_and!; [done| |done].
    intros r ??? Hr. by apply elem_of_nil in Hr. }
  destruct (decide (range = [])) as [->|Hne].
  { destruct (selectRange_Some _ _ _ Hwf Hsel) as [[_ ->]|(_ & ? & _)]; [|done].
    split_and!; [done| |].
    - intros r ???? He. by apply elem_of_nil in He.
    - intros _. induction (rawPositions l) as [|r rs IH]; [done|].
      rewrite filter_cons_True by done. by f_equal. }
  destruct (selectRange_rows _ _ _ Hwf Hin Hcover H0 Hne Hsel)
    as (k & w & _ & Hrp & Hpath).
  assert ((∀ r, k r = rangeKeepAll l range r) ∨ (∀ r, k r = rangeKeepN l range r)) as Hk
    by (destruct Hpath as [[_ ?]|[_ ?]]; auto).
  rewrite Hrp. split_and!.
  - intros r Hr Hrow. apply list_elem_of_filter. split; [|done].
    destruct Hk as [Hk|Hk]; rewrite Hk.
    + by apply rangeKeepAll_true.
    + unfold rangeKeepN.
      rewrite (proj2 (selectRange_keep_true l range (Z.of_nat r) true)); [done|].
      split; [done|]. intros dim min max He.
      destruct (Hrow _ _ _ He) as (v & Hv & Hr'). exists v.
      split; [done|]. by apply inRangeOrNaN_not_outOfRange.
  - intros r dim min max [Hkr _]%list_elem_of_filter He.
    destruct Hk as [Hk|Hk]; rewrite Hk in Hkr.
    + destruct (proj1 (rangeKeepAll_true l range r) Hkr _ _ _ He) as (v & Hv & Hr').
      exists v. split; [done|]. by apply inRangeOrNaN_not_outOfRange.
    + unfold rangeKeepN in Hkr.
      destruct (selectRange_keep l range (Z.of_nat r) true) as [[]|] eqn:E; try done.
      by apply (proj1 (selectRange_keep_true l range (Z.of_nat r) true) E).
  - intros Hb. apply list_filter_iff. intros r.
    destruct Hk as [Hk|Hk]; rewrite Hk; [done|].
    by rewrite rangeKeepN_rangeKeepAll.
Qed.

Lemma selectRange_view_witness :
  ∃ l', selectRange [("x"%string, (num 1, num 2)); ("y"%string, (num 5, num 15))]
          exampleList = Some l'
    ∧ rawPositions l' = [0; 1]%nat.
Proof.
  eexists. split; [reflexivity|].
  refine (proj2 (proj2 (selectRange_view
           [("x"%string, (num 1, num 2)); ("y"%string, (num 5, num 15))]
           exampleList _ exampleList_wf exampleList_in_range _ eq_refl)) _).
  - intros _. simpl. lia.
  - intros dim min max
      [[= -> -> ->]|[[= -> -> ->]|H%elem_of_nil]%elem_of_cons]%elem_of_cons;
      [split; reflexivity | split; reflexivity | destruct H].
Defined.

(** ** When [filterSelf] throws *)

Lemma keptRows_None (row : nat → option (Z * bool)) from n :
  keptRows row from n = None ↔ ∃ i, (from ≤ i < from + n)%nat ∧ row i = None.
Proof.
  revert from. induction n as [|n IH]; intros from; simpl.
  - split; [done|]. intros (i & Hi & _). lia.
  - destruct (row from) as [[r k]|] eqn:E; simpl.
    + destruct (keptRows row (S from) n) as [rest|] eqn:E2; simpl.
      * split; [done|]. intros (i & Hi & Hn).
        destruct (decide (i = from)) as [->|Hne]; [congruence|].
        assert (keptRows row (S from) n = None) as Hk; [|congruence].
        apply IH. exists i. split; [lia|done].
      * split; [|done]. intros _. apply IH in E2 as (i & Hi & Hn).
        exists i. split; [lia|done].
    + split; [|done]. intros _. exists from. split; [lia|done].
Qed.

Lemma mapM_const_None {A B : Type} (x : option B) (xs : list A) :
  mapM (λ _ : A, x) xs = None ↔ xs ≠ [] ∧ x = None.
Proof.
  destruct x as [b|].
  - split; [|by intros [_ ?]]. intros H. exfalso.
    assert (is_Some (mapM (λ _ : A, Some b) xs)) as [? ?]; [|congruence].
    apply mapM_is_Some. apply Forall_forall. by eexists.
  - destruct xs; [by split; [|intros [? _]]|]. by split.
Qed.

Lemma filterValues_None (l : List) (dimNames : list string) (z : Z) :
  filterValues l dimNames z = None ↔
  ∃ dim0 rest, dimNames = dim0 :: rest ∧ _getFast l dim0 z = None.
Proof.
  unfold filterValues. destruct dimNames as [|dim0 [|dim1 rest]].
  - split; [done|]. by intros (? & ? & ? & _).
  - destruct (_getFast l dim0 z) eqn:E; simpl.
    + split; [done|]. intros (? & ? & [= <- <-] & ?). congruence.
    + split; [|done]. intros _. by exists dim0, [].
  - rewrite mapM_const_None. split.
    + intros [_ H]. by exists dim0, (dim1 :: rest).
    + intros (? & ? & [= <- <-] & ?). by split.
Qed.

Lemma filterSelf_throwing_returns StringToNumber dims (cb : FilterCbThrowing)
    (cb' : FilterCb) (l : List) :
  (∀ value i, cb value i = Some (cb' value i)) →
  filterSelf_throwing StringToNumber dims cb l = filterSelf StringToNumber dims cb' l.
Proof.
  intros Hcb. unfold filterSelf_throwing, filterSelf.
  destruct (Nat.eqb (_count l) 0); [done|]. cbv zeta.
  rewrite (for_loop_ext _
             (filterSelf_body l (getDimension StringToNumber l <$> dims) cb'
                (getIndicesCtor l))); [done|].
  intros i w _. unfold filterSelf_body_throwing, filterSelf_body.
  destruct (getRawIndex l (Z.of_nat i)) as [r|]; [|done]. simpl.
  destruct (filterValues l _ r) as [value|]; [|done]. simpl.
  by rewrite Hcb.
Qed.

(** X7: [filterSelf] throws exactly when, at some visible row, the first
    dimension named cannot be read (it is not stored, or the row's chunk
    is missing) or the callback throws on the values read there and the
    logical index.  With a callback that returns at every row, the call
    throws exactly when a dimension is named and the first one named
    cannot be read at some visible row; the other dimensions named play
    no part in it. *)
Theorem filterSelf_throws_iff StringToNumber dims (cb : FilterCbThrowing) (l : List) :
  wf_view l →
  let dimNames := getDimension StringToNumber l <$> dims in
  (filterSelf_throwing StringToNumber dims cb l = None ↔
   ∃ i r, rawPositions l !! i = Some r
     ∧ ((∃ dim0 rest, dimNames = dim0 :: rest ∧ _getFast l dim0 (Z.of_nat r) = None)
        ∨ ∃ value, filterValues l dimNames (Z.of_nat r) = Some value
                   ∧ cb value i = None))
  ∧ ((∀ value i, is_Some (cb value i)) →
     filterSelf_throwing StringToNumber dims cb l
       = filterSelf StringToNumber dims (λ value i, default false (cb value i)) l
     ∧ (filterSelf_throwing StringToNumber dims cb l = None ↔
        ∃ dim0 rest r, dimNames = dim0 :: rest ∧ r ∈ rawPositions l
          ∧ _getFast l dim0 (Z.of_nat r) = None)).
Proof.
  intros Hwf dimNames.
  assert (filterSelf_throwing StringToNumber dims cb l = None ↔
          ∃ i r, rawPositions l !! i = Some r
            ∧ ((∃ dim0 rest, dimNames = dim0 :: rest
                             ∧ _getFast l dim0 (Z.of_nat r) = None)
               ∨ ∃ value, filterValues l dimNames (Z.of_nat r) = Some value
                          ∧ cb value i = None)) as Hiff.
  { unfold filterSelf_throwing, count. fold dimNames.
    destruct (Nat.eqb_spec (_count l) 0) as [H0|H0].
    { split; [done|]. intros (i & r & Hr & _).
      rewrite (rawPositions_empty l Hwf H0) in Hr. by rewrite lookup_nil in Hr. }
    cbv zeta.
    rewrite (filter_loop_spec (getIndicesCtor l)
      (λ i, rawIdx ← getRawIndex l (Z.of_nat i);
            value ← filterValues l dimNames rawIdx;
            keep ← cb value i;
            Some (rawIdx, keep))).
    2:{ intros i w' _. unfold filterSelf_body_throwing.
        destruct (getRawIndex l (Z.of_nat i)) as [r|]; [|done]. simpl.
        destruct (filterValues l _ r) as [value|]; [|done]. simpl.
        by destruct (cb value i). }
    set (row := λ i : nat, _).
    assert (∀ i r, rawPositions l !! i = Some r →
              row i = None ↔
              (∃ dim0 rest, dimNames = dim0 :: rest
                            ∧ _getFast l dim0 (Z.of_nat r) = None)
              ∨ ∃ value, filterValues l dimNames (Z.of_nat r) = Some value
                         ∧ cb value i = None) as Hrow.
    { intros i r Hr. unfold row.
      rewrite getRawIndex_rawPositions, Hr
        by (done || (apply lookup_lt_Some in Hr; by rewrite rawPositions_length in Hr)).
      simpl. rewrite <- filterValues_None.
      destruct (filterValues l dimNames (Z.of_nat r)) as [value|]; simpl.
      - destruct (cb value i) as [keep|] eqn:Ecb; simpl.
        + split; [done|]. intros [?|(v & [= <-] & ?)]; congruence.
        + split; [|done]. intros _. right. by exists value.
      - split; [|done]. intros _. by left. }
    trans (keptRows row 0 (_count l) = None).
    { by destruct (keptRows row 0 (_count l)). }
    rewrite keptRows_None. split.
    - intros (i & Hi & Hn).
      destruct (lookup_lt_is_Some_2 (rawPositions l) i) as [r Hr].
      { rewrite rawPositions_length by done. lia. }
      exists i, r. split; [done|]. by apply (Hrow i r Hr).
    - intros (i & r & Hr & Hcase). exists i. split.
      + apply lookup_lt_Some in Hr. rewrite rawPositions_length in Hr by done. lia.
      + by apply (Hrow i r Hr). }
  split; [done|]. intros Hreturns.
  split.
  - apply filterSelf_throwing_returns. intros value i.
    by destruct (Hreturns value i) as [keep ->].
  - rewrite Hiff. split.
    + intros (i & r & Hr & [(dim0 & rest & Hd & Hg)|(value & _ & Hthrow)]).
      * exists dim0, rest, r. split_and!; [done| |done]. by eapply list_elem_of_lookup_2.
      * destruct (Hreturns value i) as [keep Hk]. congruence.
    + intros (dim0 & rest & r & Hd & [i Hi]%list_elem_of_lookup_1 & Hg).
      exists i, r. split; [done|]. left. by exists dim0, rest.
Qed.

Lemma filterSelf_throws_iff_witness :
  filterSelf_throwing exampleStringToNumber [DimName "z"]
    (λ value i, Some (exampleCb value i)) exampleList = None
  ∧ filterSelf_throwing exampleStringToNumber [DimName "x"] (λ _ _, None)
      exampleList = None.
Proof.
  split.
  - apply (proj1 (filterSelf_throws_iff exampleStringToNumber [DimName "z"]
                    (λ value i, Some (exampleCb value i)) exampleList exampleList_wf)).
    exists 0%nat, 0%nat. split; [reflexivity|]. left.
    by exists "z"%string, [].
  - apply (proj1 (filterSelf_throws_iff exampleStringToNumber [DimName "x"]
                    (λ _ _, None) exampleList exampleList_wf)).
    exists 0%nat, 0%nat. split; [reflexivity|]. right.
    by exists [Num (num 1)].
Defined.

(** ** Generated ids *)

(** X8: on a store with no id dimension, a visible row without an entry in
    the id list gets the id [ID_PREFIX + rawIndex]; on an ascending view
    where no visible row has such an entry, the ids of distinct logical
    positions are distinct. *)
Theorem getId_generated_distinct (l : List) (i j : nat) :
  wf_view l → StronglySorted Nat.lt (rawPositions l) →
  _idDimIdx l = None →
  (∀ r, r ∈ rawPositions l → _idList l !! r = None) →
  (i < count l)%nat → (j < count l)%nat →
  (∃ r, rawPositions l !! i = Some r
     ∧ getId l (Z.of_nat i) = Some (Str (ID_PREFIX +:+ pretty (Z.of_nat r))))
  ∧ (getId l (Z.of_nat i) = getId l (Z.of_nat j) → i = j).
Proof.
  intros Hwf Hsorted Hdim Hlist Hi Hj. unfold count in *.
  assert (∀ k r, rawPositions l !! k = Some r →
            getId l (Z.of_nat k) = Some (Str (ID_PREFIX +:+ pretty (Z.of_nat r)))) as Hid.
  { intros k r Hr. unfold getId.
    rewrite getRawIndex_rawPositions, Hr
      by (done || (apply lookup_lt_Some in Hr; by rewrite rawPositions_length in Hr)).
    simpl. unfold getId_static.
    replace (Z.of_nat r <? 0) with false by (symmetry; apply Z.ltb_ge; lia).
    rewrite Nat2Z.id, Hlist, Hdim by (by eapply list_elem_of_lookup_2). done. }
  destruct (lookup_lt_is_Some_2 (rawPositions l) i) as [ri Hri].
  { by rewrite rawPositions_length. }
  destruct (lookup_lt_is_Some_2 (rawPositions l) j) as [rj Hrj].
  { by rewrite rawPositions_length. }
  split; [exists ri; split; [done|by apply Hid]|].
  rewrite (Hid i ri Hri), (Hid j rj Hrj). intros Heq.
  assert (ID_PREFIX +:+ pretty (Z.of_nat ri) = ID_PREFIX +:+ pretty (Z.of_nat rj)) as Happ
    by congruence.
  apply (inj (String.app ID_PREFIX)), (inj pretty), Nat2Z.inj in Happ. subst rj.
  by eapply StronglySorted_lookup_inj.
Qed.

Lemma getId_generated_distinct_witness :
  ∃ r, rawPositions exampleFiltered !! 1%nat = Some r
    ∧ getId exampleFiltered 1 = Some (Str (ID_PREFIX +:+ pretty (Z.of_nat r))).
Proof.
  apply (proj1 (getId_generated_distinct exampleFiltered 1 0 exampleFiltered_wf
                  exampleFiltered_sorted eq_refl (λ _ _, eq_refl)
                  ltac:(vm_compute; lia) ltac:(vm_compute; lia))).
Defined.

(** ** Lookup by name *)

Lemma indexOfName_loop_spec (l : List) (name : string) (i n : nat) (p : Z) :
  indexOfName_loop l name i n = Some p ↔
  (p = -1
   ∧ ∀ j, (i ≤ j < i + n)%nat → ∃ nm, getName l (Z.of_nat j) = Some nm ∧ nm ≠ Str name)
  ∨ (∃ k, p = Z.of_nat k ∧ (i ≤ k < i + n)%nat
       ∧ getName l (Z.of_nat k) = Some (Str name)
       ∧ ∀ j, (i ≤ j < k)%nat → ∃ nm, getName l (Z.of_nat j) = Some nm ∧ nm ≠ Str name).
Proof.
  revert i. induction n as [|n IH]; intros i; simpl.
  - split.
    + intros [= <-]. left. split; [done|]. intros j Hj. lia.
    + intros [[-> _]|(k & _ & Hk & _)]; [done|lia].
  - destruct (getName l (Z.of_nat i)) as [nm|] eqn:E; simpl.
    + destruct (decide (nm = Str name)) as [->|Hne].
      * split.
        -- intros [= <-]. right. exists i. split_and!; [done|lia|lia|done|]. intros j Hj. lia.
        -- intros [[_ Hall]|(k & -> & Hk & Hk' & Hbefore)].
           ++ destruct (Hall i) as (nm & Hnm & Hd); [lia|congruence].
           ++ destruct (decide (k = i)) as [->|Hki]; [done|].
              destruct (Hbefore i) as (nm & Hnm & Hd); [lia|congruence].
      * rewrite IH. split.
        -- intros [[-> Hall]|(k & -> & Hk & Hk' & Hbefore)].
           ++ left. split; [done|]. intros j Hj.
              destruct (decide (j = i)) as [->|Hji]; [by exists nm|]. apply Hall. lia.
           ++ right. exists k. split_and!; [done|lia|lia|done|]. intros j Hj.
              destruct (decide (j = i)) as [->|Hji]; [by exists nm|]. apply Hbefore. lia.
        -- intros [[-> Hall]|(k & -> & Hk & Hk' & Hbefore)].
           ++ left. split; [done|]. intros j Hj. apply Hall. lia.
           ++ right. exists k.
              assert (k ≠ i) by (intros ->; congruence).
              split_and!; [done|lia|lia|done|]. intros j Hj. apply Hbefore. lia.
    + split; [done|]. intros [[_ Hall]|(k & _ & Hk & Hk' & Hbefore)].
      * destruct (Hall i) as (nm & Hnm & _); [lia|congruence].
      * destruct (decide (k = i)) as [->|Hki]; [congruence|].
        destruct (Hbefore i) as (nm & Hnm & _); [lia|congruence].
Qed.

(** X9: [indexOfName] returns the first logical position whose name is the
    given string, and -1 exactly when every visible row has another name:
    a position it returns reads back the name, and no earlier position
    does. *)
Theorem indexOfName_first_match (l : List) (name : string) (p : Z) :
  indexOfName l name = Some p ↔
  (p = -1
   ∧ ∀ j, (j < count l)%nat → ∃ nm, getName l (Z.of_nat j) = Some nm ∧ nm ≠ Str name)
  ∨ (∃ k, p = Z.of_nat k ∧ (k < count l)%nat
       ∧ getName l (Z.of_nat k) = Some (Str name)
       ∧ ∀ j, (j < k)%nat → ∃ nm, getName l (Z.of_nat j) = Some nm ∧ nm ≠ Str name).
Proof.
  unfold indexOfName. rewrite indexOfName_loop_spec. split.
  - intros [[-> Hall]|(k & -> & Hk & Hk' & Hbefore)].
    + left. split; [done|]. intros j Hj. apply Hall. lia.
    + right. exists k. split_and!; [done|lia|done|]. intros j Hj. apply Hbefore. lia.
  - intros [[-> Hall]|(k & -> & Hk & Hk' & Hbefore)].
    + left. split; [done|]. intros j Hj. apply Hall. lia.
    + right. exists k. split_and!; [done|lia|lia|done|]. intros j Hj. apply Hbefore. lia.
Qed.

(** ** Inverted indices *)

Lemma prepareInvertedIndex_loop (l : List) (dim : string) (n : nat)
    (inv0 inv : list Z) :
  Z.of_nat n ≤ 2 ^ 31 →
  for_loop 0 n (prepareInvertedIndex_body l dim) inv0 = Some inv →
  length inv = length inv0
  ∧ ∀ c, (c < length inv0)%nat →
      (inv !! c = inv0 !! c ∧ ∀ i, (i < n)%nat → ordinalOf l dim i ≠ Some c)
      ∨ (∃ i, (i < n)%nat ∧ inv !! c = Some (Z.of_nat i)
           ∧ ordinalOf l dim i = Some c
           ∧ ∀ j, (i < j < n)%nat → ordinalOf l dim j ≠ Some c).
Proof.
  revert inv. induction n as [|n IH]; intros inv Hn Hloop.
  - injection Hloop as <-. split; [done|]. intros c Hc. left. split; [done|]. lia.
  - rewrite for_loop_snoc in Hloop.
    destruct (for_loop 0 n (prepareInvertedIndex_body l dim) inv0) as [inv1|] eqn:E;
      [|done].
    simpl in Hloop. destruct (IH inv1) as [Hlen Hinv]; [lia|done|].
    unfold prepareInvertedIndex_body in Hloop.
    assert (∃ key, ordinalOf l dim n = key
              ∧ inv = match key with
                      | Some p => <[p := Z.of_nat n]> inv1
                      | None => inv1
                      end) as (key & Hkey & ->).
    { unfold ordinalOf. destruct (get l dim (Z.of_nat n)) as [[x|]|]; [| |done].
      - injection Hloop as <-. eexists. split; [done|].
        by rewrite toInt32_small by lia.
      - injection Hloop as <-. by exists None. }
    split; [destruct key; by rewrite ?length_insert|].
    intros c Hc. destruct (decide (key = Some c)) as [->|Hne].
    + right. exists n. split_and!; [lia| |done|intros; lia].
      apply list_lookup_insert_eq. lia.
    + assert (match key with Some p => <[p := Z.of_nat n]> inv1 | None => inv1 end !! c
              = inv1 !! c) as ->.
      { destruct key as [p|]; [|done]. apply list_lookup_insert_ne. congruence. }
      destruct (Hinv c Hc) as [[H1 H2]|(i & Hi & H1 & H2 & H3)].
      * left. split; [done|]. intros i Hi.
        destruct (decide (i = n)) as [->|?]; [congruence|]. apply H2. lia.
      * right. exists i. split_and!; [lia|done|done|]. intros j Hj.
        destruct (decide (j = n)) as [->|?]; [congruence|]. apply H3. lia.
Qed.

(** X10: after [prepareInvertedIndex], [rawIndexOf] on a dimension that has
    categories and an inverted index answers with the last visible row
    whose value denotes the same category as the value asked for, and
    with -1 when there is none (or the value denotes no category); so
    where the values of the dimension are distinct, [rawIndexOf] of the
    value of a row is that row. *)
Theorem rawIndexOf_prepareInvertedIndex (dev : bool) (l : List)
    (m m' : InvertedIndicesMap) (dim : string) (categories : list string)
    (value : number) :
  Z.of_nat (_count l) ≤ 2 ^ 31 →
  prepareInvertedIndex l m = Some m' →
  is_Some (m !! dim) → dim ≠ ""%string →
  ordinalMeta <$> _dimensionInfos l !! dim = Some (Some categories) →
  (∀ c i, arrayIndexOfNumber value = Some c → (c < length categories)%nat →
     (i < count l)%nat → ordinalOf l dim i = Some c →
     (∀ j, (i < j < count l)%nat → ordinalOf l dim j ≠ Some c) →
     rawIndexOf dev m' dim value = Some (Z.of_nat i))
  ∧ ((∀ c i, arrayIndexOfNumber value = Some c → (c < length categories)%nat →
        (i < count l)%nat → ordinalOf l dim i ≠ Some c) →
     rawIndexOf dev m' dim value = Some INDEX_NOT_FOUND).
Proof.
  intros Hmax Hprep [inv0 Hm] Hdim Hmeta. unfold prepareInvertedIndex in Hprep.
  destruct (decide (map_Forall _ m)) as [Hall|]; [|done]. injection Hprep as <-.
  destruct (Hall dim inv0 Hm) as [inv Hinv].
  assert (rawIndexOf dev (map_imap (prepareInvertedIndex_dim l) m) dim value
          = Some (default INDEX_NOT_FOUND (arrayIndexOfNumber value ≫= (inv !!.))))
    as ->.
  { unfold rawIndexOf. rewrite decide_False by done.
    rewrite (proj2 (property_Own _ dim inv)); [done|].
    by rewrite map_lookup_imap, Hm; simpl; rewrite Hinv. }
  unfold prepareInvertedIndex_dim in Hinv.
  destruct (_dimensionInfos l !! dim) as [dimInfo|] eqn:Hinfo; [|done].
  rewrite (proj2 (property_Own _ dim dimInfo) Hinfo) in Hinv.
  injection Hmeta as Hmeta. simpl in Hinv. rewrite Hmeta in Hinv.
  destruct (prepareInvertedIndex_loop l dim _ _ _ Hmax Hinv) as [Hlen Hspec].
  rewrite length_replicate in Hlen, Hspec. unfold count. split.
  - intros c i Hc Hlt Hi Hord Hlast. rewrite Hc. simpl.
    destruct (Hspec c Hlt) as [[_ Hno]|(i' & Hi' & -> & Hord' & Hlast')].
    + by destruct (Hno i Hi).
    + simpl. do 2 f_equal.
      destruct (Nat.lt_trichotomy i i') as [?|[?|?]]; [|done|].
      * destruct (Hlast i'); [lia|done].
      * destruct (Hlast' i); [lia|done].
  - intros Hnone. f_equal.
    destruct (arrayIndexOfNumber value) as [c|] eqn:Hc; [|done]. simpl.
    destruct (decide (c < length categories)%nat) as [Hlt|Hge].
    + destruct (Hspec c Hlt) as [[-> _]|(i & Hi & _ & Hord & _)].
      * by rewrite lookup_replicate_2.
      * by destruct (Hnone c i).
    + rewrite lookup_ge_None_2; [done|lia].
Qed.

Lemma rawIndexOf_prepareInvertedIndex_witness :
  ∃ m', prepareInvertedIndex exampleOrdinal exampleInvertedIndices = Some m'
    ∧ rawIndexOf true m' "c" (num 0) = Some 1.
Proof.
  eexists. split; [reflexivity|].
  refine (proj1 (rawIndexOf_prepareInvertedIndex true exampleOrdinal
                   exampleInvertedIndices _ "c" ["p"; "q"; "r"]%string (num 0)
                   _ eq_refl _ _ eq_refl) 0%nat 1%nat eq_refl _ _ eq_refl _).
  - simpl. lia.
  - by eexists.
  - discriminate.
  - simpl. lia.
  - simpl. lia.
  - intros j Hj. simpl in Hj. lia.
Defined.

(** ** Approximate extents *)

Lemma getDimension_getDimensionName StringToNumber (l : List) dim :
  getDimension StringToNumber l dim = propertyKey (getDimensionName StringToNumber l dim).
Proof. destruct dim as [name|i]; simpl; [|done]. by destruct (_ && _). Qed.

Lemma getDataExtent_undefined_eq StringToNumber (h : Heap) (l : List) dim :
  getDimension StringToNumber l dim = propertyKey None →
  getDataExtent StringToNumber h l dim = getDataExtent_undefined h l.
Proof. intros Hd. unfold getDataExtent, getDataExtent_undefined. by rewrite Hd. Qed.

Lemma getDataExtent_concrete StringToNumber (h : Heap) (l : List) dim name :
  getDimension StringToNumber l dim = name →
  getDimension StringToNumber l (DimName name) = name →
  getDataExtent StringToNumber h l (DimName name) = getDataExtent StringToNumber h l dim.
Proof. intros Hd Hn. unfold getDataExtent. by rewrite Hd, Hn. Qed.

(** X11: [setApproximateExtent], for a dimension whose name is a stored
    key, keeps a copy of the pair it is given, in a new object, and leaves
    the pairs there were as they are; [getApproximateExtent] then hands
    out that stored object itself, whatever was written to the heap
    meanwhile, without copying it or touching the store.  With no
    approximate extent for the dimension, and every name of [dimensions]
    declared, [getApproximateExtent] is [getDataExtent], unless the name
    is one every object inherits a member for: then it returns that
    member, which is no pair, and neither scans nor throws.  No dimension
    is named [hasOwnProperty], the method [getDimension] calls. *)
Theorem approximateExtent_set_get StringToNumber (h : Heap)
    (approx : gmap string nat) (l : List) (dim : DimensionLoose) :
  _dimensionInfos l !! "hasOwnProperty"%string = None →
  (stored_key (getDimension StringToNumber l dim) →
   ∀ extent p, h !! extent = Some p →
     ∃ r h' approx',
       setApproximateExtent StringToNumber h approx l extent dim = Some (h', approx')
       ∧ (r ∉ dom h) ∧ h' !! r = Some p
       ∧ (∀ a, a ∈ dom h → h' !! a = h !! a)
       ∧ ∀ h'', getApproximateExtent StringToNumber h'' approx' l dim
               = Some (ExtentPair r, h'', l))
  ∧ (approx !! getDimension StringToNumber l dim = None →
     getDimension StringToNumber l dim ∉ Object_prototype →
     (∀ name, name ∈ dimensions l → is_Some (_dimensionInfos l !! name)) →
     getApproximateExtent StringToNumber h approx l dim
     = (λ res : nat * Heap * List, (ExtentPair res.1.1, res.1.2, res.2))
         <$> getDataExtent StringToNumber h l dim)
  ∧ (approx !! getDimension StringToNumber l dim = None →
     getDimension StringToNumber l dim ∈ Object_prototype →
     getApproximateExtent StringToNumber h approx l dim
     = Some (ExtentMember (getDimension StringToNumber l dim), h, l)).
Proof.
  intros _. split_and!.
  - intros _ extent p Hp. unfold setApproximateExtent.
    destruct (slice_spec h extent p Hp) as (r & -> & Hr). simpl.
    exists r, (<[r := p]> h), (<[getDimension StringToNumber l dim := r]> approx).
    split_and!; [done|done|by rewrite lookup_insert_eq| |].
    + intros a Ha. rewrite lookup_insert_ne; [done|]. by intros ->.
    + intros h''. unfold getApproximateExtent.
      rewrite <- getDimension_getDimensionName.
      by rewrite (proj2 (property_Own _ _ r) (lookup_insert_eq _ _ _)).
  - intros Hnone Hproto Hdecl. unfold getApproximateExtent.
    rewrite <- getDimension_getDimensionName.
    rewrite (proj2 (property_Absent _ _) (conj Hnone Hproto)).
    assert (match getDimensionName StringToNumber l dim with
            | Some name => getDataExtent StringToNumber h l (DimName name)
            | None => getDataExtent_undefined h l
            end = getDataExtent StringToNumber h l dim) as ->.
    { destruct (getDimensionName StringToNumber l dim) as [name|] eqn:E.
      + apply getDataExtent_concrete.
        * by rewrite getDimension_getDimensionName, E.
        * assert (∀ n, n ∈ dimensions l →
                    getDimension StringToNumber l (DimName n) = n) as Hdeclared.
          { intros n Hin. simpl. destruct (Hdecl n Hin) as [info Hinfo].
            rewrite bool_decide_true by (by eexists). by rewrite andb_false_r. }
          destruct dim as [n|i]; simpl in E.
          -- destruct (negb (isNaN (StringToNumber n)) && _) eqn:Ec.
             ++ destruct (arrayIndexOfKey n) as [k|]; [|done]. simpl in E.
                apply Hdeclared. by eapply list_elem_of_lookup_2.
             ++ injection E as <-. simpl. by rewrite Ec.
          -- unfold at_index in E. destruct (i <? 0); [done|].
             apply Hdeclared. by eapply list_elem_of_lookup_2.
      + symmetry. apply getDataExtent_undefined_eq.
        by rewrite getDimension_getDimensionName, E. }
    by destruct (getDataExtent StringToNumber h l dim) as [[[r h'] l']|].
  - intros Hnone Hproto. unfold getApproximateExtent.
    rewrite <- getDimension_getDimensionName.
    by rewrite (proj2 (property_Inherited _ _) (conj Hnone Hproto)).
Qed.

Lemma approximateExtent_set_get_witness :
  (∃ r h' approx',
     setApproximateExtent exampleStringToNumber exampleHeap ∅ exampleList 0%nat
       (DimName "x") = Some (h', approx')
     ∧ h' !! r = Some (num 1, num 3)
     ∧ getApproximateExtent exampleStringToNumber h' approx' exampleList (DimName "x")
       = Some (ExtentPair r, h', exampleList))
  ∧ getApproximateExtent exampleStringToNumber exampleHeap ∅ exampleList
      (DimName "toString")
    = Some (ExtentMember "toString", exampleHeap, exampleList).
Proof.
  split.
  - destruct (proj1 (approximateExtent_set_get exampleStringToNumber exampleHeap ∅
                       exampleList (DimName "x") eq_refl) ltac:(discriminate)
                0%nat (num 1, num 3) eq_refl)
      as (r & h' & approx' & Hs & _ & Hr & _ & Hg).
    exists r, h', approx'. split_and!; [exact Hs | exact Hr | apply Hg].
  - apply (proj2 (proj2 (approximateExtent_set_get exampleStringToNumber exampleHeap ∅
                           exampleList (DimName "toString") eq_refl))); [reflexivity|].
    by apply is_inherited.
Defined.

(** ** Visual properties *)

Lemma readVisual_insert {V : Type} (obj : gmap string (Visual V)) key val :
  readVisual (<[key := val]> obj) key = val.
Proof.
  unfold readVisual.
  by rewrite (proj2 (property_Own _ _ val) (lookup_insert_eq _ _ _)).
Qed.

Lemma readVisual_insert_ne {V : Type} (obj : gmap string (Visual V)) key key' val :
  key' ≠ key → readVisual (<[key := val]> obj) key' = readVisual obj key'.
Proof. intros Hne. unfold readVisual, property. by rewrite lookup_insert_ne. Qed.

Lemma readVisual_empty {V : Type} (key : string) :
  readVisual (∅ : gmap string (Visual V)) key =
  if bool_decide (key ∈ Object_prototype) then VMember key else VUndefined.
Proof.
  unfold readVisual, property. rewrite lookup_empty. by case_bool_decide.
Qed.

(** X12: what [getItemVisual] reads after [setItemVisual(idx, key, value)],
    [key] being a stored key: at [idx] and [key] the value just set,
    unless that value is null or undefined and the parent is not ignored,
    in which case the visual of the whole list; at another item what it
    read before; at another key of the item what it read before, if the
    item had a visual object or the key names no member objects inherit,
    and else that member, which the object the item now has inherits.
    The key is recorded in [hasItemVisual], and the visual of the whole
    list is not touched.  After [clearAllVisual] a read finds no more
    than the members the emptied list visual inherits, and nothing with
    the parent ignored. *)
Theorem setItemVisual_getItemVisual {V : Type} (s : Visuals V) (idx : Z)
    (key : string) (value : Visual V) :
  stored_key key →
  let s' := setItemVisual s idx key value in
  (∀ ignoreParent,
     getItemVisual s' idx key ignoreParent =
     if nullish value && negb ignoreParent then getVisual s key else value)
  ∧ (∀ idx' key' ignoreParent, idx' ≠ idx →
       getItemVisual s' idx' key' ignoreParent = getItemVisual s idx' key' ignoreParent)
  ∧ (∀ key' ignoreParent, key' ≠ key →
       is_Some (_itemVisuals s !! idx) ∨ key' ∉ Object_prototype →
       getItemVisual s' idx key' ignoreParent = getItemVisual s idx key' ignoreParent)
  ∧ (∀ key' ignoreParent, key' ≠ key →
       _itemVisuals s !! idx = None → key' ∈ Object_prototype →
       getItemVisual s' idx key' ignoreParent = VMember key')
  ∧ hasItemVisual s' !! key = Some true
  ∧ (∀ key', getVisual s' key' = getVisual s key')
  ∧ (∀ idx' key' ignoreParent,
       getItemVisual (clearAllVisual s') idx' key' ignoreParent =
       if negb ignoreParent && bool_decide (key' ∈ Object_prototype)
       then VMember key' else VUndefined).
Proof.
  intros _ s'. split_and!.
  - intros ignoreParent. unfold getItemVisual, s', setItemVisual. simpl.
    by rewrite lookup_insert_eq, readVisual_insert.
  - intros idx' key' ignoreParent Hne. unfold getItemVisual, s', setItemVisual. simpl.
    by rewrite lookup_insert_ne.
  - intros key' ignoreParent Hne Hold. unfold getItemVisual, s', setItemVisual. simpl.
    rewrite lookup_insert_eq, readVisual_insert_ne by done.
    destruct (_itemVisuals s !! idx) as [itemVisual|] eqn:Ei; [done|]. simpl.
    destruct Hold as [[? ?]|Hp]; [done|].
    rewrite readVisual_empty, bool_decide_false by done. done.
  - intros key' ignoreParent Hne Hnone Hp. unfold getItemVisual, s', setItemVisual.
    simpl. rewrite lookup_insert_eq, readVisual_insert_ne, Hnone by done. simpl.
    by rewrite readVisual_empty, bool_decide_true.
  - unfold s', setItemVisual. simpl. by rewrite lookup_insert_eq.
  - done.
  - intros idx' key' ignoreParent. unfold getItemVisual, getVisual. simpl.
    rewrite lookup_empty. simpl. rewrite readVisual_empty.
    by destruct ignoreParent.
Qed.

Lemma setItemVisual_getItemVisual_witness :
  getItemVisual (setItemVisual (mkVisuals ∅ ∅ ∅) 0 "color" (VVal 7%nat)) 0 "color" false
    = VVal 7%nat
  ∧ getItemVisual (setItemVisual (mkVisuals ∅ ∅ ∅) 0 "color" (VVal 7%nat)) 0
      "toString" true = VMember "toString"
  ∧ getItemVisual (clearAllVisual (setItemVisual (mkVisuals ∅ ∅ ∅) 0 "color"
      (VVal 7%nat))) 0 "toString" false = VMember "toString".
Proof.
  destruct (setItemVisual_getItemVisual (mkVisuals ∅ ∅ ∅) 0 "color" (VVal 7%nat)
              ltac:(discriminate)) as (Hset & _ & _ & Hmember & _ & _ & Hclear).
  split_and!.
  - exact (Hset false).
  - apply Hmember; [discriminate | reflexivity | by apply is_inherited].
  - exact (Hclear 0 "toString"%string false).
Defined.

Lemma setItemVisual_object_cons {V : Type} (s : Visuals V) (idx : Z)
    (kv : string * Visual V) (kvObject : list (string * Visual V)) :
  setItemVisual_object s idx (kv :: kvObject) =
  setItemVisual_object (setItemVisual s idx kv.1 kv.2) idx kvObject.
Proof.
  unfold setItemVisual_object, setItemVisual. simpl.
  by rewrite lookup_insert_eq, insert_insert_eq.
Qed.

(** X13: the object form of [setItemVisual], on an object whose keys are
    visited keys, is one call of the string form per key of the object,
    in order, as far as [getItemVisual], [hasItemVisual] and [getVisual]
    can tell.  An object that has no key is the one exception: the item
    still gets a visual object, an empty one if it had none, and where it
    had none a read with the parent ignored then finds, under a name every
    object inherits a member for, that member instead of nothing. *)
Theorem setItemVisual_object_is_sequence {V : Type} (s : Visuals V) (idx : Z)
    (kvObject : list (string * Visual V)) :
  Forall (λ kv, visited_key kv.1) kvObject →
  let s1 := setItemVisual_object s idx kvObject in
  let s2 := foldl (λ s kv, setItemVisual s idx kv.1 kv.2) s kvObject in
  (∀ idx' key ignoreParent,
     kvObject ≠ [] ∨ idx' ≠ idx ∨ is_Some (_itemVisuals s !! idx)
       ∨ key ∉ Object_prototype →
     getItemVisual s1 idx' key ignoreParent = getItemVisual s2 idx' key ignoreParent)
  ∧ (kvObject = [] → _itemVisuals s !! idx = None →
     ∀ key, key ∈ Object_prototype →
       getItemVisual s1 idx key true = VMember key
       ∧ getItemVisual s2 idx key true = VUndefined)
  ∧ hasItemVisual s1 = hasItemVisual s2
  ∧ (∀ key, getVisual s1 key = getVisual s2 key).
Proof.
  intros _. revert s. induction kvObject as [|kv kvObject IH]; intros s.
  - simpl. split_and!; [| |done|done].
    + intros idx' key ignoreParent Hcase.
      unfold getItemVisual, setItemVisual_object. simpl.
      destruct (decide (idx' = idx)) as [->|Hne]; [|by rewrite lookup_insert_ne].
      rewrite lookup_insert_eq.
      destruct (_itemVisuals s !! idx) as [itemVisual|] eqn:Ei; [done|]. simpl.
      destruct Hcase as [?|[?|[[? ?]|Hp]]]; [done..|].
      by rewrite readVisual_empty, bool_decide_false.
    + intros _ Hnone key Hp. unfold getItemVisual, setItemVisual_object. simpl.
      rewrite lookup_insert_eq, Hnone. simpl.
      by rewrite readVisual_empty, bool_decide_true.
  - rewrite setItemVisual_object_cons.
    destruct (IH (setItemVisual s idx kv.1 kv.2)) as (Hread & _ & Hhas & Hvis).
    simpl. split_and!; [|done|done|done].
    intros idx' key ignoreParent _. apply Hread. right. right. left.
    unfold setItemVisual. simpl. rewrite lookup_insert_eq. by eexists.
Qed.

Lemma setItemVisual_object_is_sequence_witness :
  getItemVisual
    (setItemVisual_object (mkVisuals ∅ ∅ ∅) 0
       [("color"%string, VVal 7%nat); ("size"%string, VNull)]) 0 "color" true
  = getItemVisual
      (setItemVisual (setItemVisual (mkVisuals ∅ ∅ ∅) 0 "color" (VVal 7%nat))
         0 "size" VNull) 0 "color" true
  ∧ getItemVisual (setItemVisual_object (mkVisuals (V := nat) ∅ ∅ ∅) 0 []) 0
      "toString" true = VMember "toString".
Proof.
  split.
  - refine (proj1 (setItemVisual_object_is_sequence (mkVisuals ∅ ∅ ∅) 0
                     [("color"%string, VVal 7%nat); ("size"%string, VNull)] _)
              0 "color"%string true _).
    + repeat constructor; discriminate.
    + left. discriminate.
  - refine (proj1 (proj1 (proj2 (setItemVisual_object_is_sequence
                     (mkVisuals (V := nat) ∅ ∅ ∅) 0 [] _)) eq_refl eq_refl
                     "toString"%string _)).
    + constructor.
    + by apply is_inherited.
Defined.

(** ** The order of numbers *)

Lemma SFcompare_floatKey (x y : number) :
  isNaN x = false → isNaN y = false →
  SFcompare x y = Some (keyCompare (floatKey x) (floatKey y)).
Proof.
  destruct x as [sx|sx| |sx mx ex], y as [sy|sy| |sy my ey]; try done;
    intros _ _; try (by destruct sx); try (by destruct sy);
    try (by destruct sx, sy).
  destruct sx, sy; unfold keyCompare; simpl; try done.
  destruct (Z.compare_spec ex ey), (Z.compare_spec (- ex) (- ey)); try lia; done.
Qed.

Lemma keyCompare_Lt k1 k2 :
  keyCompare k1 k2 = Lt ↔
  k1.1.1 < k2.1.1 ∨ (k1.1.1 = k2.1.1 ∧ (k1.1.2 < k2.1.2 ∨ (k1.1.2 = k2.1.2 ∧ k1.2 < k2.2))).
Proof.
  unfold keyCompare.
  destruct (Z.compare_spec k1.1.1 k2.1.1); [|split; [lia|done]|split; [done|lia]].
  destruct (Z.compare_spec k1.1.2 k2.1.2); [|split; [lia|done]|split; [done|lia]].
  destruct (Z.compare_spec k1.2 k2.2); split; try done; lia.
Qed.

Lemma keyCompare_Eq k1 k2 :
  keyCompare k1 k2 = Eq ↔ k1.1.1 = k2.1.1 ∧ k1.1.2 = k2.1.2 ∧ k1.2 = k2.2.
Proof.
  unfold keyCompare.
  destruct (Z.compare_spec k1.1.1 k2.1.1); [|split; [done|lia]|split; [done|lia]].
  destruct (Z.compare_spec k1.1.2 k2.1.2); [|split; [done|lia]|split; [done|lia]].
  destruct (Z.compare_spec k1.2 k2.2); split; try done; lia.
Qed.

Lemma SFcompare_is_Some (x y : number) c :
  SFcompare x y = Some c → isNaN x = false ∧ isNaN y = false.
Proof. by destruct x, y. Qed.

Lemma SFltb_key (x y : number) :
  SFltb x y = true ↔
  isNaN x = false ∧ isNaN y = false ∧ keyCompare (floatKey x) (floatKey y) = Lt.
Proof.
  unfold SFltb. split.
  - destruct (SFcompare x y) as [c|] eqn:E; [|done].
    destruct (SFcompare_is_Some _ _ _ E) as [Hx Hy].
    rewrite SFcompare_floatKey in E by done. injection E as <-.
    intros H. split_and!; [done|done|]. by destruct (keyCompare _ _).
  - intros (Hx & Hy & Hc). by rewrite SFcompare_floatKey, Hc by done.
Qed.

Lemma SFeqb_key (x y : number) :
  SFeqb x y = true ↔
  isNaN x = false ∧ isNaN y = false ∧ keyCompare (floatKey x) (floatKey y) = Eq.
Proof.
  unfold SFeqb. split.
  - destruct (SFcompare x y) as [c|] eqn:E; [|done].
    destruct (SFcompare_is_Some _ _ _ E) as [Hx Hy].
    rewrite SFcompare_floatKey in E by done. injection E as <-.
    intros H. split_and!; [done|done|]. by destruct (keyCompare _ _).
  - intros (Hx & Hy & Hc). by rewrite SFcompare_floatKey, Hc by done.
Qed.

Lemma SFleb_key (x y : number) :
  SFleb x y = true ↔
  isNaN x = false ∧ isNaN y = false
  ∧ (keyCompare (floatKey x) (floatKey y) = Lt ∨ keyCompare (floatKey x) (floatKey y) = Eq).
Proof.
  unfold SFleb. split.
  - destruct (SFcompare x y) as [c|] eqn:E; [|done].
    destruct (SFcompare_is_Some _ _ _ E) as [Hx Hy].
    rewrite SFcompare_floatKey in E by done. injection E as <-.
    intros H. split_and!; [done|done|]. destruct (keyCompare _ _); auto. done.
  - intros (Hx & Hy & [Hc|Hc]); by rewrite SFcompare_floatKey, Hc by done.
Qed.

Ltac float_order :=
  rewrite ?SFleb_key, ?SFltb_key, ?SFeqb_key, ?keyCompare_Lt, ?keyCompare_Eq in *;
  intuition (try congruence; try lia).

Lemma float_lt_le_trans (a b c : number) :
  SFltb a b = true → SFleb b c = true → SFltb a c = true.
Proof. float_order. Qed.

Lemma float_le_trans (a b c : number) :
  SFleb a b = true → SFleb b c = true → SFleb a c = true.
Proof. float_order. Qed.

Lemma float_eq_le (a b : number) : SFeqb a b = true → SFleb a b = true.
Proof. float_order. Qed.

Lemma float_eq_sym (a b : number) : SFeqb a b = true → SFeqb b a = true.
Proof. float_order. Qed.

Lemma float_eq_trans (a b c : number) :
  SFeqb a b = true → SFeqb b c = true → SFeqb a c = true.
Proof. float_order. Qed.

Lemma float_lt_le (a b : number) : SFltb a b = true → SFleb a b = true.
Proof. float_order. Qed.

Lemma float_le_refl (a : number) : isNaN a = false → SFleb a a = true.
Proof. float_order. Qed.

Lemma float_not_lt_le (a b : number) :
  isNaN a = false → isNaN b = false → SFltb a b = false → SFleb b a = true.
Proof.
  intros Ha Hb Hlt. apply SFleb_key. split_and!; [done|done|].
  assert (keyCompare (floatKey a) (floatKey b) ≠ Lt) as Hn.
  { intros Hc. rewrite (proj2 (SFltb_key a b)) in Hlt; done. }
  rewrite keyCompare_Lt, keyCompare_Eq in *. lia.
Qed.

Lemma float_le_not_NaN (a b : number) :
  SFleb a b = true → isNaN a = false ∧ isNaN b = false.
Proof. float_order. Qed.

Lemma float_abs_eq (a b : number) :
  SFeqb a b = true → SFeqb (SFabs a) (SFabs b) = true.
Proof.
  rewrite !SFeqb_key, !keyCompare_Eq.
  destruct a as [[]|[]| |[] ? ?], b as [[]|[]| |[] ? ?]; simpl; intuition (try done; try lia).
Qed.

(** ** The bounds of a scanned extent *)

Lemma float_le_lt_trans (a b c : number) :
  SFleb a b = true → SFltb b c = true → SFltb a c = true.
Proof. float_order. Qed.

Lemma float_le_Infinity (x : number) : SFleb Infinity x = true → x = Infinity.
Proof.
  rewrite SFleb_key, keyCompare_Lt, keyCompare_Eq.
  destruct x as [[]|[]| |[] ? ?]; simpl; intuition (try done; try lia).
Qed.

Lemma float_NegInfinity_le (x : number) : SFleb x NegInfinity = true → x = NegInfinity.
Proof.
  rewrite SFleb_key, keyCompare_Lt, keyCompare_Eq.
  destruct x as [[]|[]| |[] ? ?]; simpl; intuition (try done; try lia).
Qed.

Lemma float_lt_NaN_l (x : number) : SFltb NaN x = false.
Proof. done. Qed.

Lemma float_lt_NaN_r (x : number) : SFltb x NaN = false.
Proof. by destruct x. Qed.

(** The scan from [[Infinity, -Infinity]]: the pair bounds every number
    seen that is not NaN, and each bound is the initial one or a number
    seen. *)
Lemma scan_bounds (xs : list number) (mn mx : number) :
  foldl widen (Infinity, NegInfinity) xs = (mn, mx) →
  isNaN mn = false ∧ isNaN mx = false
  ∧ (∀ x, x ∈ xs → isNaN x = false → SFleb mn x = true ∧ SFleb x mx = true)
  ∧ (mn = Infinity ∨ mn ∈ xs) ∧ (mx = NegInfinity ∨ mx ∈ xs).
Proof.
  revert mn mx. induction xs as [|x xs IH] using rev_ind; intros mn mx.
  - intros [= <- <-]. split_and!; [done|done| |by left|by left].
    intros x Hx. by apply elem_of_nil in Hx.
  - rewrite foldl_app. simpl.
    destruct (foldl widen (Infinity, NegInfinity) xs) as [m0 M0] eqn:E.
    destruct (IH m0 M0 eq_refl) as (Hm & HM & Hb & Hmin & Hmax).
    unfold widen, JS.lt, JS.gt. simpl. intros [= <- <-].
    destruct (isNaN x) eqn:Hx.
    { destruct x; try done. rewrite float_lt_NaN_l, float_lt_NaN_r.
      split_and!; [done|done| | |].
      - intros y [Hy| ->%list_elem_of_singleton]%elem_of_app Hn; [by apply Hb|done].
      - destruct Hmin; [by left|right; apply elem_of_app; by left].
      - destruct Hmax; [by left|right; apply elem_of_app; by left]. }
    split_and!.
    + by destruct (SFltb x m0).
    + by destruct (SFltb M0 x).
    + intros y [Hy| ->%list_elem_of_singleton]%elem_of_app Hn.
      * destruct (Hb y Hy Hn) as [H1 H2]. split.
        -- destruct (SFltb x m0) eqn:El; [|done].
           apply float_lt_le. by eapply float_lt_le_trans.
        -- destruct (SFltb M0 x) eqn:El; [|done].
           apply float_lt_le. by eapply float_le_lt_trans.
      * split.
        -- destruct (SFltb x m0) eqn:El; [by apply float_le_refl|].
           by apply float_not_lt_le.
        -- destruct (SFltb M0 x) eqn:El; [by apply float_le_refl|].
           by apply float_not_lt_le.
    + destruct (SFltb x m0).
      * right. apply elem_of_app. right. by apply list_elem_of_singleton.
      * destruct Hmin; [by left|right; apply elem_of_app; by left].
    + destruct (SFltb M0 x).
      * right. apply elem_of_app. right. by apply list_elem_of_singleton.
      * destruct Hmax; [by left|right; apply elem_of_app; by left].
Qed.

(** What [get] reads at the visible rows, from the stored values of the
    view. *)
Lemma get_viewRawValues (l : List) (name : string) (vs : list value) :
  wf_view l → is_Some (_storage l !! name) →
  viewRawValues l name = Some vs →
  length vs = _count l
  ∧ ∀ i, (i < _count l)%nat → get l name (Z.of_nat i) = vs !! i.
Proof.
  intros Hwf [dimStore Hs] Hvs. unfold viewRawValues in Hvs.
  apply mapM_Some in Hvs.
  pose proof (Forall2_length _ _ _ Hvs) as Hlen.
  rewrite rawPositions_length in Hlen by done. split; [done|].
  intros i Hi.
  destruct (lookup_lt_is_Some_2 (rawPositions l) i) as [r Hr].
  { by rewrite rawPositions_length. }
  destruct (Forall2_lookup_l _ _ _ _ _ Hvs Hr) as (v & Hv & Hg).
  rewrite Hv, <- Hg. unfold get, _getFast.
  replace (0 <=? Z.of_nat i) with true by (symmetry; apply Z.leb_le; lia).
  replace (Z.of_nat i <? Z.of_nat (_count l)) with true
    by (symmetry; apply Z.ltb_lt; lia).
  simpl. rewrite (storageOf_stored l name dimStore Hs). simpl.
  by rewrite getRawIndex_rawPositions, Hr.
Qed.

(** X14: the pair [getDataExtent] finds by scanning a view bounds the view:
    every visible value of the dimension that is not NaN lies between its
    two numbers, and each of the two is the value of a visible row, unless
    it is still the initial [Infinity] or [-Infinity]. *)
Theorem getDataExtent_bounds StringToNumber (h h' : Heap) (l l' : List)
    (dim : DimensionLoose) (r : nat) :
  let name := getDimension StringToNumber l dim in
  wf_view l → is_Some (_storage l !! name) →
  is_Some (_indices l) → _extent l !! name = None →
  getDataExtent StringToNumber h l dim = Some (r, h', l') →
  ∃ mn mx, h' !! r = Some (mn, mx)
    ∧ (∀ i v, (i < count l)%nat → get l name (Z.of_nat i) = Some v →
         isNaN (ToNumber v) = false →
         le mn (ToNumber v) = true ∧ le (ToNumber v) mx = true)
    ∧ (mn = Infinity
       ∨ ∃ i, (i < count l)%nat ∧ get l name (Z.of_nat i) = Some (Num mn))
    ∧ (mx = NegInfinity
       ∨ ∃ i, (i < count l)%nat ∧ get l name (Z.of_nat i) = Some (Num mx)).
Proof.
  intros name Hwf Hs [indices Hi] He Hget.
  pose proof Hs as [dimData Hs'].
  rewrite (getDataExtent_stored _ _ _ _ _ Hs') in Hget.
  unfold getInitialExtent in Hget. fold name in Hget.
  destruct (alloc_spec h (Infinity, NegInfinity)) as (r0 & Ha & Hf).
  rewrite Ha, Hi, He in Hget. case_bool_decide; [done|].
  rewrite lookup_insert_eq in Hget. simpl in Hget.
  unfold count in Hget. rewrite getDataExtent_scan in Hget by done.
  destruct (viewRawValues l name) as [vs|] eqn:Hvs; [|done]. simpl in Hget.
  injection Hget as <- <- <-.
  destruct (foldl widen (Infinity, NegInfinity) (ToNumber <$> vs)) as [mn mx] eqn:E.
  destruct (scan_bounds _ _ _ E) as (Hmn & Hmx & Hb & Hmin & Hmax).
  destruct (get_viewRawValues l name vs Hwf Hs Hvs) as [Hlen Hread].
  assert (∀ x, isNaN x = false → x ∈ ToNumber <$> vs →
            ∃ i, (i < count l)%nat ∧ get l name (Z.of_nat i) = Some (Num x)) as Hat.
  { intros x Hx (v & -> & [i Hv]%list_elem_of_lookup_1)%list_elem_of_fmap.
    assert (i < _count l)%nat as Hlt by (apply lookup_lt_Some in Hv; lia).
    exists i. split; [done|]. rewrite Hread, Hv by done. by destruct v. }
  exists mn, mx. split_and!.
  - by rewrite lookup_insert_eq.
  - intros i v Hlt Hv Hn. apply Hb; [|done]. apply list_elem_of_fmap. exists v.
    split; [done|]. rewrite Hread in Hv by done. by eapply list_elem_of_lookup_2.
  - destruct Hmin as [?|Hin]; [by left|right; by apply Hat].
  - destruct Hmax as [?|Hin]; [by left|right; by apply Hat].
Qed.

Lemma getDataExtent_bounds_witness :
  ∃ r h' l' mn mx,
    getDataExtent exampleStringToNumber exampleHeap exampleFiltered (DimName "y")
      = Some (r, h', l')
    ∧ h' !! r = Some (mn, mx)
    ∧ le mn (num 30) = true ∧ le (num 30) mx = true.
Proof.
  eexists _, _, _.
  destruct (getDataExtent_bounds exampleStringToNumber exampleHeap _ exampleFiltered _
              (DimName "y") _ exampleFiltered_wf ltac:(by eexists) ltac:(by eexists)
              eq_refl eq_refl) as (mn & mx & Hr & Hb & _).
  exists mn, mx. split; [reflexivity|]. split; [exact Hr|].
  apply (Hb 1%nat (Num (num 30))); [vm_compute; lia | reflexivity | reflexivity].
Defined.

(** ** indicesOfNearest *)

Lemma float_eq_refl (a : number) : isNaN a = false → SFeqb a a = true.
Proof. float_order. Qed.

Lemma float_eq_lt_trans (a b c : number) :
  SFeqb a b = true → SFltb b c = true → SFltb a c = true.
Proof. float_order. Qed.

Lemma abs_isNaN (d : number) : isNaN (abs d) = isNaN d.
Proof. by destruct d. Qed.

Lemma take_arraySet (a : list nat) (n x : nat) :
  (n ≤ length a)%nat →
  take (S n) (arraySet a n x) = take n a ++ [x]
  ∧ (S n ≤ length (arraySet a n x))%nat.
Proof.
  intros Hn. unfold arraySet. split.
  - rewrite take_app_ge by (rewrite length_take; lia).
    rewrite length_take. replace (S n - n `min` length a)%nat with 1%nat by lia.
    done.
  - rewrite length_app, length_take. simpl. lia.
Qed.

Lemma StronglySorted_snoc_lt (xs : list nat) (x : nat) :
  StronglySorted Nat.lt xs → (∀ k, k ∈ xs → (k < x)%nat) →
  StronglySorted Nat.lt (xs ++ [x]).
Proof.
  induction 1 as [|y xs Hs IH Hy]; intros Hlt; simpl.
  - repeat constructor.
  - constructor.
    + apply IH. intros k Hk. apply Hlt. by right.
    + apply Forall_app. split; [done|]. constructor; [|done]. apply Hlt. by left.
Qed.

Lemma indicesOfNearest_step (l : List) (dim : string) (value maxDistance : number)
    (i : nat) (s s' : NearestState) :
  NearestInv l dim value maxDistance i s →
  indicesOfNearest_body l dim value maxDistance i s = Some s' →
  NearestInv l dim value maxDistance (S i) s'
  ∧ (nearestIndicesLen s ≠ 0%nat → nearestIndicesLen s' ≠ 0%nat)
  ∧ (∀ d, diffOf l dim value i = Some d → le (abs d) maxDistance = true →
       lt (abs d) Infinity = true → nearestIndicesLen s' ≠ 0%nat).
Proof.
  intros [Hnan Hleast Hdiff Hlen Hsorted Hfound Hnone].
  unfold indicesOfNearest_body, diffOf.
  destruct (get l dim (Z.of_nat i)) as [v|] eqn:Hv; [|done]. simpl.
  set (d := sub value (ToNumber v)). set (D := abs d).
  assert (diffOf l dim value i = Some d) as Hdi by (unfold diffOf; by rewrite Hv).
  assert (∀ j d', (j < S i)%nat →
            (v0 ← get l dim (Z.of_nat j); Some (sub value (ToNumber v0))) = Some d' →
            (j < i)%nat ∨ (j = i ∧ d' = d)) as Hcase.
  { intros j d' Hj Hd'. destruct (decide (j = i)) as [->|?]; [|left; lia].
    right. rewrite Hv in Hd'. simpl in Hd'. by injection Hd' as <-. }
  destruct (le D maxDistance) eqn:Hmax.
  2:{ intros [= <-]. split_and!; [|done|].
      - constructor; try done.
        + intros j d' Hj Hd' Hle.
          destruct (Hcase j d' Hj Hd') as [?|[-> ->]]; [by eapply Hleast|].
          fold D in Hle. congruence.
        + intros k Hk. destruct (Hfound k Hk) as [? ?]. split; [lia|done].
      - intros d' [= <-] Hle. fold D in Hle. congruence. }
  destruct (float_le_not_NaN _ _ Hmax) as [HD _].
  assert (isNaN d = false) as Hd by (by rewrite <- abs_isNaN).
  destruct (lt D (minDist s)
            || strictEq D (minDist s) && ge d zero && lt (minDiff s) zero) eqn:Hreset.
  - (* the nearest rows start afresh with row [i] *)
    simpl. unfold strictEq at 1. rewrite (float_eq_refl d Hd). intros [= <-]. simpl.
    assert (le D (minDist s) = true) as HDle.
    { apply orb_true_iff in Hreset as [Hlt|Heq].
      - by apply float_lt_le.
      - apply float_eq_le. by apply andb_true_iff in Heq as [[Heq _]%andb_true_iff _]. }
    split_and!; [|done|done].
    constructor; simpl.
    + done.
    + intros j d' Hj Hd' Hle.
      destruct (Hcase j d' Hj Hd') as [?|[-> ->]].
      * eapply float_le_trans; [exact HDle|]. by eapply Hleast.
      * by apply float_le_refl.
    + intros d' Heq. left. by apply float_abs_eq.
    + unfold arraySet. simpl. lia.
    + unfold arraySet. simpl. repeat constructor.
    + unfold arraySet. simpl. intros k ->%list_elem_of_singleton.
      split; [lia|]. exists d.
      split_and!; [done|done|by apply float_eq_refl|by apply float_eq_refl].
    + done.
  - (* row [i] joins the nearest rows, or is passed over *)
    apply orb_false_iff in Hreset as [Hlt _].
    assert (le (minDist s) D = true) as Hle by (by apply float_not_lt_le).
    assert (∀ j d', (j < S i)%nat →
              (v0 ← get l dim (Z.of_nat j); Some (sub value (ToNumber v0))) = Some d' →
              le (abs d') maxDistance = true → le (minDist s) (abs d') = true) as Hleast'.
    { intros j d' Hj Hd' Hle'.
      destruct (Hcase j d' Hj Hd') as [?|[-> ->]]; [by eapply Hleast|done]. }
    destruct (strictEq d (minDiff s)) eqn:Heq; intros [= <-]; simpl.
    + destruct (take_arraySet (nearestIndices s) (nearestIndicesLen s) i Hlen)
        as [Htake Hlen'].
      split_and!; [|done|done].
      constructor; simpl; try done.
      * rewrite Htake. apply StronglySorted_snoc_lt; [done|].
        intros k Hk. by destruct (Hfound k Hk).
      * rewrite Htake. intros k [Hk| ->%list_elem_of_singleton]%elem_of_app.
        -- destruct (Hfound k Hk) as [? ?]. split; [lia|done].
        -- split; [lia|]. exists d.
           split_and!; [done|done|done|].
           destruct (Hdiff d Heq) as [?|Hc]; [done|]. fold D in Hc. congruence.
    + split_and!.
      * constructor; try done.
        intros k Hk. destruct (Hfound k Hk) as [? ?]. split; [lia|done].
      * done.
      * intros d' [= <-] _ Hfin Hz. rewrite (Hnone Hz) in Hlt.
        fold D in Hfin. congruence.
Qed.

Lemma indicesOfNearest_init (l : List) (dim : string) (value maxDistance : number) :
  NearestInv l dim value maxDistance 0
    {| minDist := Infinity; minDiff := num (-1);
       nearestIndices := []; nearestIndicesLen := 0 |}.
Proof.
  constructor; simpl; try done.
  - intros j d Hj. lia.
  - intros d Heq. right. apply float_abs_eq in Heq.
    by eapply float_eq_lt_trans.
  - constructor.
  - intros k Hk. by apply elem_of_nil in Hk.
Qed.

Lemma indicesOfNearest_loop (l : List) (dim : string) (value maxDistance : number)
    (n : nat) (s : NearestState) :
  for_loop 0 n (indicesOfNearest_body l dim value maxDistance)
    {| minDist := Infinity; minDiff := num (-1);
       nearestIndices := []; nearestIndicesLen := 0 |} = Some s →
  NearestInv l dim value maxDistance n s
  ∧ ((∃ j d, (j < n)%nat ∧ diffOf l dim value j = Some d
        ∧ le (abs d) maxDistance = true ∧ lt (abs d) Infinity = true) →
     nearestIndicesLen s ≠ 0%nat).
Proof.
  revert s. induction n as [|n IH]; intros s Hloop.
  - injection Hloop as <-. split; [apply indicesOfNearest_init|].
    intros (j & _ & Hj & _). lia.
  - rewrite for_loop_snoc in Hloop.
    destruct (for_loop 0 n _ _) as [s0|]; [|done]. simpl in Hloop.
    destruct (IH s0 eq_refl) as [Hinv Hsome].
    destruct (indicesOfNearest_step _ _ _ _ _ _ _ Hinv Hloop) as (Hinv' & Hkeep & Hnew).
    split; [done|]. intros (j & d & Hj & Hd & Hle & Hfin).
    destruct (decide (j = n)) as [->|Hne]; [by eapply Hnew|].
    apply Hkeep, Hsome. exists j, d. split_and!; [lia|done..].
Qed.

(** X15: the rows [indicesOfNearest] returns, in ascending order, are
    within [maxDistance] of the value, at least as near to it as every
    visible row within [maxDistance], and all at the same signed
    difference from it; there is at least one of them as soon as some
    visible row is at a finite distance within [maxDistance]; for a
    dimension that is not stored there is none. *)
Theorem indicesOfNearest_spec (l : List) (dim : string) (value : number)
    (maxDistance : option number) (result : list nat) :
  indicesOfNearest l dim value maxDistance = Some result →
  let maxD := default Infinity maxDistance in
  StronglySorted Nat.lt result
  ∧ (∀ k, k ∈ result →
       (k < count l)%nat
       ∧ ∃ d, diffOf l dim value k = Some d
           ∧ le (abs d) maxD = true
           ∧ (∀ j d', (j < count l)%nat → diffOf l dim value j = Some d' →
                le (abs d') maxD = true → le (abs d) (abs d') = true)
           ∧ (∀ k' d', k' ∈ result → diffOf l dim value k' = Some d' →
                strictEq d d' = true))
  ∧ ((∃ j d, (j < count l)%nat ∧ diffOf l dim value j = Some d
        ∧ le (abs d) maxD = true ∧ lt (abs d) Infinity = true) →
     result ≠ [])
  ∧ (_storage l !! dim = None → result = []).
Proof.
  intros Hres maxD. unfold indicesOfNearest in Hres. fold maxD in Hres.
  destruct (storageOf l dim) as [dimData|] eqn:Hs.
  2:{ injection Hres as <-. split_and!; [constructor| |  |done].
      - intros k Hk. by apply elem_of_nil in Hk.
      - intros (j & d & _ & Hd & Hle & _). exfalso.
        unfold diffOf, get in Hd. rewrite Hs in Hd.
        assert (d = NaN) as ->; [|done].
        destruct (negb _); simpl in Hd; injection Hd as <-; by destruct value. }
  destruct (for_loop 0 (count l) _ _) as [s|] eqn:Hloop; [|done].
  injection Hres as <-.
  destruct (indicesOfNearest_loop _ _ _ _ _ _ Hloop) as [Hinv Hsome].
  destruct Hinv as [Hnan Hleast Hdiff Hlen Hsorted Hfound Hnone].
  split_and!; [done| | |].
  3:{ intros Hnot.
      destruct (take (nearestIndicesLen s) (nearestIndices s)) as [|k rest] eqn:Et;
        [done|].
      exfalso. destruct (Hfound k) as (Hlt & d & Hd & _); [by left|].
      unfold diffOf in Hd. rewrite get_inherited in Hd; [done|done| |unfold count in Hlt; lia].
      destruct (storageOf_None l dim) as [_ Hn].
      destruct (decide (dim ∈ Object_prototype)) as [?|Hnp]; [done|].
      by rewrite Hn in Hs. }
  - intros k Hk. destruct (Hfound k Hk) as (Hlt & d & Hd & Hle & Heq & HD).
    split; [done|]. exists d. split_and!; [done|done| |].
    + intros j d' Hj Hd' Hle'. eapply float_le_trans; [by apply float_eq_le|].
      by eapply Hleast.
    + intros k' d' Hk' Hd'. destruct (Hfound k' Hk') as (_ & d2 & Hd2 & _ & Heq2 & _).
      assert (d2 = d') as -> by congruence.
      eapply float_eq_trans; [done|]. by apply float_eq_sym.
  - intros Hex Hnil. apply (Hsome Hex).
    apply (f_equal length) in Hnil. rewrite length_take in Hnil. simpl in Hnil. lia.
Qed.

Lemma indicesOfNearest_spec_witness :
  indicesOfNearest exampleList "x" (num 2) None = Some [1%nat]
  ∧ StronglySorted Nat.lt [1%nat] ∧ [1%nat] ≠ [].
Proof.
  assert (indicesOfNearest exampleList "x" (num 2) None = Some [1%nat]) as Hr
    by (vm_compute; reflexivity).
  destruct (indicesOfNearest_spec exampleList "x" (num 2) None [1%nat] Hr)
    as (Hs & _ & Hne & _).
  split; [exact Hr|]. split; [exact Hs|]. apply Hne.
  exists 1%nat, (sub (num 2) (num 2)).
  split_and!; [vm_compute; lia | vm_compute; reflexivity
              | vm_compute; reflexivity | vm_compute; reflexivity].
Defined.

(** ** [filterSelf] on one dimension *)

(** X16: on one stored dimension, [filterSelf] keeps exactly the visible
    rows at which the callback holds of the value [get] reads there and of
    the logical index, in their order; the count is their number. *)
Theorem filterSelf_one_dimension StringToNumber dim cb (l l' : List) :
  let name := getDimension StringToNumber l dim in
  wf_view l → raw_in_range l → is_Some (_storage l !! name) →
  filterSelf StringToNumber [dim] cb l = Some l' →
  rawPositions l' =
    retainedRows (λ i _, match get l name (Z.of_nat i) with
                         | Some v => cb [v] i
                         | None => false
                         end) l
  ∧ count l' = length (rawPositions l').
Proof.
  intros name Hwf Hin [dimStore Hs] Hf.
  destruct (filterSelf_rows _ _ _ _ _ Hwf Hin Hf) as (Hrp & Hwf' & _).
  split; [|unfold count; by rewrite rawPositions_length].
  rewrite Hrp. unfold retainedRows. apply retainedFrom_ext. intros j r Hr.
  assert (j < _count l)%nat as Hj.
  { apply lookup_lt_Some in Hr. by rewrite rawPositions_length in Hr. }
  simpl. fold name. unfold filterKeep, filterValues, get, _getFast.
  replace (0 <=? Z.of_nat j) with true by (symmetry; apply Z.leb_le; lia).
  replace (Z.of_nat j <? Z.of_nat (_count l)) with true
    by (symmetry; apply Z.ltb_lt; lia).
  simpl. rewrite (storageOf_stored l name dimStore Hs), getRawIndex_rawPositions, Hr by done.
  simpl. by destruct (readChunked (_chunkSize l) dimStore (Z.of_nat r)).
Qed.

Lemma filterSelf_one_dimension_witness :
  rawPositions exampleFiltered = [0; 2]%nat ∧ count exampleFiltered = 2%nat.
Proof.
  exact (filterSelf_one_dimension exampleStringToNumber (DimName "x") exampleCb
           exampleList exampleFiltered exampleList_wf exampleList_in_range
           ltac:(by eexists) exampleFiltered_is).
Defined.

(** ** [selectRange] twice *)

Lemma selectRange_keep_ext (l l' : List) range z b :
  _storage l' = _storage l → _chunkSize l' = _chunkSize l →
  selectRange_keep l' range z b = selectRange_keep l range z b.
Proof.
  intros Hs Hc. revert b. induction range as [|[dim [min max]] range IH]; intros b; [done|].
  simpl. rewrite (_getFast_ext l l' dim z Hs Hc).
  destruct (_getFast l dim z) as [v|]; [|done]. simpl. apply IH.
Qed.

Lemma rangeKeepAll_ext (l l' : List) range r :
  _storage l' = _storage l → _chunkSize l' = _chunkSize l →
  rangeKeepAll l' range r = rangeKeepAll l range r.
Proof.
  intros Hs Hc. unfold rangeKeepAll, rangeKeep, _getFast, storageOf. by rewrite Hs, Hc.
Qed.

Lemma rangeKeepAll_rangeKeepN (l : List) range r :
  rangeKeepAll l range r = true → rangeKeepN l range r = true.
Proof.
  intros H. unfold rangeKeepN.
  rewrite (proj2 (selectRange_keep_true l range (Z.of_nat r) true)); [done|].
  split; [done|]. intros dim min max He.
  destruct (proj1 (rangeKeepAll_true l range r) H _ _ _ He) as (v & Hv & Hr).
  exists v. split; [done|]. by apply inRangeOrNaN_not_outOfRange.
Qed.

Lemma filter_filter_subsumed (k1 k2 : nat → bool) (rs : list nat) :
  (∀ r, k1 r = true → k2 r = true) →
  filter (λ r, k2 r = true) (filter (λ r, k1 r = true) rs)
  = filter (λ r, k1 r = true) rs.
Proof.
  intros Hsub. rewrite list_filter_filter. apply list_filter_iff. intros r.
  split; [by intros [_ ?]|]. intros H. split; [by apply Hsub|done].
Qed.

(** X17: [selectRange] is idempotent: a second call with the same range
    (the chunks covering the rows when there is no index array) leaves
    the rows in view, their order and the values [get] reads as the first
    call left them, whatever the bounds. *)
Theorem selectRange_idempotent range (l l1 l2 : List) :
  wf_view l → raw_in_range l →
  (_indices l = None → (_count l ≤ _chunkCount l * _chunkSize l)%nat) →
  selectRange range l = Some l1 →
  selectRange range l1 = Some l2 →
  rawPositions l2 = rawPositions l1
  ∧ count l2 = count l1
  ∧ ∀ dim idx, get l2 dim idx = get l1 dim idx.
Proof.
  intros Hwf Hin Hcover H1 H2.
  destruct (filtering_invariants (λ _, NaN) [] (λ _ _, true) range l l1 Hwf Hin
              (or_intror H1)) as (Hwf1 & Hin1 & _).
  destruct (filtering_invariants (λ _, NaN) [] (λ _ _, true) range l1 l2 Hwf1 Hin1
              (or_intror H2)) as (Hwf2 & _ & _).
  assert (rawPositions l2 = rawPositions l1 ∧ _storage l2 = _storage l1
          ∧ _chunkSize l2 = _chunkSize l1) as (Hrp & Hs & Hc).
  2:{ split_and!; [done| |].
      - unfold count.
        by rewrite <- (rawPositions_length l2 Hwf2), <- (rawPositions_length l1 Hwf1), Hrp.
      - intros dim idx. by apply get_ext. }
  destruct (decide (_count l1 = 0%nat ∨ range = [])) as [Hearly|Hnot].
  { destruct (selectRange_Some _ _ _ Hwf1 H2) as [[_ ->]|(? & ? & _)]; [done|tauto]. }
  assert (_count l1 ≠ 0%nat ∧ range ≠ []) as [H01 Hne] by tauto.
  assert (_count l ≠ 0%nat) as H0.
  { intros H0. destruct (selectRange_Some _ _ _ Hwf H1) as [[_ ->]|(? & _)]; done. }
  destruct (selectRange_rows _ _ _ Hwf Hin Hcover H0 Hne H1)
    as (k1 & w1 & Hl1 & Hrp1 & Hpath1).
  assert (_storage l1 = _storage l ∧ _chunkSize l1 = _chunkSize l
          ∧ _chunkCount l1 = _chunkCount l
          ∧ (is_Some (_indices l) → is_Some (_indices l1))
          ∧ (_indices l1 = None → _indices l = None)) as (Hs1 & Hc1 & Hcc1 & Hi1 & Hn1).
  { subst l1. simpl. split_and!; try done.
    - intros [ind Hind]. rewrite Hind. by destruct (_ <? _)%nat.
    - destruct (_ <? _)%nat; [done|]. by destruct (_indices l). }
  assert (_indices l1 = None → (_count l1 ≤ _chunkCount l1 * _chunkSize l1)%nat)
    as Hcover1.
  { intros Hnone. rewrite Hcc1, Hc1. specialize (Hcover (Hn1 Hnone)).
    rewrite <- (rawPositions_length l1 Hwf1), Hrp1.
    etrans; [apply length_filter|]. by rewrite rawPositions_length. }
  destruct (selectRange_rows _ _ _ Hwf1 Hin1 Hcover1 H01 Hne H2)
    as (k2 & w2 & Hl2 & Hrp2 & Hpath2).
  split_and!; [|by subst l2|by subst l2].
  rewrite Hrp2, Hrp1. apply filter_filter_subsumed. intros r Hr.
  destruct Hpath1 as [[Hno1 Hk1]|[Hyes1 Hk1]], Hpath2 as [[Hno2 Hk2]|[Hyes2 Hk2]];
    rewrite ?Hk1, ?Hk2 in *.
  - by rewrite (rangeKeepAll_ext l l1).
  - unfold rangeKeepN. rewrite (selectRange_keep_ext l l1) by done.
    by apply rangeKeepAll_rangeKeepN.
  - exfalso. apply Hno2. destruct Hyes1 as [[? ?]|?]; [left; split; auto|by right].
  - unfold rangeKeepN. by rewrite (selectRange_keep_ext l l1).
Qed.

Lemma selectRange_idempotent_witness :
  ∃ l1 l2, selectRange [("y"%string, (num 5, num 15))] exampleList = Some l1
    ∧ selectRange [("y"%string, (num 5, num 15))] l1 = Some l2
    ∧ rawPositions l2 = rawPositions l1.
Proof.
  eexists _, _. split; [reflexivity|]. split; [reflexivity|].
  refine (proj1 (selectRange_idempotent [("y"%string, (num 5, num 15))]
                   exampleList _ _ exampleList_wf exampleList_in_range _
                   eq_refl eq_refl)).
  intros _. simpl. lia.
Defined.

(** ** Names and ids under filtering *)

Lemma same_rows_refl (l : List) : same_rows l l.
Proof. by repeat split. Qed.

Lemma same_rows_trans (l1 l2 l3 : List) :
  same_rows l1 l2 → same_rows l2 l3 → same_rows l1 l3.
Proof.
  unfold same_rows. intros (?&?&?&?&?&?&?&?&?&?&?) (?&?&?&?&?&?&?&?&?&?&?).
  split_and!; congruence.
Qed.

Lemma runFilterCalls_same_rows StringToNumber cs (l l' : List) :
  wf_view l → raw_in_range l →
  runFilterCalls StringToNumber cs l = Some l' → same_rows l l'.
Proof.
  revert l. induction cs as [|c cs IH]; intros l Hwf Hin Hrun; simpl in Hrun.
  - injection Hrun as <-. apply same_rows_refl.
  - destruct (runFilterCall StringToNumber c l) as [l1|] eqn:Hc; [|done].
    simpl in Hrun.
    destruct (filtering_step _ _ _ _ Hwf Hin Hc) as (Hwf1 & Hin1 & _).
    apply (same_rows_trans l l1 l'); [|by apply IH].
    assert (l1 = l ∨ ∃ w, l1 = installView l (_count l) w) as [->|[w ->]].
    { destruct c as [dims cb|range]; simpl in Hc.
      - destruct (filterSelf_Some _ _ _ _ _ Hwf Hc) as [[_ ->]|[_ ->]]; eauto.
      - destruct (selectRange_Some _ _ _ Hwf Hc) as [[_ ->]|(_ & _ & keep & ->)]; eauto. }
    + apply same_rows_refl.
    + by repeat split.
Qed.

Lemma getName_same_rows (l l' : List) (i j r : Z) :
  same_rows l l' →
  getRawIndex l i = Some r → getRawIndex l' j = Some r →
  getName l' j = getName l i ∧ getId l' j = getId l i.
Proof.
  intros (Hd & Hi & _ & Hs & Hn & Hid & Hc & _ & _ & Hnd & Hidd) Hri Hrj.
  unfold getName, getId, getName_stored, getId_static, getRawValueFromStore, storageOf.
  by rewrite Hri, Hrj, Hd, Hi, Hs, Hn, Hid, Hc, Hnd, Hidd.
Qed.

(** X18: the name and the id of a row survive any sequence of [filterSelf]
    and [selectRange] calls: every row visible afterwards was visible
    before, at a logical position where [getName] and [getId] return what
    they return for it afterwards. *)
Theorem names_stable_under_filtering StringToNumber cs (l l' : List) :
  wf_view l → raw_in_range l →
  runFilterCalls StringToNumber cs l = Some l' →
  ∀ j, (j < count l')%nat →
    ∃ i, (i < count l)%nat
      ∧ getRawIndex l' (Z.of_nat j) = getRawIndex l (Z.of_nat i)
      ∧ getName l' (Z.of_nat j) = getName l (Z.of_nat i)
      ∧ getId l' (Z.of_nat j) = getId l (Z.of_nat i).
Proof.
  intros Hwf Hin Hrun j Hj. unfold count in *.
  destruct (runFilterCalls_invariants _ _ _ _ Hwf Hin Hrun) as (Hwf' & _ & Hsub & _).
  pose proof (runFilterCalls_same_rows _ _ _ _ Hwf Hin Hrun) as Hsame.
  destruct (lookup_lt_is_Some_2 (rawPositions l') j) as [r Hr].
  { by rewrite rawPositions_length. }
  assert (r ∈ rawPositions l) as [i Hi]%list_elem_of_lookup_1.
  { eapply elem_of_sublist; [|done]. by eapply list_elem_of_lookup_2. }
  assert (i < _count l)%nat as Hlt.
  { apply lookup_lt_Some in Hi. by rewrite rawPositions_length in Hi. }
  exists i. split; [done|].
  assert (getRawIndex l (Z.of_nat i) = Some (Z.of_nat r)) as Hgi
    by (by rewrite getRawIndex_rawPositions, Hi).
  assert (getRawIndex l' (Z.of_nat j) = Some (Z.of_nat r)) as Hgj
    by (by rewrite getRawIndex_rawPositions, Hr).
  split; [congruence|]. by eapply getName_same_rows.
Qed.

Lemma names_stable_under_filtering_witness :
  ∃ i, (i < count exampleList)%nat
    ∧ getRawIndex exampleFiltered 1 = getRawIndex exampleList (Z.of_nat i)
    ∧ getName exampleFiltered 1 = getName exampleList (Z.of_nat i)
    ∧ getId exampleFiltered 1 = getId exampleList (Z.of_nat i).
Proof.
  apply (names_stable_under_filtering exampleStringToNumber
           [CallFilterSelf [DimName "x"] exampleCb] exampleList exampleFiltered
           exampleList_wf exampleList_in_range eq_refl 1%nat).
  vm_compute. lia.
Defined.

(** ** From a category to the logical row *)

Lemma rawIndexOf_found (dev : bool) (l : List) (m m' : InvertedIndicesMap)
    (dim : string) (categories : list string) (value : number) (p : Z) :
  Z.of_nat (_count l) ≤ 2 ^ 31 →
  prepareInvertedIndex l m = Some m' →
  is_Some (m !! dim) → dim ≠ ""%string →
  ordinalMeta <$> _dimensionInfos l !! dim = Some (Some categories) →
  rawIndexOf dev m' dim value = Some p → p ≠ INDEX_NOT_FOUND →
  ∃ i c, p = Z.of_nat i ∧ (i < _count l)%nat
    ∧ arrayIndexOfNumber value = Some c ∧ ordinalOf l dim i = Some c.
Proof.
  intros Hmax Hprep [inv0 Hm] Hdim Hmeta Hraw Hp. unfold prepareInvertedIndex in Hprep.
  destruct (decide (map_Forall _ m)) as [Hall|]; [|done]. injection Hprep as <-.
  destruct (Hall dim inv0 Hm) as [inv Hinv].
  unfold rawIndexOf in Hraw. rewrite decide_False in Hraw by done.
  rewrite (proj2 (property_Own _ dim inv)) in Hraw
    by (by rewrite map_lookup_imap, Hm; simpl; rewrite Hinv).
  injection Hraw as <-.
  unfold prepareInvertedIndex_dim in Hinv.
  destruct (_dimensionInfos l !! dim) as [dimInfo|] eqn:Hinfo; [|done].
  rewrite (proj2 (property_Own _ dim dimInfo) Hinfo) in Hinv.
  injection Hmeta as Hmeta. simpl in Hinv. rewrite Hmeta in Hinv.
  destruct (prepareInvertedIndex_loop l dim _ _ _ Hmax Hinv) as [Hlen Hspec].
  rewrite length_replicate in Hlen, Hspec.
  destruct (arrayIndexOfNumber value) as [c|]; [|done]. simpl in Hp.
  destruct (inv !! c) as [q|] eqn:Hq; [|done]. simpl in Hp. simpl.
  assert (c < length categories)%nat as Hc
    by (apply lookup_lt_Some in Hq; lia).
  destruct (Hspec c Hc) as [[Hinit _]|(i & Hi & Hic & Hord & _)].
  - rewrite lookup_replicate_2 in Hinit by done. congruence.
  - exists i, c. rewrite Hic. by split_and!.
Qed.

Lemma indexOfRawIndex_found (l : List) (r : nat) (p : Z) :
  wf_view l → raw_in_range l → Z.of_nat (_count l) ≤ 2 ^ 31 →
  StronglySorted Nat.lt (rawPositions l) →
  (_indices l = None → _count l = _rawCount l) →
  indexOfRawIndex l (Z.of_nat r) = Some p → p ≠ -1 →
  ∃ q, p = Z.of_nat q ∧ (q < _count l)%nat ∧ rawPositions l !! q = Some r.
Proof.
  intros Hwf [Hin Hrmax] Hmax Hsorted Hfull Hp Hne.
  destruct (decide (r < _rawCount l)%nat) as [Hlt|Hge].
  2:{ unfold indexOfRawIndex in Hp.
      replace (Z.of_nat (_rawCount l) <=? Z.of_nat r) with true in Hp
        by (symmetry; apply Z.leb_le; lia).
      simpl in Hp. congruence. }
  destruct (_indices l) as [indices|] eqn:Ei.
  - destruct (indexOfRawIndex_with_indices l indices r Hwf Hmax Hsorted Ei Hlt)
      as [(q & Hq & Hqc & Hqi)|[Hm _]]; [|congruence].
    exists q. split_and!; [congruence|done|].
    unfold rawPositions. by rewrite Ei, lookup_take_lt.
  - unfold indexOfRawIndex in Hp. rewrite Ei in Hp.
    destruct (_ || _) eqn:Eb; [congruence|]. injection Hp as <-.
    rewrite Hfull by done.
    exists r. split_and!; [done|done|].
    unfold rawPositions. rewrite Ei, Hfull by done. by apply lookup_seq_lt.
Qed.

Lemma runFilterCalls_unindexed StringToNumber cs (l l' : List) :
  wf_view l → raw_in_range l →
  (_indices l = None → _count l = _rawCount l) →
  runFilterCalls StringToNumber cs l = Some l' →
  _indices l' = None → _count l' = _rawCount l'.
Proof.
  revert l. induction cs as [|c cs IH]; intros l Hwf Hin Hfull Hrun; simpl in Hrun.
  - by injection Hrun as <-.
  - destruct (runFilterCall StringToNumber c l) as [l1|] eqn:Hc; [|done].
    simpl in Hrun.
    destruct (filtering_step _ _ _ _ Hwf Hin Hc) as (Hwf1 & Hin1 & _).
    apply (IH l1); [done|done| |done].
    assert (l1 = l ∨ ∃ keep, l1 = installView l (_count l)
              (foldl (pushIndex (getIndicesCtor l)) (newIndicesArray (_count l), 0%nat)
                 (Z.of_nat <$> retainedRows keep l))) as [->|[keep ->]]; [|done|].
    { destruct c as [dims cb|range]; simpl in Hc.
      - destruct (filterSelf_Some _ _ _ _ _ Hwf Hc) as [[_ ->]|[_ ->]]; eauto.
      - destruct (selectRange_Some _ _ _ Hwf Hc) as [[_ ->]|(_ & _ & keep & ->)]; eauto. }
    destruct Hin as [Hin Hmax].
    assert (Hlen : (length (retainedRows keep l) ≤ _count l)%nat).
    { rewrite <- (rawPositions_length l Hwf). apply retainedFrom_length. }
    destruct (installView_kept l (retainedRows keep l)) as (Hcount & Hsame & Hless);
      [by apply retainedFrom_Forall|done|done|].
    intros Hnone.
    destruct (decide (length (retainedRows keep l) = _count l)) as [Heq|Hneq].
    + destruct (Hsame Heq) as [Hi _]. rewrite Hcount, Heq. simpl.
      apply Hfull. by rewrite <- Hi.
    + destruct Hless as (indices & Hi & _); [lia|]. congruence.
Qed.

(** X19: from a category to the row that shows it.  The inverted index
    is prepared on the store as ingested (at most 2^31 rows), then the
    view is filtered; when [rawIndexOf] finds a raw row for a value and
    [indexOfRawIndex] finds that row in the view, [get] at the logical
    position found reads a value that denotes the same category, and
    [getRawIndex] translates the position back to the raw row. *)
Theorem rawIndexOf_then_indexOfRawIndex (dev : bool) StringToNumber cs
    (l l' : List) (m m' : InvertedIndicesMap) (dim : string)
    (categories : list string) (value : number) (r p : Z) :
  _indices l = None → rawIndexGetter l = WithoutIndices →
  _count l = _rawCount l → Z.of_nat (_rawCount l) ≤ 2 ^ 31 →
  prepareInvertedIndex l m = Some m' →
  is_Some (m !! dim) → dim ≠ ""%string →
  ordinalMeta <$> _dimensionInfos l !! dim = Some (Some categories) →
  runFilterCalls StringToNumber cs l = Some l' →
  rawIndexOf dev m' dim value = Some r → r ≠ INDEX_NOT_FOUND →
  indexOfRawIndex l' r = Some p → p ≠ -1 →
  getRawIndex l' p = Some r
  ∧ ∃ x, get l' dim p = Some (Num x)
      ∧ is_Some (arrayIndexOfNumber value)
      ∧ arrayIndexOfNumber x = arrayIndexOfNumber value.
Proof.
  intros Hi Hg Hc Hmax Hprep Hm Hdim Hmeta Hrun Hraw Hr Hp Hpne.
  destruct (unfiltered_store_invariants l Hi Hg Hc ltac:(lia)) as (Hwf & Hin & _).
  destruct (runFilterCalls_invariants _ _ _ _ Hwf Hin Hrun)
    as (Hwf' & Hin' & Hsub & Hrc).
  pose proof (runFilterCalls_same_rows _ _ _ _ Hwf Hin Hrun)
    as (_ & _ & _ & Hs & _ & _ & Hcs & _).
  assert (rawPositions l = seq 0 (_rawCount l)) as Hrp
    by (unfold rawPositions; by rewrite Hi, Hc).
  rewrite Hrp in Hsub.
  assert (_count l' ≤ _rawCount l)%nat as Hcount.
  { rewrite <- (rawPositions_length l' Hwf').
    apply sublist_length in Hsub. by rewrite length_seq in Hsub. }
  destruct (rawIndexOf_found dev l m m' dim categories value r
              ltac:(lia) Hprep Hm Hdim Hmeta Hraw Hr)
    as (i & c & -> & Hlt & Hkey & Hord).
  destruct (indexOfRawIndex_found l' i p Hwf' Hin' ltac:(lia)
              ltac:(by eapply sublist_seq_sorted)) as (q & -> & Hq & Hqi); [|done|done|].
  { apply (runFilterCalls_unindexed StringToNumber cs l); [done|done| |done].
    by intros _. }
  assert (getRawIndex l' (Z.of_nat q) = Some (Z.of_nat i)) as Hgq
    by (by rewrite getRawIndex_rawPositions, Hqi).
  split; [done|].
  unfold ordinalOf in Hord.
  destruct (get l dim (Z.of_nat i)) as [[x|]|] eqn:Hget; try done.
  exists x. rewrite Hkey. split_and!; [|by eexists|done].
  rewrite <- Hget. unfold get, storageOf. rewrite Hs, Hcs, Hgq.
  replace (0 <=? Z.of_nat q) with true by (symmetry; apply Z.leb_le; lia).
  replace (Z.of_nat q <? Z.of_nat (_count l')) with true
    by (symmetry; apply Z.ltb_lt; lia).
  replace (0 <=? Z.of_nat i) with true by (symmetry; apply Z.leb_le; lia).
  replace (Z.of_nat i <? Z.of_nat (_count l)) with true
    by (symmetry; apply Z.ltb_lt; lia).
  simpl. unfold getRawIndex. by rewrite Hg.
Qed.

Lemma rawIndexOf_then_indexOfRawIndex_witness :
  getRawIndex (installView exampleOrdinal 2 ([1; 0]%nat, 1%nat)) 0 = Some 1
  ∧ ∃ x, get (installView exampleOrdinal 2 ([1; 0]%nat, 1%nat)) "c" 0 = Some (Num x)
      ∧ is_Some (arrayIndexOfNumber (num 0))
      ∧ arrayIndexOfNumber x = arrayIndexOfNumber (num 0).
Proof.
  assert (prepareInvertedIndex exampleOrdinal exampleInvertedIndices
          = Some {[ "c"%string := [1; -1; 0] ]}) as Hprep by (vm_compute; reflexivity).
  assert (runFilterCalls exampleStringToNumber [CallFilterSelf [DimName "c"] exampleCb]
            exampleOrdinal
          = Some (installView exampleOrdinal 2 ([1; 0]%nat, 1%nat))) as Hrun
    by (vm_compute; reflexivity).
  apply (rawIndexOf_then_indexOfRawIndex true exampleStringToNumber
           [CallFilterSelf [DimName "c"] exampleCb] exampleOrdinal _
           exampleInvertedIndices _ "c" ["p"; "q"; "r"]%string (num 0) 1 0
           eq_refl eq_refl eq_refl ltac:(vm_compute; discriminate) Hprep
           ltac:(by eexists) ltac:(discriminate) eq_refl Hrun).
  - vm_compute; reflexivity.
  - discriminate.
  - vm_compute; reflexivity.
  - discriminate.
Defined.

(** ** The pair a scan returns *)

(** X20: the pair [getDataExtent] returns from a scan is the cache entry
    itself, not a copy: it is what [_extent] then holds for the dimension,
    and once the caller has written to it, later calls report what was
    written (in a copy). *)
Theorem getDataExtent_scan_returns_cache_entry StringToNumber (h h' : Heap)
    (l l' : List) (dim : DimensionLoose) (r : nat) :
  let name := getDimension StringToNumber l dim in
  is_Some (_storage l !! name) → is_Some (_indices l) → _extent l !! name = None →
  getDataExtent StringToNumber h l dim = Some (r, h', l') →
  _extent l' !! name = Some r
  ∧ ∀ q, ∃ r2 h2,
      getDataExtent StringToNumber (<[r := q]> h') l' dim = Some (r2, h2, l')
      ∧ h2 !! r2 = Some q ∧ r2 ≠ r.
Proof.
  intros name [dimData Hs] [indices Hi] He Hget.
  rewrite (getDataExtent_stored _ _ _ _ _ Hs) in Hget.
  unfold getInitialExtent in Hget. fold name in Hget.
  destruct (alloc_spec h (Infinity, NegInfinity)) as (r0 & Ha & Hf).
  rewrite Ha, Hi, He in Hget. case_bool_decide; [done|].
  rewrite lookup_insert_eq in Hget. simpl in Hget.
  destruct (for_loop 0 (count l) _ _) as [mm|]; [|done]. simpl in Hget.
  injection Hget as <- <- <-.
  set (r := fresh (dom (<[r0 := (Infinity, NegInfinity)]> h))).
  set (l' := setExtent l (<[name := r]> (_extent l))).
  assert (getDimension StringToNumber l' dim = name) as Hname
    by apply getDimension_setExtent.
  split; [simpl; by rewrite lookup_insert_eq|].
  intros q.
  destruct (getDataExtent_cached StringToNumber
              (<[r := q]> (<[r := mm]> (<[r0 := (Infinity, NegInfinity)]> h)))
              l' dim r q) as (r2 & h2 & Hg & Hr2 & _ & Hne & _).
  - rewrite Hname. simpl. by eexists.
  - simpl. by eexists.
  - rewrite Hname. simpl. by rewrite lookup_insert_eq.
  - by rewrite lookup_insert_eq.
  - by exists r2, h2.
Qed.

Lemma getDataExtent_scan_returns_cache_entry_witness :
  ∃ r h' l', getDataExtent exampleStringToNumber exampleHeap exampleFiltered
               (DimName "x") = Some (r, h', l')
    ∧ _extent l' !! "x"%string = Some r.
Proof.
  destruct (getDataExtent exampleStringToNumber exampleHeap exampleFiltered
              (DimName "x")) as [[[r h'] l']|] eqn:E; [|vm_compute in E; discriminate].
  exists r, h', l'. split; [reflexivity|].
  apply (getDataExtent_scan_returns_cache_entry exampleStringToNumber exampleHeap h'
           exampleFiltered l' (DimName "x") r); [by eexists | by eexists | reflexivity | exact E].
Defined.

(** ** The view extent cache *)

Lemma getDataExtent_step StringToNumber (h h' : Heap) (l l' : List) dim r :
  wf_view l → cache_coherent h l →
  getDataExtent StringToNumber h l dim = Some (r, h', l') →
  cache_coherent h' l'
  ∧ (l' = l ∨ ∃ extent, l' = setExtent l extent)
  ∧ (is_Some (_storage l !! getDimension StringToNumber l dim) →
     is_Some (_indices l) →
     ∃ vs, viewRawValues l (getDimension StringToNumber l dim) = Some vs
       ∧ h' !! r = Some (scanExtent vs)).
Proof.
  intros Hwf Hcoh Hget. unfold getDataExtent, getInitialExtent in Hget.
  set (name := getDimension StringToNumber l dim) in *.
  destruct (alloc_spec h (Infinity, NegInfinity)) as (r0 & Ha & Hf).
  rewrite Ha in Hget.
  assert (∀ h1, (∀ a, a ∈ dom h → h1 !! a = h !! a) → cache_coherent h1 l) as Hkeep.
  { intros h1 Hh1 d c Hc. destruct (Hcoh d c Hc) as (vs & Hvs & Hp).
    exists vs. split; [done|]. rewrite Hh1; [done|]. apply elem_of_dom. by eexists. }
  assert (∀ a, a ∈ dom h → <[r0 := (Infinity, NegInfinity)]> h !! a = h !! a) as Hh0.
  { intros a Ha'. rewrite lookup_insert_ne; [done|]. by intros ->. }
  destruct (storageOf l name) as [dimData|] eqn:Hs.
  { unfold property in Hget. destruct (_indices l) as [indices|] eqn:Hi.
    - destruct (_extent l !! name) as [cached|] eqn:He;
        [|case_bool_decide; [done|]].
      + destruct (Hcoh name cached He) as (vs & Hvs & Hp).
        destruct (slice_spec (<[r0 := (Infinity, NegInfinity)]> h) cached
                    (scanExtent vs)) as (r1 & Hsl & Hf1).
        { rewrite Hh0; [done|]. apply elem_of_dom. by eexists. }
        rewrite Hsl in Hget. simpl in Hget. injection Hget as <- <- <-.
        split_and!; [|by left|].
        * apply Hkeep. intros a Ha'. rewrite lookup_insert_ne; [by apply Hh0|].
          rewrite dom_insert in Hf1. set_solver.
        * intros _ _. exists vs. split; [done|]. by rewrite lookup_insert_eq.
      + rewrite lookup_insert_eq in Hget. simpl in Hget.
        unfold count in Hget. rewrite getDataExtent_scan in Hget by done.
        destruct (viewRawValues l name) as [vs|] eqn:Hvs; [|done].
        simpl in Hget. injection Hget as <- <- <-.
        set (r1 := fresh (dom (<[r0 := (Infinity, NegInfinity)]> h))).
        assert (r1 ∉ dom (<[r0 := (Infinity, NegInfinity)]> h)) as Hf1
          by apply is_fresh.
        rewrite dom_insert in Hf1.
        split_and!; [|right; by eexists|].
        * intros d c Hc. simpl in Hc.
          destruct (decide (d = name)) as [->|Hne].
          -- rewrite lookup_insert_eq in Hc. injection Hc as <-.
             exists vs. split; [done|]. by rewrite lookup_insert_eq.
          -- rewrite lookup_insert_ne in Hc by done.
             destruct (Hcoh d c Hc) as (vs' & Hvs' & Hp).
             exists vs'. split; [done|].
             assert (c ∈ dom h) by (apply elem_of_dom; by eexists).
             rewrite lookup_insert_ne by set_solver. by rewrite Hh0.
        * intros _ _. exists vs. split; [done|]. by rewrite lookup_insert_eq.
    - destruct (_rawExtent l !! name) as [rawExtent|]; [|by case_bool_decide].
      simpl in Hget. unfold slice in Hget.
      destruct (<[r0 := (Infinity, NegInfinity)]> h !! rawExtent) as [p|]; [|done].
      simpl in Hget. injection Hget as <- <- <-.
      split_and!; [|by left|by intros _ [? ?]].
      apply Hkeep. intros a Ha'.
      pose proof (is_fresh (dom (<[r0 := (Infinity, NegInfinity)]> h))) as Hf1.
      rewrite lookup_insert_ne; [by apply Hh0|].
      intros Heq. subst a. apply Hf1. apply elem_of_dom.
      pose proof Ha' as [x Hx]%elem_of_dom. exists x. by rewrite Hh0. }
  injection Hget as <- <- <-.
  split_and!; [by apply Hkeep|by left|].
  intros [d Hd]. by rewrite (storageOf_stored _ _ _ Hd) in Hs.
Qed.

Lemma runStoreCalls_invariants StringToNumber cs (h h' : Heap) (l l' : List) :
  wf_view l → raw_in_range l → cache_coherent h l →
  runStoreCalls StringToNumber cs h l = Some (h', l') →
  wf_view l' ∧ raw_in_range l' ∧ cache_coherent h' l'.
Proof.
  revert h l. induction cs as [|[c|dim] cs IH]; intros h l Hwf Hin Hcoh Hrun;
    simpl in Hrun.
  - by injection Hrun as <- <-.
  - destruct (runFilterCall StringToNumber c l) as [l1|] eqn:Hc; [|done].
    simpl in Hrun.
    destruct (filtering_step _ _ _ _ Hwf Hin Hc) as (Hwf1 & Hin1 & _).
    apply (IH h l1); [done|done| |done].
    assert (l1 = l ∨ ∃ w, l1 = installView l (_count l) w) as [->|[w ->]]; [|done|].
    { destruct c as [dims cb|range]; simpl in Hc.
      - destruct (filterSelf_Some _ _ _ _ _ Hwf Hc) as [[_ ->]|[_ ->]]; eauto.
      - destruct (selectRange_Some _ _ _ Hwf Hc) as [[_ ->]|(_ & _ & keep & ->)]; eauto. }
    intros d r Hr. simpl in Hr. by rewrite lookup_empty in Hr.
  - destruct (getDataExtent StringToNumber h l dim) as [[[r h1] l1]|] eqn:Hg; [|done].
    simpl in Hrun.
    destruct (getDataExtent_step _ _ _ _ _ _ _ Hwf Hcoh Hg) as (Hcoh1 & Hl1 & _).
    apply (IH h1 l1); [| |done|done]; by destruct Hl1 as [->|[extent ->]].
Qed.

(** X21: the view extent cache stays coherent.  Starting from a store
    whose cached view extents (if any) are the extents of the rows in
    view, after any sequence of [filterSelf], [selectRange] and
    [getDataExtent] calls (whose results the callers only read) every
    cached extent is the extent of the rows then in view, and
    [getDataExtent] on a stored dimension of a view with an index array
    reports the scan of those rows, from the cache or not. *)
Theorem view_extent_cache_coherent StringToNumber cs (h h' : Heap) (l l' : List) :
  wf_view l → raw_in_range l → cache_coherent h l →
  runStoreCalls StringToNumber cs h l = Some (h', l') →
  cache_coherent h' l'
  ∧ ∀ dim r h'' l'',
      is_Some (_storage l' !! getDimension StringToNumber l' dim) →
      is_Some (_indices l') →
      getDataExtent StringToNumber h' l' dim = Some (r, h'', l'') →
      ∃ vs, viewRawValues l' (getDimension StringToNumber l' dim) = Some vs
        ∧ h'' !! r = Some (scanExtent vs).
Proof.
  intros Hwf Hin Hcoh Hrun.
  destruct (runStoreCalls_invariants _ _ _ _ _ _ Hwf Hin Hcoh Hrun)
    as (Hwf' & _ & Hcoh').
  split; [done|]. intros dim r h'' l'' Hs Hi Hg.
  by destruct (getDataExtent_step _ _ _ _ _ _ _ Hwf' Hcoh' Hg) as (_ & _ & H); auto.
Qed.

Lemma view_extent_cache_coherent_witness :
  ∃ h' l',
    runStoreCalls exampleStringToNumber
      [CallFilter (CallFilterSelf [DimName "x"] exampleCb);
       CallGetDataExtent (DimName "y")] exampleHeap exampleList = Some (h', l')
    ∧ cache_coherent h' l'.
Proof.
  destruct (runStoreCalls exampleStringToNumber
              [CallFilter (CallFilterSelf [DimName "x"] exampleCb);
               CallGetDataExtent (DimName "y")] exampleHeap exampleList)
    as [[h' l']|] eqn:E; [|vm_compute in E; discriminate].
  exists h', l'. split; [reflexivity|].
  refine (proj1 (view_extent_cache_coherent exampleStringToNumber _ exampleHeap h'
                   exampleList l' exampleList_wf exampleList_in_range _ E)).
  intros d r Hr. simpl in Hr. by rewrite lookup_empty in Hr.
Defined.

(** ** When [selectRange] throws *)

Lemma keptRows_None_visible (l : List) (row : nat → option (Z * bool))
    (F : nat → Prop) :
  wf_view l →
  (∀ i r, rawPositions l !! i = Some r → row i = None ↔ F r) →
  keptRows row 0 (_count l) = None ↔ ∃ r, r ∈ rawPositions l ∧ F r.
Proof.
  intros Hwf Hrow. rewrite keptRows_None. split.
  - intros (i & Hi & Hn).
    destruct (lookup_lt_is_Some_2 (rawPositions l) i) as [r Hr].
    { rewrite rawPositions_length by done. lia. }
    exists r. split; [by eapply list_elem_of_lookup_2|]. by apply (Hrow i r Hr).
  - intros (r & [i Hi]%list_elem_of_lookup_1 & HF). exists i. split.
    + apply lookup_lt_Some in Hi. rewrite rawPositions_length in Hi by done. lia.
    + by apply (Hrow i r Hi).
Qed.

Lemma selectRange_keep_None (l : List) (range : Range) (z : Z) (b : bool) :
  selectRange_keep l range z b = None ↔
  ∃ dim min max, (dim, (min, max)) ∈ range ∧ _getFast l dim z = None.
Proof.
  revert b. induction range as [|[dim [min max]] range IH]; intros b; simpl.
  - split; [done|]. intros (? & ? & ? & H & _). by apply elem_of_nil in H.
  - destruct (_getFast l dim z) as [v|] eqn:Ev; simpl.
    + rewrite IH. split.
      * intros (d & mn & mx & Hin & Hg). exists d, mn, mx. split; [by right|done].
      * intros (d & mn & mx & [[= -> -> ->]|Hin]%elem_of_cons & Hg); [congruence|].
        by exists d, mn, mx.
    + split; [|done]. intros _. exists dim, min, max. split; [left|done].
Qed.

Lemma selectRange_generic1_None (l : List) dim0 min max :
  wf_view l →
  selectRange_generic1 l dim0 min max = None ↔
  ∃ r, r ∈ rawPositions l ∧ _getFast l dim0 (Z.of_nat r) = None.
Proof.
  intros Hwf. unfold selectRange_generic1, count.
  rewrite (filter_loop_spec (getIndicesCtor l)
    (λ i, rawIndex ← getRawIndex l (Z.of_nat i);
          val ← _getFast l dim0 rawIndex;
          Some (rawIndex, inRangeOrNaN min max val))).
  2:{ intros i w' _. unfold selectRange_generic1_body.
      destruct (getRawIndex l (Z.of_nat i)) as [r|]; [|done]. simpl.
      by destruct (_getFast l dim0 r). }
  match goal with |- (keptRows ?row 0 _ ≫= _) = None ↔ _ =>
    trans (keptRows row 0 (_count l) = None) end.
  { by destruct (keptRows _ 0 (_count l)). }
  apply (keptRows_None_visible l); [done|]. intros i r Hr. simpl.
  rewrite getRawIndex_rawPositions, Hr
    by (done || (apply lookup_lt_Some in Hr; by rewrite rawPositions_length in Hr)).
  simpl. by destruct (_getFast l dim0 (Z.of_nat r)).
Qed.

Lemma selectRange_genericN_None (l : List) range :
  wf_view l →
  selectRange_genericN l range = None ↔
  ∃ r, r ∈ rawPositions l
    ∧ ∃ dim min max, (dim, (min, max)) ∈ range ∧ _getFast l dim (Z.of_nat r) = None.
Proof.
  intros Hwf. unfold selectRange_genericN, count.
  rewrite (filter_loop_spec (getIndicesCtor l)
    (λ i, rawIndex ← getRawIndex l (Z.of_nat i);
          keep ← selectRange_keep l range rawIndex true;
          Some (rawIndex, keep))).
  2:{ intros i w' _. unfold selectRange_genericN_body.
      destruct (getRawIndex l (Z.of_nat i)) as [r|]; [|done]. simpl.
      destruct (selectRange_keep l range r true) as [[]|]; done. }
  match goal with |- (keptRows ?row 0 _ ≫= _) = None ↔ _ =>
    trans (keptRows row 0 (_count l) = None) end.
  { by destruct (keptRows _ 0 (_count l)). }
  apply (keptRows_None_visible l); [done|]. intros i r Hr. simpl.
  rewrite getRawIndex_rawPositions, Hr
    by (done || (apply lookup_lt_Some in Hr; by rewrite rawPositions_length in Hr)).
  simpl. rewrite <- (selectRange_keep_None l range (Z.of_nat r) true).
  by destruct (selectRange_keep l range (Z.of_nat r) true).
Qed.

Lemma selectRange_fast2_rows (l : List) dim0 dim1 min max min2 max2 :
  is_Some (storageOf l dim0) → is_Some (storageOf l dim1) →
  selectRange_fast2 l dim0 dim1 min max min2 max2 =
  kept ← keptRows (λ i, val ← _getFast l dim0 (Z.of_nat i);
                        val2 ← _getFast l dim1 (Z.of_nat i);
                        Some (Z.of_nat i,
                              inRangeOrNaN min max val && inRangeOrNaN min2 max2 val2)) 0
            (Nat.min (_count l) (_chunkCount l * _chunkSize l));
  Some (foldl (pushIndex (getIndicesCtor l)) (newIndicesArray (_count l), 0%nat) kept).
Proof.
  intros [dimStorage Hs] [dimStorage2 Hs2]. unfold selectRange_fast2, count.
  rewrite (chunked_loop_spec l (getIndicesCtor l)
      (λ i, val ← _getFast l dim0 (Z.of_nat i);
            val2 ← _getFast l dim1 (Z.of_nat i);
            Some (Z.of_nat i, inRangeOrNaN min max val && inRangeOrNaN min2 max2 val2))
      _ (λ k, selectRange_fast2_row (getIndicesCtor l) min max min2 max2
                (dimStorage !! k) (dimStorage2 !! k))).
  - by destruct (keptRows _ 0 _).
  - intros k s. unfold selectRange_fast2_chunk. by rewrite Hs, Hs2.
  - intros k i w' Hi. destruct (chunkLen_pos l k) as [_ Hle]; [lia|].
    rewrite (getFast_in_chunk l dim0 dimStorage) by (done || lia).
    rewrite (getFast_in_chunk l dim1 dimStorage2) by (done || lia).
    unfold selectRange_fast2_row. simpl.
    destruct (dimStorage !! k); [|done]. simpl.
    by destruct (dimStorage2 !! k).
Qed.

Lemma selectRange_fast1_None (l : List) dim0 min max :
  wf_view l → _indices l = None → _count l ≠ 0%nat →
  (_count l ≤ _chunkCount l * _chunkSize l)%nat →
  selectRange_fast1 l dim0 min max = None ↔
  ∃ r, r ∈ rawPositions l ∧ _getFast l dim0 (Z.of_nat r) = None.
Proof.
  intros Hwf Hnone H0 Hcover.
  destruct (storageOf l dim0) as [dimStorage|] eqn:Hs.
  - rewrite selectRange_fast1_rows by (by eexists).
    replace (Nat.min (_count l) (_chunkCount l * _chunkSize l)) with (_count l) by lia.
    match goal with |- (keptRows ?row 0 _ ≫= _) = None ↔ _ =>
      trans (keptRows row 0 (_count l) = None) end.
    { by destruct (keptRows _ 0 (_count l)). }
    apply (keptRows_None_visible l); [done|]. intros i r Hr. simpl.
    unfold rawPositions in Hr. rewrite Hnone in Hr. apply lookup_seq in Hr as [-> _].
    simpl. by destruct (_getFast l dim0 (Z.of_nat i)).
  - split.
    + intros _. exists 0%nat. split.
      * unfold rawPositions. rewrite Hnone. apply list_elem_of_lookup. exists 0%nat.
        apply lookup_seq_lt. lia.
      * unfold _getFast. by rewrite Hs.
    + intros _. unfold selectRange_fast1.
      destruct (_chunkCount l) as [|C]; [simpl in Hcover; lia|].
      cbn [for_loop].
      replace (selectRange_fast1_chunk l _ dim0 min max 0 _) with (@None ChunkWriter);
        [done|]. unfold selectRange_fast1_chunk. by rewrite Hs.
Qed.

Lemma selectRange_fast2_None (l : List) dim0 dim1 min max min2 max2 :
  wf_view l → _indices l = None → _count l ≠ 0%nat →
  (_count l ≤ _chunkCount l * _chunkSize l)%nat →
  selectRange_fast2 l dim0 dim1 min max min2 max2 = None ↔
  ∃ r, r ∈ rawPositions l
    ∧ (_getFast l dim0 (Z.of_nat r) = None ∨ _getFast l dim1 (Z.of_nat r) = None).
Proof.
  intros Hwf Hnone H0 Hcover.
  assert (0%nat ∈ rawPositions l) as Hzero.
  { unfold rawPositions. rewrite Hnone. apply list_elem_of_lookup. exists 0%nat.
    apply lookup_seq_lt. lia. }
  destruct (storageOf l dim0) as [dimStorage|] eqn:Hs;
    [destruct (storageOf l dim1) as [dimStorage2|] eqn:Hs2|].
  - rewrite selectRange_fast2_rows by (by eexists).
    replace (Nat.min (_count l) (_chunkCount l * _chunkSize l)) with (_count l) by lia.
    match goal with |- (keptRows ?row 0 _ ≫= _) = None ↔ _ =>
      trans (keptRows row 0 (_count l) = None) end.
    { by destruct (keptRows _ 0 (_count l)). }
    apply (keptRows_None_visible l); [done|]. intros i r Hr. simpl.
    unfold rawPositions in Hr. rewrite Hnone in Hr. apply lookup_seq in Hr as [-> _].
    simpl. destruct (_getFast l dim0 (Z.of_nat i)); simpl; [|by split; [left|]].
    destruct (_getFast l dim1 (Z.of_nat i)); simpl; [|by split; [right|]].
    split; [done|]. by intros [?|?].
  - split.
    + intros _. exists 0%nat. split; [done|]. right. unfold _getFast. by rewrite Hs2.
    + intros _. unfold selectRange_fast2.
      destruct (_chunkCount l) as [|C]; [simpl in Hcover; lia|].
      cbn [for_loop].
      replace (selectRange_fast2_chunk l _ dim0 dim1 min max min2 max2 0 _)
        with (@None ChunkWriter); [done|].
      unfold selectRange_fast2_chunk. by rewrite Hs, Hs2.
  - split.
    + intros _. exists 0%nat. split; [done|]. left. unfold _getFast. by rewrite Hs.
    + intros _. unfold selectRange_fast2.
      destruct (_chunkCount l) as [|C]; [simpl in Hcover; lia|].
      cbn [for_loop].
      replace (selectRange_fast2_chunk l _ dim0 dim1 min max min2 max2 0 _)
        with (@None ChunkWriter); [done|].
      unfold selectRange_fast2_chunk. by rewrite Hs.
Qed.

(** X22: [selectRange] throws exactly when some dimension of the range
    cannot be read (its storage or the row's chunk is missing) at some
    visible row, whichever of its four loops runs (the chunks covering the
    rows when there is no index array). *)
Theorem selectRange_throws_iff range (l : List) :
  wf_view l →
  (_indices l = None → (_count l ≤ _chunkCount l * _chunkSize l)%nat) →
  selectRange range l = None ↔
  ∃ r dim min max,
    r ∈ rawPositions l ∧ (dim, (min, max)) ∈ range
    ∧ _getFast l dim (Z.of_nat r) = None.
Proof.
  intros Hwf Hcover. unfold selectRange, count.
  destruct (Nat.eqb_spec (_count l) 0) as [H0|H0].
  { split; [done|]. intros (r & _ & _ & _ & Hr & _).
    rewrite (rawPositions_empty l Hwf H0) in Hr. by apply elem_of_nil in Hr. }
  destruct range as [|[dim0 [min max]] rest].
  { split; [done|]. intros (_ & ? & ? & ? & _ & He & _). by apply elem_of_nil in He. }
  match goal with |- (?path ≫= _) = None ↔ _ => trans (path = None) end.
  { match goal with |- (?path ≫= _) = None ↔ _ => by destruct path end. }
  destruct (_indices l) as [indices|] eqn:Hi.
  - destruct rest as [|e rest].
    + rewrite selectRange_generic1_None by done. split.
      * intros (r & Hr & Hg). exists r, dim0, min, max. split_and!; [done|left|done].
      * intros (r & d & mn & mx & Hr & [[= -> -> ->]|He]%elem_of_cons & Hg);
          [by exists r|by apply elem_of_nil in He].
    + rewrite selectRange_genericN_None by done. split.
      * intros (r & Hr & d & mn & mx & He & Hg). by exists r, d, mn, mx.
      * intros (r & d & mn & mx & Hr & He & Hg). exists r. split; [done|].
        by exists d, mn, mx.
  - specialize (Hcover eq_refl).
    destruct rest as [|[dim1 [min2 max2]] [|e rest]].
    + rewrite selectRange_fast1_None by done. split.
      * intros (r & Hr & Hg). exists r, dim0, min, max. split_and!; [done|left|done].
      * intros (r & d & mn & mx & Hr & [[= -> -> ->]|He]%elem_of_cons & Hg);
          [by exists r|by apply elem_of_nil in He].
    + rewrite selectRange_fast2_None by done. split.
      * intros (r & Hr & [Hg|Hg]).
        -- exists r, dim0, min, max. split_and!; [done|left|done].
        -- exists r, dim1, min2, max2. split_and!; [done|right; left|done].
      * intros (r & d & mn & mx & Hr & He & Hg). exists r. split; [done|].
        apply elem_of_cons in He as [[= -> -> ->]|He]; [by left|].
        apply elem_of_cons in He as [[= -> -> ->]|He]; [by right|].
        by apply elem_of_nil in He.
    + rewrite selectRange_genericN_None by done. split.
      * intros (r & Hr & d & mn & mx & He & Hg). by exists r, d, mn, mx.
      * intros (r & d & mn & mx & Hr & He & Hg). exists r. split; [done|].
        by exists d, mn, mx.
Qed.

Lemma selectRange_throws_iff_witness :
  selectRange [("z"%string, (num 0, num 1))] exampleList = None.
Proof.
  apply (proj2 (selectRange_throws_iff [("z"%string, (num 0, num 1))] exampleList
                  exampleList_wf ltac:(intros _; simpl; lia))).
  exists 0%nat, "z"%string, (num 0), (num 1).
  split_and!; [|left|reflexivity].
  apply list_elem_of_lookup. by exists 0%nat.
Defined.

(** ** The fast path of [selectRange] on two dimensions *)

(** X23: on a non-empty store with no index array whose chunks cover the
    rows, and with bounds that are not NaN, the chunk-wise loop of
    [selectRange] for two dimensions yields what the loop for any number
    of dimensions yields on the same range: the same index array and
    offset, and an exception exactly when the other throws. *)
Theorem selectRange_fast2_agrees (l : List) dim0 dim1 min max min2 max2 :
  _indices l = None → wf_view l →
  _count l ≠ 0%nat →
  (_count l ≤ _chunkCount l * _chunkSize l)%nat →
  isNaN min = false → isNaN max = false →
  isNaN min2 = false → isNaN max2 = false →
  selectRange_fast2 l dim0 dim1 min max min2 max2
  = selectRange_genericN l [(dim0, (min, max)); (dim1, (min2, max2))].
Proof.
  intros Hnone Hwf H0 Hcover Hmin Hmax Hmin2 Hmax2.
  set (range := [(dim0, (min, max)); (dim1, (min2, max2))]).
  assert (selectRange_fast2 l dim0 dim1 min max min2 max2 = None
          ↔ selectRange_genericN l range = None) as Hthrow.
  { rewrite selectRange_fast2_None, selectRange_genericN_None by done. split.
    - intros (r & Hr & [Hg|Hg]); exists r; (split; [done|]).
      + exists dim0, min, max. split; [left|done].
      + exists dim1, min2, max2. split; [right; left|done].
    - intros (r & Hr & d & mn & mx & He & Hg). exists r. split; [done|].
      apply elem_of_cons in He as [[= -> -> ->]|He]; [by left|].
      apply elem_of_cons in He as [[= -> -> ->]|He]; [by right|].
      by apply elem_of_nil in He. }
  destruct (selectRange_fast2 l dim0 dim1 min max min2 max2) as [w|] eqn:Ef.
  2:{ symmetry. by apply Hthrow. }
  destruct (selectRange_genericN l range) as [w'|] eqn:Eg.
  2:{ by pose proof (proj2 Hthrow eq_refl). }
  apply selectRange_fast2_kept in Ef; [|done].
  apply selectRange_genericN_kept in Eg; [|done]. subst w w'. do 3 f_equal.
  unfold retainedRows. apply retainedFrom_ext. intros j r Hr. simpl.
  assert (j < _count l)%nat as Hj.
  { apply lookup_lt_Some in Hr. by rewrite rawPositions_length in Hr. }
  replace (inChunks l j) with true by (symmetry; apply Nat.ltb_lt; lia).
  rewrite rangeKeepN_rangeKeepAll.
  - unfold rangeKeepAll, range. simpl. by rewrite andb_true_r.
  - intros d mn mx He.
    apply elem_of_cons in He as [[= -> -> ->]|He]; [done|].
    apply elem_of_cons in He as [[= -> -> ->]|He]; [done|].
    by apply elem_of_nil in He.
Qed.

Lemma selectRange_fast2_agrees_witness :
  selectRange_fast2 exampleList "x" "y" (num 1) (num 2) (num 5) (num 15)
  = selectRange_genericN exampleList
      [("x"%string, (num 1, num 2)); ("y"%string, (num 5, num 15))].
Proof.
  apply (selectRange_fast2_agrees exampleList "x" "y" (num 1) (num 2) (num 5) (num 15));
    try reflexivity.
  - discriminate.
  - simpl. lia.
Defined.

(** ** Raw access under filtering *)

(** X24: filtering changes nothing of what is read by raw index: after any
    sequence of [filterSelf] and [selectRange] calls [getByRawIndex]
    returns what it returned before, for every dimension and raw index,
    and [get] at a visible row returns what [getByRawIndex] returned at
    its raw index before the calls. *)
Theorem getByRawIndex_unchanged_by_filtering StringToNumber cs (l l' : List) :
  wf_view l → raw_in_range l →
  runFilterCalls StringToNumber cs l = Some l' →
  (∀ dim rawIdx, getByRawIndex l' dim rawIdx = getByRawIndex l dim rawIdx)
  ∧ ∀ dim j, (j < count l')%nat →
      ∃ r : nat, getRawIndex l' (Z.of_nat j) = Some (Z.of_nat r)
        ∧ get l' dim (Z.of_nat j) = getByRawIndex l dim (Z.of_nat r).
Proof.
  intros Hwf Hin Hrun.
  destruct (runFilterCalls_invariants _ _ _ _ Hwf Hin Hrun) as (Hwf' & Hin' & _ & _).
  pose proof (runFilterCalls_same_rows _ _ _ _ Hwf Hin Hrun)
    as (_ & _ & Hrc & Hs & _ & _ & Hcs & _).
  assert (∀ dim rawIdx, getByRawIndex l' dim rawIdx = getByRawIndex l dim rawIdx) as Hraw.
  { intros dim rawIdx. unfold getByRawIndex, storageOf. by rewrite Hrc, Hs, Hcs. }
  split; [done|]. intros dim j Hj. unfold count in Hj.
  destruct (lookup_lt_is_Some_2 (rawPositions l') j) as [r Hr].
  { by rewrite rawPositions_length. }
  exists r. rewrite getRawIndex_rawPositions, Hr by done. split; [done|].
  rewrite <- Hraw.
  assert (r < _rawCount l')%nat as Hlt.
  { destruct Hin' as [Hall _]. rewrite Forall_forall in Hall. apply Hall.
    by eapply list_elem_of_lookup_2. }
  unfold get, getByRawIndex.
  replace (0 <=? Z.of_nat j) with true by (symmetry; apply Z.leb_le; lia).
  replace (Z.of_nat j <? Z.of_nat (_count l')) with true
    by (symmetry; apply Z.ltb_lt; lia).
  replace (0 <=? Z.of_nat r) with true by (symmetry; apply Z.leb_le; lia).
  replace (Z.of_nat r <? Z.of_nat (_rawCount l')) with true
    by (symmetry; apply Z.ltb_lt; lia).
  simpl. destruct (storageOf l' dim); [|done].
  by rewrite getRawIndex_rawPositions, Hr.
Qed.

Lemma getByRawIndex_unchanged_by_filtering_witness :
  ∃ r : nat, getRawIndex exampleFiltered 1 = Some (Z.of_nat r)
    ∧ get exampleFiltered "y" 1 = getByRawIndex exampleList "y" (Z.of_nat r).
Proof.
  apply (proj2 (getByRawIndex_unchanged_by_filtering exampleStringToNumber
                  [CallFilterSelf [DimName "x"] exampleCb] exampleList exampleFiltered
                  exampleList_wf exampleList_in_range eq_refl) "y"%string 1%nat).
  vm_compute. lia.
Defined.

(** ** What ingestion leaves of the names and ids *)

Lemma initIdentity_row_frame NumberToString (l : List) nameDimIdx getItem
    (st st' : Identity) (idx : nat) :
  initIdentity_row NumberToString l nameDimIdx getItem idx st = Some st' →
  (∀ j, j ≠ idx → idList st' !! j = idList st !! j
                  ∧ nameList st' !! j = nameList st !! j)
  ∧ (∀ id, getItem idx ≫= item_id = Some id → idList st' !! idx = Some id)
  ∧ (∀ name, nameList st !! idx = Some name → nameList st' !! idx = Some name).
Proof.
  unfold initIdentity_row.
  destruct (getItem idx) as [[iname iid]|]; simpl;
    destruct (nameList st !! idx) as [name0|] eqn:En; simpl;
    try destruct iname as [iname|]; simpl;
    try destruct (getRawValueFromStore l nameDimIdx (Z.of_nat idx)) as [[sname|]|]; simpl;
    try destruct iid as [iid|]; simpl;
    try destruct (property (nameRepeatCount st) _) as [count| |];
    intros [= <-]; simpl;
    (split; [intros j Hj; by rewrite ?lookup_insert_ne by done|]);
    (split; [intros id; try done; intros [= <-]; by rewrite ?lookup_insert_eq|]);
    intros name; try done; by rewrite ?En.
Qed.

Lemma initIdentity_loop_frame NumberToString (l : List) nameDimIdx getItem
    (start n : nat) (st0 st : Identity) :
  for_loop start n (initIdentity_row NumberToString l nameDimIdx getItem) st0 = Some st →
  (∀ j, ¬ (start ≤ j < start + n)%nat →
     idList st !! j = idList st0 !! j ∧ nameList st !! j = nameList st0 !! j)
  ∧ (∀ j id, (start ≤ j < start + n)%nat → getItem j ≫= item_id = Some id →
       idList st !! j = Some id)
  ∧ (∀ j name, nameList st0 !! j = Some name → nameList st !! j = Some name).
Proof.
  revert st. induction n as [|n IH]; intros st.
  - simpl. intros [= <-]. split_and!; [done| |done]. intros j id Hj. lia.
  - rewrite for_loop_snoc.
    destruct (for_loop start n _ st0) as [st1|] eqn:E; [|done]. simpl.
    destruct (IH st1 eq_refl) as (Hout & Hid & Hname). intros Hrow.
    destruct (initIdentity_row_frame _ _ _ _ _ _ _ Hrow) as (Hother & Hthis & Hkeep).
    split_and!.
    + intros j Hj. destruct (Hother j) as [-> ->]; [lia|]. apply Hout. lia.
    + intros j id Hj Hjid. destruct (decide (j = start + n)%nat) as [->|Hne].
      * by apply Hthis.
      * destruct (Hother j) as [-> _]; [done|]. apply Hid; [lia|done].
    + intros j name Hj. destruct (decide (j = start + n)%nat) as [->|Hne].
      * apply Hkeep. by apply Hname.
      * destruct (Hother j) as [_ ->]; [done|]. by apply Hname.
Qed.

(** X25: what the identity part of ingestion leaves alone and what it
    honours.  The call for the rows [start, end) changes neither the id
    nor the name of any row outside that range; a row of the range whose
    data item carries an id gets exactly that id; a name already in the
    name list is kept; and a [pure] provider changes no name and no id. *)
Theorem initIdentity_frame NumberToString (l : List) (pure : bool)
    (getItem : nat → option DataItem) (start end_ : nat) (st : Identity) :
  initIdentity NumberToString l pure getItem start end_ = Some st →
  (∀ j, ¬ (start ≤ j < end_)%nat →
     idList st !! j = _idList l !! j ∧ nameList st !! j = _nameList l !! j)
  ∧ (∀ j id, pure = false → (start ≤ j < end_)%nat →
       getItem j ≫= item_id = Some id → idList st !! j = Some id)
  ∧ (∀ j name, _nameList l !! j = Some name → nameList st !! j = Some name)
  ∧ (pure = true → idList st = _idList l ∧ nameList st = _nameList l).
Proof.
  unfold initIdentity. intros Hinit.
  destruct (Nat.leb_spec end_ start) as [Hle|Hlt].
  { injection Hinit as <-. simpl. split_and!; try done. intros j id _ Hj. lia. }
  destruct (findNameDimIdx _ _ _ _) as [nameDimIdx|]; [|done]. simpl in Hinit.
  destruct pure.
  { injection Hinit as <-. simpl. by split_and!. }
  destruct (initIdentity_loop_frame _ _ _ _ _ _ _ _ Hinit) as (Hout & Hid & Hname).
  simpl in *. split_and!; [| |done|done].
  - intros j Hj. apply Hout. lia.
  - intros j id _ Hj Hjid. apply Hid; [lia|done].
Qed.

Lemma initIdentity_frame_witness :
  ∃ st, initIdentity exampleNumberToString exampleList false exampleItems 0 3 = Some st
    ∧ idList st !! 1%nat = Some (Str "x").
Proof.
  destruct (initIdentity exampleNumberToString exampleList false exampleItems 0 3)
    as [st|] eqn:E; [|vm_compute in E; discriminate].
  exists st. split; [reflexivity|].
  destruct (initIdentity_frame exampleNumberToString exampleList false exampleItems
              0 3 st E) as (_ & Hid & _).
  apply Hid; [reflexivity | lia | reflexivity].
Defined.
